(** * NTKFWinfo: checksum engine, BCL1 codec and layout manager

    A shallow embedding of [NTKFWinfo.py].  Files are byte lists, every
    byte an integer in [0, 256).  Python integers are unbounded, so all
    arithmetic is on [Z] and the masks the script applies are written
    out. *)

From stdpp Require Import gmap list.
From Stdlib Require Import ZArith Lia.

Local Open Scope Z_scope.

(** ** Bytes and files *)

Definition byte_ok (b : Z) : Prop := 0 <= b < 256.
Definition bytes_ok (l : list Z) : Prop := Forall byte_ok l.

(** [len l] is Python's [len(l)]: an integer. *)
Definition len {A} (l : list A) : Z := Z.of_nat (length l).

(** [fin.seek(off, 0); fin.read(n)] on a file opened for reading, for
    [off >= 0]: at most [n] bytes, fewer at the end of the file. *)
Definition pread (f : list Z) (off n : Z) : list Z :=
  take (Z.to_nat n) (drop (Z.to_nat off) f).

(** [struct.unpack("<%sH" % (len(b) // 2), b[:(len(b) // 2) * 2])]. *)
Fixpoint unpack_le16 (bs : list Z) : list Z :=
  match bs with
  | b0 :: b1 :: rest => (b0 + 256 * b1) :: unpack_le16 rest
  | _ => []
  end.

(** ** Results of fallible code *)

(** A call returns, ends the process through [exit(code)] /
    [sys.exit(code)], or raises an exception that nothing catches. *)
Inductive result (A : Type) : Type :=
  | Ok (a : A)
  | Exit (code : Z)
  | Raise.
Arguments Ok {A} a.
Arguments Exit {A} code.
Arguments Raise {A}.

Definition bind {A B} (r : result A) (k : A -> result B) : result B :=
  match r with
  | Ok a => k a
  | Exit c => Exit c
  | Raise => Raise
  end.

Notation "'let*' x ':=' r 'in' k" := (bind r (fun x => k))
  (at level 10, x name, r at level 100, k at level 200).
Notation "'let*' ' p ':=' r 'in' k" := (bind r (fun x => let 'p := x in k))
  (at level 10, p strict pattern, r at level 100, k at level 200).

(** ** [struct.pack] and [struct.unpack] *)

(** Big-endian value of a byte string. *)
Definition be_value (bs : list Z) : Z := fold_left (fun acc b => acc * 256 + b) bs 0.

(** Little-endian value of a byte string. *)
Definition le_value (bs : list Z) : Z := foldr (fun b acc => b + 256 * acc) 0 bs.

(** [struct.unpack(fmt, bs)] for one unsigned field of [n] bytes:
    [struct.error] unless [bs] has exactly [n] bytes. *)
Definition unpack_be (n : nat) (bs : list Z) : result Z :=
  if decide (length bs = n) then Ok (be_value bs) else Raise.

Definition unpack_le (n : nat) (bs : list Z) : result Z :=
  if decide (length bs = n) then Ok (le_value bs) else Raise.

(** The [n] low bytes of [x], least significant first. *)
Fixpoint le_bytes (n : nat) (x : Z) : list Z :=
  match n with
  | O => []
  | S n' => x mod 256 :: le_bytes n' (x / 256)
  end.

(** [struct.pack('<I', x)], ['<H'], ['>I'], ['>H'], ['B']: [struct.error]
    when [x] does not fit the field. *)
Definition pack_le (n : nat) (x : Z) : result (list Z) :=
  if (0 <=? x) && (x <? 256 ^ Z.of_nat n) then Ok (le_bytes n x) else Raise.

Definition pack_be (n : nat) (x : Z) : result (list Z) :=
  if (0 <=? x) && (x <? 256 ^ Z.of_nat n) then Ok (rev (le_bytes n x)) else Raise.

(** A file opened ['r+b']: [fin.seek(off, 0); fin.write(bs)] for
    [0 <= off].  Writing past the end extends the file; a gap between
    the old end and [off] reads as zero bytes; writing no bytes changes
    nothing. *)
Definition pwrite (f : list Z) (off : Z) (bs : list Z) : list Z :=
  match bs with
  | [] => f
  | _ =>
    let o := Z.to_nat off in
    take o f ++ replicate (o - length f) 0 ++ bs ++ drop (o + length bs) f
  end.

(** [fin.truncate()] at position [pos]: the file is cut there, or
    extended with zero bytes up to there. *)
Definition truncate (f : list Z) (pos : Z) : list Z :=
  let n := Z.to_nat pos in
  take n f ++ replicate (n - length f) 0.

(** ** Checksum engine *)

Module Checksum.

Definition CHUNK_SIZE : Z := 1024 * 1024.

(** Body of the [for chunk in struct.unpack(...)] loop; the state is
    [(uiSum, pos)]. *)
Definition word_step (ignoreCRCoffset : Z) (st : Z * Z) (chunk : Z) : Z * Z :=
  let '(uiSum, pos) := st in
  if negb (pos * 2 =? ignoreCRCoffset)
  then (uiSum + (chunk + pos), pos + 1)
  else (uiSum + pos, pos + 1).

Definition words_loop (ignoreCRCoffset : Z) (st : Z * Z) (ws : list Z) : Z * Z :=
  fold_left (word_step ignoreCRCoffset) ws st.

(** The [while bytes_remaining > 0] loop.  [stream] is the part of the
    file after the read position.  Every iteration lowers
    [bytes_remaining] by at least one, which is what [fuel] counts. *)
Fixpoint chunk_loop (fuel : nat) (ignoreCRCoffset : Z)
    (stream : list Z) (bytes_remaining : Z) (st : Z * Z) : Z * Z :=
  match fuel with
  | O => st
  | S fuel' =>
    if bytes_remaining >? 0 then
      let chunk_size := Z.min CHUNK_SIZE bytes_remaining in
      let chunk_size :=
        if (chunk_size mod 2 =? 1) && (bytes_remaining >? 1)
        then chunk_size - 1 else chunk_size in
      let fread := take (Z.to_nat chunk_size) stream in
      match fread with
      | [] => st
      | _ =>
        let st' := words_loop ignoreCRCoffset st (unpack_le16 fread) in
        chunk_loop fuel' ignoreCRCoffset
          (drop (length fread) stream) (bytes_remaining - chunk_size) st'
      end
    else st
  end.

(** [MemCheck_CalcCheckSum16Bit_Streaming(input_file, in_offset, uiLen,
    ignoreCRCoffset)], with the file given by its contents.  [fin.seek]
    raises on a negative offset. *)
Definition MemCheck_CalcCheckSum16Bit_Streaming
    (input_file : list Z) (in_offset uiLen ignoreCRCoffset : Z) : result Z :=
  if in_offset <? 0 then Raise else
  let '(uiSum, _) :=
    chunk_loop (Z.to_nat uiLen) ignoreCRCoffset
      (drop (Z.to_nat in_offset) input_file) uiLen (0, 0) in
  let uiSum := Z.land uiSum 0xFFFF in
  let uiSum := Z.land (Z.lnot uiSum) 0xFFFF + 1 in
  Ok uiSum.

Definition MemCheck_CalcCheckSum16Bit := MemCheck_CalcCheckSum16Bit_Streaming.

(** Proof device: sum contributed by the words [ws] when the first of them has
    position [k]. *)
Fixpoint wsum (hole k : Z) (ws : list Z) : Z :=
  match ws with
  | [] => 0
  | w :: r => (if k * 2 =? hole then k else w + k) + wsum hole (k + 1) r
  end.

(** The sum the specification describes for a range of bytes: word
    [pos] is made of bytes [2*pos] and [2*pos+1], little-endian; it
    counts as [word + pos], or as [pos] alone at the hole; an odd last
    byte belongs to no word. *)
Definition spec_term (range : list Z) (hole_offset : Z) (pos : nat) : Z :=
  let p := Z.of_nat pos in
  if p * 2 =? hole_offset then p
  else (range !!! (2 * pos)%nat + 256 * range !!! (2 * pos + 1)%nat) + p.

Definition spec_sum (range : list Z) (hole_offset : Z) : Z :=
  foldr Z.add 0 (map (spec_term range hole_offset) (seq 0 (length range / 2))).

End Checksum.

(** ** BCL1 codec *)

Module BCL1.

Definition byte_at (dataread : list Z) (i : Z) : Z := dataread !!! Z.to_nat i.

Definition LZ_MAX_OFFSET : Z := 100000.

(** [((dataread[i]) << 8) | (dataread[i+1])]. *)
Definition symbols_at (dataread : list Z) (i : Z) : Z :=
  Z.lor (Z.shiftl (byte_at dataread i) 8) (byte_at dataread (i + 1)).

(** One iteration of the loop building the jump table: the state is
    [(work_dict, work_chain)]. *)
Definition jump_step (dataread : list Z) (st : gmap Z Z * gmap Z Z) (i : Z)
    : gmap Z Z * gmap Z Z :=
  let '(work_dict, work_chain) := st in
  let symbols := symbols_at dataread i in
  let work_chain :=
    match work_dict !! symbols with
    | Some p => <[i := p]> work_chain
    | None => <[i := -1]> work_chain
    end in
  (<[symbols := i]> work_dict, work_chain).

(** [range(n)] as a list of integers. *)
Definition range (n : Z) : list Z := map Z.of_nat (seq 0 (Z.to_nat n)).

Definition build_jump_table (dataread : list Z) : gmap Z Z * gmap Z Z :=
  let insize := len dataread in
  let '(work_dict, work_chain) :=
    fold_left (jump_step dataread) (range (insize - 1)) (∅, ∅) in
  (work_dict, <[insize - 1 := -1]> work_chain).

(** [d.get(k, -1)]. *)
Definition get_or_m1 (d : gmap Z Z) (k : Z) : Z := default (-1) (d !! k).

(** The histogram loop and [histogram.index(min(histogram))]. *)
Definition histogram (dataread : list Z) : list Z :=
  fold_left (fun h b => <[Z.to_nat b := h !!! Z.to_nat b + 1]> h)
            dataread (replicate 256 0).

Definition list_min (l : list Z) : Z :=
  match l with
  | [] => 0
  | x :: r => fold_left Z.min r x
  end.

Fixpoint index_of (x : Z) (l : list Z) : Z :=
  match l with
  | [] => 0
  | y :: r => if y =? x then 0 else 1 + index_of x r
  end.

Definition find_marker (dataread : list Z) : Z :=
  let h := histogram dataread in index_of (list_min h) h.

(** [while (length < maxlength) and (dataread[inpos + length] ==
    dataread[j + length]): length += 1]. *)
Fixpoint match_length (fuel : nat) (dataread : list Z) (inpos j maxlength length : Z) : Z :=
  match fuel with
  | O => length
  | S fuel' =>
    if (length <? maxlength) &&
       (byte_at dataread (inpos + length) =? byte_at dataread (j + length))
    then match_length fuel' dataread inpos j maxlength (length + 1)
    else length
  end.

(** The search loop [while (j != -1) and ((inpos - j) < LZ_MAX_OFFSET)];
    it returns [(bestlength, bestoffset)]. *)
Fixpoint chain_walk (fuel : nat) (dataread : list Z) (work_chain : gmap Z Z)
    (insize inpos bytesleft j bestlength bestoffset : Z) : Z * Z :=
  match fuel with
  | O => (bestlength, bestoffset)
  | S fuel' =>
    if negb (j =? -1) && (inpos - j <? LZ_MAX_OFFSET) then
      if (j + bestlength >=? insize) || (inpos + bestlength >=? insize)
      then (bestlength, bestoffset)
      else
        let '(bestlength', bestoffset') :=
          if byte_at dataread (j + bestlength) =? byte_at dataread (inpos + bestlength)
          then
            let offset := inpos - j in
            let maxlength := if bytesleft <? offset then bytesleft else offset in
            let length := match_length (Z.to_nat maxlength) dataread inpos j maxlength 2 in
            if length >? bestlength then (length, offset)
            else (bestlength, bestoffset)
          else (bestlength, bestoffset) in
        chain_walk fuel' dataread work_chain insize inpos bytesleft
          (get_or_m1 work_chain j) bestlength' bestoffset'
    else (bestlength, bestoffset)
  end.

(** What the search maintains about [(bestlength, bestoffset)]: either
    nothing was found yet, or the match is longer than 3 and no longer
    than its offset and than the bytes left. *)
Definition best_ok (bytesleft : Z) (best : Z * Z) : Prop :=
  best = (3, 0) \/ (3 < best.1 /\ best.1 <= best.2 /\ best.1 <= bytesleft).

(** The match search of one iteration of the main loop. *)
Definition find_match (dataread : list Z) (work_dict work_chain : gmap Z Z)
    (insize inpos bytesleft : Z) : Z * Z :=
  let bestlength := 3 in
  let bestoffset := 0 in
  let symbols := if inpos + 1 <? insize then symbols_at dataread inpos else 0 in
  let j := get_or_m1 work_dict symbols in
  let j := if negb (j =? -1) then get_or_m1 work_chain inpos else j in
  chain_walk (Z.to_nat insize) dataread work_chain insize inpos bytesleft
    j bestlength bestoffset.

(** The test deciding whether the best match is written as a
    back-reference. *)
Definition worth_emitting (bestlength bestoffset : Z) : bool :=
  (bestlength >? 7) ||
  ((bestlength =? 4) && (bestoffset <=? 0x0000007f)) ||
  ((bestlength =? 5) && (bestoffset <=? 0x00003fff)) ||
  ((bestlength =? 6) && (bestoffset <=? 0x001fffff)) ||
  ((bestlength =? 7) && (bestoffset <=? 0x0fffffff)).

(** Number of bytes of a variable-length field: [y = x >> 3;
    num_bytes = 5; while num_bytes >= 2: ...]. *)
Fixpoint num_bytes_loop (fuel : nat) (y num_bytes : Z) : Z :=
  match fuel with
  | O => num_bytes
  | S fuel' =>
    if num_bytes >=? 2 then
      if negb (Z.land y 0xfe000000 =? 0) then num_bytes
      else num_bytes_loop fuel' (Z.shiftl y 7) (num_bytes - 1)
    else num_bytes
  end.

Definition varint_num_bytes (x : Z) : Z := num_bytes_loop 4 (Z.shiftr x 3) 5.

(** [i = num_bytes - 1; while i >= 0: ...], accumulating [buf]. *)
Fixpoint varint_buf (fuel : nat) (x i buf : Z) : Z :=
  match fuel with
  | O => buf
  | S fuel' =>
    if i >=? 0 then
      let b := Z.land (Z.shiftr x (i * 7)) 0x0000007f in
      let b := if i >? 0 then Z.lor b 0x00000080 else b in
      varint_buf fuel' x (i - 1) (Z.lor (Z.shiftl buf 8) b)
    else buf
  end.

(** [while num_bytes > 0: fout.write(struct.pack('B', (buf >> (8 *
    (num_bytes - 1))) & 0xFF)); num_bytes -= 1]. *)
Fixpoint varint_write (fuel : nat) (buf num_bytes : Z) : list Z :=
  match fuel with
  | O => []
  | S fuel' =>
    if num_bytes >? 0 then
      Z.land (Z.shiftr buf (8 * (num_bytes - 1))) 0xFF
        :: varint_write fuel' buf (num_bytes - 1)
    else []
  end.

(** The bytes written for a length or an offset. *)
Definition varint (x : Z) : list Z :=
  let num_bytes := varint_num_bytes x in
  let buf := varint_buf 5 x (num_bytes - 1) 0 in
  varint_write 5 buf num_bytes.

(** The field as a list of base-128 digits, most significant first,
    with the high bit set on all but the last: [n] digits of [x]. *)
Fixpoint varint_bytes (n : nat) (x : Z) : list Z :=
  match n with
  | O => []
  | S n' =>
    (if (n' =? 0)%nat then (x / 128 ^ Z.of_nat n') mod 128
     else (x / 128 ^ Z.of_nat n') mod 128 + 128) :: varint_bytes n' x
  end.

(** What one iteration writes: a literal, or a back-reference. *)
Inductive token : Type :=
  | Lit (symbol : Z)
  | Ref (bestlength bestoffset : Z).

Definition token_bytes (marker : Z) (t : token) : list Z :=
  match t with
  | Lit symbol => if symbol =? marker then [symbol; 0] else [symbol]
  | Ref bestlength bestoffset => marker :: varint bestlength ++ varint bestoffset
  end.

(** The main loop [while bytesleft > 3].  The result lists, for every
    iteration, the value of [inpos] at its start and what it wrote,
    followed by the final [inpos]. *)
Fixpoint lz_loop (fuel : nat) (dataread : list Z) (work_dict work_chain : gmap Z Z)
    (insize inpos bytesleft : Z) : list (Z * token) * Z :=
  match fuel with
  | O => ([], inpos)
  | S fuel' =>
    if bytesleft >? 3 then
      let '(bestlength, bestoffset) :=
        find_match dataread work_dict work_chain insize inpos bytesleft in
      if worth_emitting bestlength bestoffset then
        let '(ts, p) := lz_loop fuel' dataread work_dict work_chain insize
                          (inpos + bestlength) (bytesleft - bestlength) in
        ((inpos, Ref bestlength bestoffset) :: ts, p)
      else
        let symbol := byte_at dataread inpos in
        let '(ts, p) := lz_loop fuel' dataread work_dict work_chain insize
                          (inpos + 1) (bytesleft - 1) in
        ((inpos, Lit symbol) :: ts, p)
    else ([], inpos)
  end.

(** [while inpos < insize]: the remaining bytes are written as
    literals. *)
Fixpoint dump_remaining (fuel : nat) (dataread : list Z) (insize inpos : Z)
    : list (Z * token) :=
  match fuel with
  | O => []
  | S fuel' =>
    if inpos <? insize then
      (inpos, Lit (byte_at dataread inpos))
        :: dump_remaining fuel' dataread insize (inpos + 1)
    else []
  end.

(** All iterations of the LZ77 encoder over [dataread]. *)
Definition lz77_trace (dataread : list Z) : list (Z * token) :=
  let insize := len dataread in
  let '(work_dict, work_chain) := build_jump_table dataread in
  let '(ts, inpos) :=
    lz_loop (Z.to_nat insize) dataread work_dict work_chain insize 0 insize in
  ts ++ dump_remaining (Z.to_nat insize) dataread insize inpos.

(** The payload: the marker, then the bytes of every token. *)
Definition lz77_payload (dataread : list Z) : list Z :=
  let marker := find_marker dataread in
  marker :: flat_map (fun pt => token_bytes marker (snd pt)) (lz77_trace dataread).

(** *** What the encoder's tokens mean

    Proof devices for the round trip.  [trace_bytes] is what the
    iterations write after the marker byte.  [valid_trace d pos ts stop]
    says that the tokens [ts] tile [d] from [pos] to [stop]: a literal
    is the byte at its position, a back-reference of [length] bytes at
    distance [offset] repeats bytes already passed. *)
Definition trace_bytes (marker : Z) (ts : list (Z * token)) : list Z :=
  flat_map (fun pt => token_bytes marker (snd pt)) ts.

Fixpoint valid_trace (d : list Z) (pos : Z) (ts : list (Z * token)) (stop : Z) : Prop :=
  match ts with
  | [] => pos = stop
  | (p, Lit symbol) :: rest =>
    p = pos /\ 0 <= pos < len d /\ symbol = byte_at d pos /\
    valid_trace d (pos + 1) rest stop
  | (p, Ref length offset) :: rest =>
    p = pos /\ 4 <= length /\ 0 < offset <= pos /\ offset < LZ_MAX_OFFSET /\
    pos + length <= len d /\
    (forall k, 0 <= k < length -> byte_at d (pos + k) = byte_at d (pos - offset + k)) /\
    valid_trace d (pos + length) rest stop
  end.

(** The last index below [k] whose two-byte symbol is [s], or [-1]:
    what the jump table records. *)
Fixpoint last_before (d : list Z) (s : Z) (k : nat) : Z :=
  match k with
  | O => -1
  | S k' =>
    if symbols_at d (Z.of_nat k') =? s then Z.of_nat k' else last_before d s k'
  end.

(** A result of the search that is a real match: nothing found, or
    [best.1] bytes at [inpos] that repeat the bytes [best.2] before. *)
Definition best_match (d : list Z) (inpos bytesleft : Z) (best : Z * Z) : Prop :=
  best = (3, 0) \/
  (3 < best.1 /\ best.1 <= bytesleft /\ 0 < best.2 <= inpos /\
   best.2 < LZ_MAX_OFFSET /\
   forall k, 0 <= k < best.1 ->
     byte_at d (inpos + k) = byte_at d (inpos - best.2 + k)).

(** The iterations of the main loop over a run of 65536 equal bytes
    [c] that starts at [s]: four literals, then back-references that
    double. *)
Definition run_tokens (s c : Z) : list (Z * token) :=
  [(s, Lit c); (s + 1, Lit c); (s + 2, Lit c); (s + 3, Lit c);
   (s + 4, Ref 4 4); (s + 8, Ref 8 8); (s + 16, Ref 16 16); (s + 32, Ref 32 32);
   (s + 64, Ref 64 64); (s + 128, Ref 128 128); (s + 256, Ref 256 256);
   (s + 512, Ref 512 512); (s + 1024, Ref 1024 1024); (s + 2048, Ref 2048 2048);
   (s + 4096, Ref 4096 4096); (s + 8192, Ref 8192 8192);
   (s + 16384, Ref 16384 16384); (s + 32768, Ref 32768 32768)].

(** 64 KiB of the byte [a] followed by 64 KiB of the byte [b]; with
    [0x41] and [0x42], the input of the round-trip scenario. *)
Definition two_runs (a b : Z) : list Z :=
  replicate (Z.to_nat 65536) a ++ replicate (Z.to_nat 65536) b.

Definition s3_input : list Z := two_runs 0x41 0x42.

(** *** Decoder *)

(** [struct.unpack('B', fin.read(1))[0]]: [struct.error] at the end of
    the file. *)
Definition read1 (stream : list Z) : result (Z * list Z) :=
  match stream with
  | [] => Raise
  | b :: rest => Ok (b, rest)
  end.

(** [while (b & 0x80) != 0: b = read; y = (y << 7) | (b & 0x7f);
    num_bytes += 1]; it returns [(y, num_bytes)] and the rest of the
    stream. *)
Fixpoint read_varint_loop (stream : list Z) (b y num_bytes : Z)
    : result (Z * Z * list Z) :=
  if negb (Z.land b 0x00000080 =? 0) then
    match stream with
    | [] => Raise
    | b' :: rest =>
      read_varint_loop rest b'
        (Z.lor (Z.shiftl y 7) (Z.land b' 0x0000007f)) (num_bytes + 1)
    end
  else Ok (y, num_bytes, stream).

(** A field whose first byte [b] has been read already. *)
Definition read_varint (stream : list Z) (b : Z) : result (Z * Z * list Z) :=
  read_varint_loop stream b (Z.lor (Z.shiftl 0 7) (Z.land b 0x0000007f)) (0 + 1).

(** [buf[i]] on a bytearray: negative indices count from the end,
    [IndexError] outside. *)
Definition py_index (buf : list Z) (i : Z) : result Z :=
  let n := len buf in
  if (0 <=? i) && (i <? n) then Ok (buf !!! Z.to_nat i)
  else if (- n <=? i) && (i <? 0) then Ok (buf !!! Z.to_nat (n + i))
  else Raise.

(** [for i in range(length): outputbuf.append(outputbuf[outpos -
    offset]); outpos += 1]. *)
Fixpoint copy_history (n : nat) (outputbuf : list Z) (outpos offset : Z)
    : result (list Z * Z) :=
  match n with
  | O => Ok (outputbuf, outpos)
  | S n' =>
    let* x := py_index outputbuf (outpos - offset) in
    copy_history n' (outputbuf ++ [x]) (outpos + 1) offset
  end.

Definition BUFFER_LIMIT : Z := Checksum.CHUNK_SIZE.

(** State of the decoding loop: the unread input, [inpos], the
    bytearray [outputbuf], [outpos] and what was written to [fout]. *)
Record dec_state : Type := DecState {
  d_stream : list Z;
  d_inpos : Z;
  d_outputbuf : list Z;
  d_outpos : Z;
  d_fout : list Z
}.

(** One iteration of [while (inpos < insize) & (outpos < outsize)]. *)
Definition dec_step (marker : Z) (st : dec_state) : result dec_state :=
  let* '(symbol, stream) := read1 (d_stream st) in
  let inpos := d_inpos st + 1 in
  let* '(stream, inpos, outputbuf, outpos) :=
    if symbol =? marker then
      let* '(readbyte, stream) := read1 stream in
      if readbyte =? 0 then
        Ok (stream, inpos + 1, d_outputbuf st ++ [marker], d_outpos st + 1)
      else
        let* '(length, num_bytes, stream) := read_varint stream readbyte in
        let inpos := inpos + num_bytes in
        let* '(b, stream) := read1 stream in
        let* '(offset, num_bytes, stream) := read_varint stream b in
        let inpos := inpos + num_bytes in
        let* '(outputbuf, outpos) :=
          copy_history (Z.to_nat length) (d_outputbuf st) (d_outpos st) offset in
        Ok (stream, inpos, outputbuf, outpos)
    else Ok (stream, inpos, d_outputbuf st ++ [symbol], d_outpos st + 1) in
  if len outputbuf >=? BUFFER_LIMIT then
    let fout := d_fout st ++ outputbuf in
    if len outputbuf >? BUFFER_LIMIT + 100000 then
      let written := len outputbuf - 100000 in
      let outputbuf := drop (Z.to_nat written) outputbuf in
      Ok (DecState stream inpos outputbuf (len outputbuf) fout)
    else Ok (DecState stream inpos outputbuf outpos fout)
  else Ok (DecState stream inpos outputbuf outpos (d_fout st)).

(** The loop; every iteration raises [inpos], so [insize] iterations
    are never all used. *)
Fixpoint dec_loop (fuel : nat) (marker insize outsize : Z) (st : dec_state)
    : result dec_state :=
  match fuel with
  | O => Ok st
  | S fuel' =>
    if (d_inpos st <? insize) && (d_outpos st <? outsize) then
      let* st' := dec_step marker st in
      dec_loop fuel' marker insize outsize st'
    else Ok st
  end.

(** The LZ77 branch of [BCL1_uncompress]: the contents of the output
    file, from the stream that follows the 16-byte header. *)
Definition lz77_uncompress (stream : list Z) (insize outsize : Z) : result (list Z) :=
  let* '(marker, stream) := read1 stream in
  let* st := dec_loop (Z.to_nat insize) marker insize outsize
               (DecState stream 1 [] 0 []) in
  Ok (d_fout st ++ d_outputbuf st).

Definition BCL1_magic : list Z := [0x42; 0x43; 0x4C; 0x31].

Definition supported_algorithm (Algorithm : Z) : bool :=
  negb (negb (Algorithm =? 0x09) && negb (Algorithm =? 0x0B) && negb (Algorithm =? 0x0C)).

(** Where the uncompressed data keeps a checksum of its own:
    [(needs_crc_fix, crc_offset)] from the first 0x500 bytes. *)
Definition crc_location (dataread : list Z) : bool * Z :=
  if len dataread >? 0x46D then
    if (byte_at dataread 0x6C =? 0xFF) && (byte_at dataread 0x6D =? 0xFF) &&
       (byte_at dataread 0x46C =? 0x55) && (byte_at dataread 0x46D =? 0xAA)
    then (true, 0x46E)
    else if (byte_at dataread 0x6C =? 0x55) && (byte_at dataread 0x6D =? 0xAA)
    then (true, 0x6E)
    else if (len dataread >? 0x16D) &&
            ((byte_at dataread 0x16C =? 0x55) && (byte_at dataread 0x16D =? 0xAA))
    then (true, 0x16E)
    else (false, 0)
  else (false, 0).

(** The padding test and the number of padding bytes for a payload of
    [n] bytes. *)
Definition pads (FW_HDR2 FW_HDR FW_BOOTLOADER part_id : Z) : bool :=
  (FW_HDR2 =? 1) || ((FW_HDR =? 1) && (part_id =? 0)) ||
  ((FW_HDR =? 0) && (FW_BOOTLOADER =? 0)).

Definition padding (FW_HDR2 FW_HDR FW_BOOTLOADER part_id n : Z) : Z :=
  if pads FW_HDR2 FW_HDR FW_BOOTLOADER part_id then
    let addsize := n mod 4 in
    if negb (addsize =? 0) then 4 - addsize else addsize
  else 0.

Section Codec.

(** The library compressors the script calls: [lzma.compress] with the
    ALONE format and the filter built from [lc], [lp], [pb] and the
    dictionary size, [zlib.compress], and the matching decompressors
    ([decompress_lzma], [zlib.decompress]). *)
Variable lzma_compress : Z -> Z -> Z -> Z -> list Z -> list Z.
Variable zlib_compress : list Z -> list Z.
Variable decompress_lzma : list Z -> result (list Z).
Variable zlib_decompress : list Z -> result (list Z).

(** [BCL1_uncompress(in_offset, out_filename)]: the contents written
    to the output file. *)
Definition BCL1_uncompress (in_file : list Z) (in_offset : Z) : result (list Z) :=
  if in_offset <? 0 then Raise else
  let FourCC := pread in_file in_offset 4 in
  if negb (bool_decide (FourCC = BCL1_magic)) then Exit 1 else
  let* Algorithm := unpack_be 2 (pread in_file (in_offset + 6) 2) in
  if negb (supported_algorithm Algorithm) then Exit 1 else
  let* outsize := unpack_be 4 (pread in_file (in_offset + 8) 4) in
  let* insize := unpack_be 4 (pread in_file (in_offset + 12) 4) in
  let in_offset := in_offset + 0x10 in
  let stream := drop (Z.to_nat in_offset) in_file in
  if Algorithm =? 0x09 then lz77_uncompress stream insize outsize
  else if Algorithm =? 0x0B then
    let dataread := take (Z.to_nat insize) stream in
    let* decompress := decompress_lzma dataread in
    Ok (take (Z.to_nat outsize) decompress)
  else
    let dataread := take (Z.to_nat insize) stream in
    zlib_decompress dataread.

(** The uncompressed data after the optional fix of its own checksum. *)
Definition prepare_dataread (in2_file : list Z) : result (list Z) :=
  let file_size := len in2_file in
  let header_chunk := pread in2_file 0 (Z.min 0x500 file_size) in
  let '(needs_crc_fix, crc_offset) := crc_location header_chunk in
  if needs_crc_fix then
    let dataread := in2_file in
    let* newCRC :=
      Checksum.MemCheck_CalcCheckSum16Bit in2_file 0 (len dataread) crc_offset in
    if len dataread <=? crc_offset + 1 then Raise else
    let dataread := <[Z.to_nat crc_offset := Z.land newCRC 0xFF]> dataread in
    let dataread :=
      <[Z.to_nat (crc_offset + 1) := Z.land (Z.shiftr newCRC 8) 0xFF]> dataread in
    Ok dataread
  else Ok in2_file.

(** The first twelve bytes of the new block: magic, checksum
    placeholder, algorithm, uncompressed size. *)
Definition block_header (Algorithm unpacked_part_size : Z) (dataread : list Z)
    : result (list Z) :=
  let* magic := pack_be 4 0x42434C31 in
  let* crc := pack_le 2 0x0000 in
  let* algo := pack_be 2 Algorithm in
  let* usize :=
    if unpacked_part_size >? len dataread
    then pack_be 4 unpacked_part_size
    else pack_be 4 (len dataread) in
  Ok (magic ++ crc ++ algo ++ usize).

(** [BCL1_compress(part_nr, in_offset, in2_file)]: the contents of the
    compressed file it leaves.  [start] is [part_startoffset[part_nr] +
    in_offset], [part_id] is [part_id[part_nr]]. *)
Definition BCL1_compress (FW_HDR2 FW_HDR FW_BOOTLOADER part_id : Z)
    (in_file : list Z) (start : Z) (in2_file : list Z) : result (list Z) :=
  if start <? 0 then Raise else
  let FourCC := pread in_file start 4 in
  if negb (bool_decide (FourCC = BCL1_magic)) then Exit 1 else
  let* Algorithm := unpack_be 2 (pread in_file (start + 6) 2) in
  if negb (supported_algorithm Algorithm) then Exit 1 else
  let* unpacked_part_size := unpack_be 4 (pread in_file (start + 8) 4) in
  let* '(LZMA_Properties, LZMA_DictionarySize) :=
    if Algorithm =? 0x0B then
      let* props := unpack_le 1 (pread in_file (start + 0x10) 1) in
      let* dict := unpack_le 4 (pread in_file (start + 0x11) 4) in
      let* low := unpack_le 4 (pread in_file (start + 0x15) 4) in
      let* high := unpack_le 4 (pread in_file (start + 0x19) 4) in
      Ok (props, dict)
    else Ok (0, 0) in
  let* dataread := prepare_dataread in2_file in
  let* hdr := block_header Algorithm unpacked_part_size dataread in
  let* out :=
    if Algorithm =? 0x09 then
      let payload := lz77_payload dataread in
      let outpos := len payload in
      let addsize := padding FW_HDR2 FW_HDR FW_BOOTLOADER part_id outpos in
      let* placeholder := pack_be 4 0 in
      let out := hdr ++ placeholder ++ payload ++ replicate (Z.to_nat addsize) 0 in
      let* psize := pack_be 4 (outpos + addsize) in
      Ok (pwrite out 12 psize)
    else
      let compressed_data :=
        if Algorithm =? 0x0B then
          let lc := LZMA_Properties mod 9 in
          let LZMA_Properties := LZMA_Properties / 9 in
          let pb := LZMA_Properties / 5 in
          let lp := LZMA_Properties mod 5 in
          let LZMA_DictionarySize :=
            if LZMA_DictionarySize <? Z.shiftl 1 12 then Z.shiftl 1 12
            else LZMA_DictionarySize in
          lzma_compress lc lp pb LZMA_DictionarySize dataread
        else zlib_compress dataread in
      let addsize :=
        padding FW_HDR2 FW_HDR FW_BOOTLOADER part_id (len compressed_data) in
      let* psize := pack_be 4 (len compressed_data + addsize) in
      Ok (hdr ++ psize ++ compressed_data ++ replicate (Z.to_nat addsize) 0) in
  if FW_BOOTLOADER =? 0 then
    let* newCRC := Checksum.MemCheck_CalcCheckSum16Bit out 0 (len out - 16 + 16) 0x4 in
    let* crc := pack_le 2 newCRC in
    Ok (pwrite out 4 crc)
  else Ok out.

(** The payload [BCL1_compress] produces for [dataread], by algorithm;
    [props] and [dict] are the LZMA properties byte and dictionary size
    of the block being replaced. *)
Definition compress_payload (Algorithm props dict : Z) (dataread : list Z) : list Z :=
  if Algorithm =? 0x09 then lz77_payload dataread
  else if Algorithm =? 0x0B then
    lzma_compress (props mod 9) (props / 9 mod 5) (props / 9 / 5)
      (if dict <? Z.shiftl 1 12 then Z.shiftl 1 12 else dict) dataread
  else zlib_compress dataread.

End Codec.

(** Stand-ins for the library codecs in examples that only exercise
    the LZ77 branch. *)
Definition no_lzma (_ _ _ _ : Z) (_ : list Z) : list Z := [].
Definition no_zlib (_ : list Z) : list Z := [].
Definition no_decompress (_ : list Z) : result (list Z) := Raise.

(** A 20-byte BCL1 block: algorithm 0x09, uncompressed size 3, packed
    size 4. *)
Definition sample_block : list Z :=
  [0x42; 0x43; 0x4C; 0x31; 0; 0; 0; 9; 0; 0; 0; 3; 0; 0; 0; 4; 0; 7; 7; 7].


End BCL1.

(** ** Layout manager *)

Module Layout.

(** What the tests on [part_type[a]] distinguish: the string is built
    by [GetPartitionInfo] and later compared with ['uboot'] and with
    the prefixes of the MODELEXT, CKSM and BCL1 tags. *)
Inductive kind : Type :=
  | Kdtb | Katf | Kuboot | KuImage | Ksparse | Kbcl1 | Kubi | Kcksm
  | Kmodelext | Kunknown.

Global Instance kind_eq_dec : EqDecision kind.
Proof. solve_decision. Defined.

(** The module-level variables of the script and the contents of the
    firmware file [in_file]. *)
Record fw : Type := Fw {
  FW_HDR2 : Z;
  FW_HDR : Z;
  FW_BOOTLOADER : Z;
  partitions_count : Z;
  part_startoffset : list Z;
  part_size : list Z;
  part_id : list Z;
  part_type : list kind;
  part_crc : list Z;
  part_crcCalc : list Z;
  NVTPACK_FW_HDR2_size : Z;
  NVTPACK_FW_HDR_AND_PARTITIONS_size : Z;
  total_file_size : Z;
  orig_file_size : Z;
  checksum_value : Z;
  dtbpart_name : list (list Z);
  in_file : list Z
}.

Definition set_in_file (s : fw) (f : list Z) : fw :=
  Fw (FW_HDR2 s) (FW_HDR s) (FW_BOOTLOADER s) (partitions_count s)
     (part_startoffset s) (part_size s) (part_id s) (part_type s)
     (part_crc s) (part_crcCalc s) (NVTPACK_FW_HDR2_size s)
     (NVTPACK_FW_HDR_AND_PARTITIONS_size s) (total_file_size s)
     (orig_file_size s) (checksum_value s) (dtbpart_name s) f.

Definition set_part_size (s : fw) (l : list Z) : fw :=
  Fw (FW_HDR2 s) (FW_HDR s) (FW_BOOTLOADER s) (partitions_count s)
     (part_startoffset s) l (part_id s) (part_type s)
     (part_crc s) (part_crcCalc s) (NVTPACK_FW_HDR2_size s)
     (NVTPACK_FW_HDR_AND_PARTITIONS_size s) (total_file_size s)
     (orig_file_size s) (checksum_value s) (dtbpart_name s) (in_file s).

Definition set_part_startoffset (s : fw) (l : list Z) : fw :=
  Fw (FW_HDR2 s) (FW_HDR s) (FW_BOOTLOADER s) (partitions_count s)
     l (part_size s) (part_id s) (part_type s)
     (part_crc s) (part_crcCalc s) (NVTPACK_FW_HDR2_size s)
     (NVTPACK_FW_HDR_AND_PARTITIONS_size s) (total_file_size s)
     (orig_file_size s) (checksum_value s) (dtbpart_name s) (in_file s).

Definition set_total_file_size (s : fw) (n : Z) : fw :=
  Fw (FW_HDR2 s) (FW_HDR s) (FW_BOOTLOADER s) (partitions_count s)
     (part_startoffset s) (part_size s) (part_id s) (part_type s)
     (part_crc s) (part_crcCalc s) (NVTPACK_FW_HDR2_size s)
     (NVTPACK_FW_HDR_AND_PARTITIONS_size s) n
     (orig_file_size s) (checksum_value s) (dtbpart_name s) (in_file s).

(** [a[i]] on a list or an [array.array('I')], for [0 <= i]:
    [IndexError] past the end. *)
Definition item {A} (l : list A) (i : Z) : result A :=
  if i <? 0 then Raise else
  match l !! Z.to_nat i with
  | Some x => Ok x
  | None => Raise
  end.

(** [a[i] = v] on an [array.array('I')]: [IndexError] past the end,
    [OverflowError] when [v] is not an unsigned 32-bit value. *)
Definition set_item (l : list Z) (i v : Z) : result (list Z) :=
  if (i <? 0) || (len l <=? i) then Raise
  else if (v <? 0) || (2 ^ 32 <=? v) then Raise
  else Ok (<[Z.to_nat i := v]> l).

(** [fin.seek(off, 0); fin.write(bs)]; a negative offset is an error. *)
Definition seek_write (f : list Z) (off : Z) (bs : list Z) : result (list Z) :=
  if off <? 0 then Raise else Ok (pwrite f off bs).

(** [for a in range(partitions_count): if part_id[a] == wanted:
    part_nr = a; break], from [a] on; [-1] when no entry matches. *)
Fixpoint find_part (n : nat) (ids : list Z) (wanted a : Z) : result Z :=
  match n with
  | O => Ok (-1)
  | S n' =>
    let* id := item ids a in
    if id =? wanted then Ok a else find_part n' ids wanted (a + 1)
  end.

Definition find_part_nr (s : fw) (wanted : Z) : result Z :=
  find_part (Z.to_nat (partitions_count s)) (part_id s) wanted 0.

(** [while True: chunk = freplace.read(CHUNK_SIZE); if not chunk:
    break; fin.write(chunk)], the file position being [pos]. *)
Fixpoint write_chunks (fuel : nat) (freplace f : list Z) (pos : Z) : list Z :=
  match fuel with
  | O => f
  | S fuel' =>
    let chunk := take (Z.to_nat Checksum.CHUNK_SIZE) freplace in
    match chunk with
    | [] => f
    | _ => write_chunks fuel' (drop (length chunk) freplace)
             (pwrite f pos chunk) (pos + len chunk)
    end
  end.

(** [newalignsize] and [newsize]. *)
Definition align_sizes (replace_len is_replace_offset : Z) : Z * Z :=
  let newalignsize := 4 - (replace_len + is_replace_offset) mod 4 in
  let newalignsize := if newalignsize =? 4 then 0 else newalignsize in
  (newalignsize, replace_len + is_replace_offset + newalignsize).

(** [sizediff]. *)
Definition size_diff (s : fw) (part_nr newsize : Z) : result Z :=
  if part_nr + 1 <? partitions_count s then
    let* next := item (part_startoffset s) (part_nr + 1) in
    let* this := item (part_startoffset s) part_nr in
    Ok (newsize - (next - this))
  else
    let* size := item (part_size s) part_nr in
    Ok (newsize - size).

(** [while (a < partitions_count): fin.write(struct.pack('<I',
    part_startoffset[a] + delta)); part_startoffset[a] += delta;
    fin.seek(8, 1); a += 1], the file position being [pos]. *)
Fixpoint shift_entries (fuel : nat) (count a delta pos : Z)
    (starts f : list Z) : result (list Z * list Z) :=
  match fuel with
  | O => Ok (starts, f)
  | S fuel' =>
    if a <? count then
      let* old := item starts a in
      let* bs := pack_le 4 (old + delta) in
      let* f := seek_write f pos bs in
      let* starts := set_item starts a (old + delta) in
      shift_entries fuel' count (a + 1) delta (pos + 12) starts f
    else Ok (starts, f)
  end.

(** The bytes after the partition: [fin.seek(from, 0); fin.read()]. *)
Definition read_to_end (f : list Z) (from : Z) : result (list Z) :=
  if from <? 0 then Raise else Ok (drop (Z.to_nat from) f).

(** [fin.seek(pos, 0); fin.write(replacedata); newalignsize zero
    bytes; fin.write(enddata) if there is a next partition;
    fin.truncate()]. *)
Definition write_body (f : list Z) (pos : Z) (replacedata : list Z)
    (newalignsize : Z) (enddata : option (list Z)) : result (list Z) :=
  if pos <? 0 then Raise else
  let body := replacedata ++ replicate (Z.to_nat newalignsize) 0
                ++ default [] enddata in
  let f := pwrite f pos body in
  Ok (truncate f (pos + len body)).

(** The update of a CKSM header after the move:
    [if part_type[part_nr][:13] == CKSM tag]. *)
Definition fix_cksm_size (s : fw) (part_nr value : Z) (f : list Z) : result (list Z) :=
  let* t := item (part_type s) part_nr in
  if bool_decide (t = Kcksm) then
    let* start := item (part_startoffset s) part_nr in
    let* bs := pack_le 4 value in
    seek_write f (start + 0x14) bs
  else Ok f.

(** [partition_replace(is_replace, is_replace_offset,
    is_replace_file)]; the replacement file is given by its contents,
    [None] when it does not exist. *)
Definition partition_replace (s : fw) (is_replace is_replace_offset : Z)
    (is_replace_file : option (list Z)) : result fw :=
  let* part_nr := find_part_nr s is_replace in
  if part_nr =? -1 then Ok s else
  match is_replace_file with
  | None => Exit 0
  | Some replacedata =>
    let replace_size := len replacedata in
    let* size := item (part_size s) part_nr in
    let* start := item (part_startoffset s) part_nr in
    if replace_size + is_replace_offset =? size then
      if start + is_replace_offset <? 0 then Raise else
      Ok (set_in_file s
            (write_chunks (S (length replacedata)) replacedata (in_file s)
               (start + is_replace_offset)))
    else
      let '(newalignsize, newsize) := align_sizes (len replacedata) is_replace_offset in
      if FW_HDR2 s =? 1 then
        let* enddata :=
          if part_nr + 1 <? partitions_count s then
            let* next := item (part_startoffset s) (part_nr + 1) in
            let* e := read_to_end (in_file s) next in Ok (Some e)
          else Ok None in
        let pos := NVTPACK_FW_HDR2_size s + part_nr * 12 + 4 in
        let* sizediff := size_diff s part_nr newsize in
        let* bs := pack_le 4 (newsize - newalignsize) in
        let* f := seek_write (in_file s) pos bs in
        let* sizes := set_item (part_size s) part_nr (newsize - newalignsize) in
        let* '(starts, f) :=
          shift_entries (Z.to_nat (partitions_count s)) (partitions_count s)
            (part_nr + 1) sizediff (pos + 8) (part_startoffset s) f in
        let* f := write_body f (start + is_replace_offset) replacedata
                    newalignsize enddata in
        let filesize := len f in
        let* bs := pack_le 4 filesize in
        let* f := seek_write f 28 bs in
        let s := set_total_file_size
                   (set_part_startoffset (set_part_size s sizes) starts) filesize in
        let* f := fix_cksm_size s part_nr (newsize - is_replace_offset) f in
        Ok (set_in_file s f)
      else if (FW_HDR s =? 1) || ((FW_HDR s =? 0) && (partitions_count s =? 1)) then
        let* id := item (part_id s) part_nr in
        let* size0 := item (part_size s) 0 in
        if negb (id =? 0) then
          let* enddata :=
            if part_nr + 1 <? partitions_count s then
              let* next := item (part_startoffset s) (part_nr + 1) in
              let* e := read_to_end (in_file s) next in Ok (Some e)
            else Ok None in
          let pos := size0 + 28 + (part_nr - 1) * 12 + 4 in
          let* sizediff := size_diff s part_nr newsize in
          let* bs := pack_le 4 (newsize - newalignsize) in
          let* f := seek_write (in_file s) pos bs in
          let* sizes := set_item (part_size s) part_nr (newsize - newalignsize) in
          let* '(starts, f) :=
            shift_entries (Z.to_nat (partitions_count s)) (partitions_count s)
              (part_nr + 1) sizediff (pos + 8) (part_startoffset s) f in
          let* f := write_body f (start + is_replace_offset) replacedata
                      newalignsize enddata in
          let filesize := len f in
          let s := set_part_startoffset (set_part_size s sizes) starts in
          let s := if FW_BOOTLOADER s =? 0 then set_total_file_size s filesize else s in
          let* f := fix_cksm_size s part_nr (newsize - is_replace_offset) f in
          Ok (set_in_file s f)
        else
          let pos := size0 + 28 in
          let* sizediff := size_diff s part_nr newsize in
          let* '(starts, f) :=
            shift_entries (Z.to_nat (partitions_count s)) (partitions_count s)
              1 (sizediff + 28 + (partitions_count s - 1) * 12) pos
              (part_startoffset s) (in_file s) in
          let* enddata :=
            if part_nr + 1 <? partitions_count s then
              let* e := read_to_end f size0 in Ok (Some e)
            else Ok None in
          let* start := item starts part_nr in
          let* f := write_body f (start + is_replace_offset) replacedata
                      newalignsize enddata in
          let* sizes := set_item (part_size s) part_nr (newsize - newalignsize) in
          let filesize := len f in
          let s := set_total_file_size
                     (set_part_startoffset (set_part_size s sizes) starts) filesize in
          let* f := fix_cksm_size s part_nr (newsize - is_replace_offset) f in
          Ok (set_in_file s f)
      else Exit 0
  end.

(** [while bytes_remaining > 0: chunk = fin.read(min(CHUNK_SIZE,
    bytes_remaining)); if not chunk: break; fpartout.write(chunk);
    bytes_remaining -= len(chunk)]: [stream] is the input after the read
    position, [out] what has been written.  Every iteration reads at
    least one byte, which is what [fuel] counts. *)
Fixpoint copy_chunks (fuel : nat) (stream : list Z) (bytes_remaining : Z)
    (out : list Z) : list Z :=
  match fuel with
  | O => out
  | S fuel' =>
    if bytes_remaining >? 0 then
      let chunk_size := Z.min Checksum.CHUNK_SIZE bytes_remaining in
      let chunk := take (Z.to_nat chunk_size) stream in
      match chunk with
      | [] => out
      | _ => copy_chunks fuel' (drop (length chunk) stream)
               (bytes_remaining - len chunk) (out ++ chunk)
      end
    else out
  end.

(** [partition_extract(is_extract, is_extract_offset)]: the contents of
    the file it writes, [None] when no partition has the id (nothing is
    written then).  An offset of [-1] stands for no offset. *)
Definition partition_extract (s : fw) (is_extract is_extract_offset : Z)
    : result (option (list Z)) :=
  let* part_nr := find_part_nr s is_extract in
  if negb (part_nr =? -1) then
    let is_extract_offset :=
      if negb (is_extract_offset =? -1) then is_extract_offset else 0 in
    let* start := item (part_startoffset s) part_nr in
    if start + is_extract_offset <? 0 then Raise else
    let* size := item (part_size s) part_nr in
    let stream := drop (Z.to_nat (start + is_extract_offset)) (in_file s) in
    Ok (Some (copy_chunks (S (length stream)) stream (size - is_extract_offset) []))
  else Ok None.

End Layout.

(** ** Partition classifier and container parser *)

Module Parser.
Import Layout.

(** [struct.unpack(fmt, fin.read(n))] after [fin.seek(off, 0)]. *)
Definition rd_be (f : list Z) (off : Z) (n : nat) : result Z :=
  if off <? 0 then Raise else unpack_be n (pread f off (Z.of_nat n)).

Definition rd_le (f : list Z) (off : Z) (n : nat) : result Z :=
  if off <? 0 then Raise else unpack_le n (pread f off (Z.of_nat n)).

(** [struct.unpack('%ds' % n, fin.read(n))]: the bytes, [struct.error]
    when [n] is negative or the file is too short. *)
Definition rd_bytes (f : list Z) (off n : Z) : result (list Z) :=
  if (off <? 0) || (n <? 0) then Raise else
  let bs := pread f off n in
  if len bs =? n then Ok bs else Raise.

(** Length of the NUL-terminated string at [off]: [t = read byte;
    while t != 0: id_length += 1; t = read byte]. *)
Fixpoint cstring_length (stream : list Z) (id_length : Z) : result Z :=
  match stream with
  | [] => Raise
  | t :: rest => if negb (t =? 0) then cstring_length rest (id_length + 1) else Ok id_length
  end.

(** [haystack.find(needle)]. *)
Fixpoint is_prefix (needle hay : list Z) : bool :=
  match needle, hay with
  | [], _ => true
  | _ :: _, [] => false
  | a :: n', b :: h' => (a =? b) && is_prefix n' h'
  end.

Fixpoint bytes_find (needle hay : list Z) (i : Z) : Z :=
  if is_prefix needle hay then i else
  match hay with
  | [] => -1
  | _ :: h' => bytes_find needle h' (i + 1)
  end.

(** [b'NVTPACK_FW_INI_16072017']. *)
Definition NVTPACK_marker : list Z :=
  [78; 86; 84; 80; 65; 67; 75; 95; 70; 87; 95; 73; 78; 73; 95;
   49; 54; 48; 55; 50; 48; 49; 55].

Definition name_atf : list Z := [97; 116; 102].
Definition name_uboot : list Z := [117; 98; 111; 111; 116].
Definition name_MODELEXT : list Z := [77; 79; 68; 69; 76; 69; 88; 84].

(** A length-prefixed name of the table: [lengthname], the name of
    [lengthname - 1] bytes and its padding; returns the name and the
    position after it. *)
Definition read_name (f : list Z) (pos : Z) : result (list Z * Z) :=
  let pos := pos + 4 in
  let* lengthname := rd_be f pos 4 in
  let pos := pos + 4 + 4 in
  let* shortname := rd_bytes f pos (lengthname - 1) in
  let pos := pos + (lengthname - 1) in
  let pos := if lengthname >? 1 then pos + (4 - (lengthname - 1) mod 4) else pos + 4 in
  Ok (shortname, pos).

(** The loop of [fillIDPartNames]: the names it appends to
    [dtbpart_name].  [pos] is the position after the word [starting]. *)
Fixpoint fill_names (fuel : nat) (f : list Z) (starting pos : Z) : result (list (list Z)) :=
  match fuel with
  | O => Raise
  | S fuel' =>
    if starting =? 0x00000001 then
      let* id_length := cstring_length (drop (Z.to_nat pos) f) 0 in
      let* idname := rd_bytes f pos id_length in
      let pos := pos + id_length + (4 - id_length mod 4) in
      let* '(shortname, pos) := read_name f pos in
      let* '(filename, pos) := read_name f pos in
      let pos := pos + 4 in
      let* starting := rd_be f pos 4 in
      let* rest := fill_names fuel' f starting (pos + 4) in
      Ok (shortname :: rest)
    else Ok []
  end.

Definition fillIDPartNames (f : list Z) (startat : Z) : result (list (list Z)) :=
  let* starting := rd_be f (startat + 0x34) 4 in
  fill_names (S (length f)) f starting (startat + 0x34 + 4).

(** [len(dtbpart_name) != 0 and dtbpart_name[partID] == name]. *)
Definition has_name (dtbpart_name : list (list Z)) (partID : Z) (name : list Z)
    : result bool :=
  match dtbpart_name with
  | [] => Ok false
  | _ => let* n := item dtbpart_name partID in Ok (bool_decide (n = name))
  end.

(** The multi-file table of a uImage: [while temp != 0: temp = read
    word]. *)
Fixpoint multi_file_loop (fuel : nat) (f : list Z) (temp pos : Z) : result unit :=
  match fuel with
  | O => Raise
  | S fuel' =>
    if negb (temp =? 0) then
      let* temp := rd_be f pos 4 in multi_file_loop fuel' f temp (pos + 4)
    else Ok tt
  end.

(** The reads of the uImage branch; only their failure matters. *)
Definition uImage_reads (f : list Z) (start_offset : Z) : result unit :=
  let* os := rd_be f (start_offset + 28) 1 in
  let* arch := rd_be f (start_offset + 29) 1 in
  let* imagetype := rd_be f (start_offset + 30) 1 in
  let* _ :=
    if imagetype =? 4 then
      let* temp := rd_be f (start_offset + 64) 4 in
      multi_file_loop (S (length f)) f temp (start_offset + 68)
    else Ok tt in
  let* comp := rd_be f (start_offset + 31) 1 in
  let* created := rd_be f (start_offset + 8) 4 in
  let* size := rd_be f (start_offset + 12) 4 in
  Ok tt.

(** [GetPartitionInfo(start_offset, part_size, partID, addinfo)].  It
    returns the kind (the script returns the type string, empty for an
    unknown kind), the stored checksum it appends to [part_crc], the
    computed [CRC], and [dtbpart_name] with the names a device tree
    adds.  The recursion is the call on the contents of a CKSM
    wrapper, 0x40 bytes further. *)
Fixpoint GetPartitionInfo (fuel : nat) (FW_BOOTLOADER : Z) (dtbpart_name : list (list Z))
    (f : list Z) (start_offset part_size partID : Z) (addinfo : bool)
    : result (kind * Z * Z * list (list Z)) :=
  match fuel with
  | O => Raise
  | S fuel' =>
    let* partfirst4bytes := rd_be f start_offset 4 in
    if partfirst4bytes =? 0xD00DFEED then
      if addinfo then
        let dtb_header := pread f start_offset (Z.min part_size 4096) in
        let startat := bytes_find NVTPACK_marker dtb_header 0 in
        if negb (startat =? -1) then
          let* names := fillIDPartNames f (start_offset + startat) in
          Ok (Kdtb, 0, 0, dtbpart_name ++ names)
        else Ok (Kdtb, 0, 0, dtbpart_name)
      else Ok (Kdtb, 0, 0, dtbpart_name)
    else
    let* atf := has_name dtbpart_name partID name_atf in
    if atf then Ok (Katf, 0, 0, dtbpart_name) else
    let* uboot := has_name dtbpart_name partID name_uboot in
    if uboot then
      let* CRC := Checksum.MemCheck_CalcCheckSum16Bit f start_offset part_size 0x36E in
      let* stored := if addinfo then rd_le f (start_offset + 0x36E) 2 else Ok 0 in
      Ok (Kuboot, stored, CRC, dtbpart_name)
    else
    if partfirst4bytes =? 0x27051956 then
      let* _ := uImage_reads f start_offset in
      Ok (KuImage, 0, 0, dtbpart_name)
    else if partfirst4bytes =? 0x3AFF26ED then Ok (Ksparse, 0, 0, dtbpart_name)
    else if partfirst4bytes =? 0x42434C31 then
      let* uiChkValue := rd_le f (start_offset + 4) 2 in
      let* compressAlgo := rd_be f (start_offset + 6) 2 in
      let* BCL1unpackedSize := rd_be f (start_offset + 8) 4 in
      let* BCL1packedSize := rd_be f (start_offset + 12) 4 in
      let* CRC := Checksum.MemCheck_CalcCheckSum16Bit f start_offset
                    (BCL1packedSize + 0x10) 0x4 in
      let CRC := if FW_BOOTLOADER =? 1 then 0 else CRC in
      Ok (Kbcl1, uiChkValue, CRC, dtbpart_name)
    else if partfirst4bytes =? 0x55424923 then
      let* id_length := cstring_length (drop (Z.to_nat (start_offset + 4 + 0x100C)) f) 0 in
      Ok (Kubi, 0, 0, dtbpart_name)
    else
    let* cksm :=
      if partfirst4bytes =? 0x434B534D then
        let* version := rd_be f (start_offset + 4) 4 in
        Ok (Some (version =? 0x19070416))
      else Ok None in
    match cksm with
    | Some true =>
      let* uiChkMethod := rd_le f (start_offset + 8) 4 in
      let* uiChkValue := rd_le f (start_offset + 12) 4 in
      let* uiDataOffset := rd_le f (start_offset + 16) 4 in
      let* uiDataSize := rd_le f (start_offset + 20) 4 in
      let* uiPaddingSize := rd_le f (start_offset + 24) 4 in
      let* uiEmbType := rd_le f (start_offset + 28) 4 in
      let* deep := GetPartitionInfo fuel' FW_BOOTLOADER dtbpart_name f
                     (start_offset + 0x40) 0 0 false in
      let* CRC := Checksum.MemCheck_CalcCheckSum16Bit f start_offset
                    (uiDataOffset + uiDataSize + uiPaddingSize) 0xC in
      Ok (Kcksm, uiChkValue, CRC, dtbpart_name)
    | _ =>
      (* the MODELEXT header is read from the current position: 4 bytes
         after the start, or 8 after a CKSM tag with another version *)
      let pos := match cksm with Some _ => start_offset + 8 | None => start_offset + 4 end in
      let* MODELEXT_TYPE := rd_le f pos 4 in
      let* MODELEXT_NUMBER := rd_le f (pos + 4) 4 in
      let* MODELEXT_VERSION := rd_le f (pos + 8) 4 in
      let* is_modelext :=
        if (MODELEXT_TYPE =? 1) && (MODELEXT_VERSION =? 0x16072219) then
          let* tag := rd_bytes f (pos + 12) 8 in
          Ok (bool_decide (tag = name_MODELEXT))
        else Ok false in
      if is_modelext then
        let* chip := rd_bytes f (pos + 20) 8 in
        let* build := rd_bytes f (pos + 36) 8 in
        let* ext_bin_length := rd_le f (pos + 44) 4 in
        let* uiChkValue := rd_le f (pos + 50) 2 in
        let* CRC := Checksum.MemCheck_CalcCheckSum16Bit f start_offset
                      ext_bin_length 0x36 in
        Ok (Kmodelext, uiChkValue, CRC, dtbpart_name)
      else Ok (Kunknown, 0, 0, dtbpart_name)
    end
  end.

(** [b[i:j]]. *)
Definition slice (b : list Z) (i j : nat) : list Z := take (j - i) (drop i b).

(** The nested tests on a 16-byte GUID: a 32-bit and two 16-bit
    little-endian fields, then big-endian fields of 16, 32 and 16
    bits.  Each field is unpacked only when the fields before it
    matched. *)
Definition guid_check (b : list Z) (d1 d2 d3 d4 d5 d6 : Z) : result bool :=
  let* v := unpack_le 4 (slice b 0 4) in
  if negb (v =? d1) then Ok false else
  let* v := unpack_le 2 (slice b 4 6) in
  if negb (v =? d2) then Ok false else
  let* v := unpack_le 2 (slice b 6 8) in
  if negb (v =? d3) then Ok false else
  let* v := unpack_be 2 (slice b 8 10) in
  if negb (v =? d4) then Ok false else
  let* v := unpack_be 4 (slice b 10 14) in
  if negb (v =? d5) then Ok false else
  let* v := unpack_be 2 (slice b 14 16) in
  Ok (v =? d6).

(** [array.append(v)] on an [array.array('I')]: [OverflowError]
    unless [v] is an unsigned 32-bit value. *)
Definition append_u32 (l : list Z) (v : Z) : result (list Z) :=
  if (v <? 0) || (2 ^ 32 <=? v) then Raise else Ok (l ++ [v]).

(** The loop reading table entries [a = from, ..., count - 1], twelve
    bytes each, from position [pos]; it extends the three arrays. *)
Fixpoint read_table (n : nat) (f : list Z) (pos : Z)
    (starts sizes ids : list Z) : result (list Z * list Z * list Z) :=
  match n with
  | O => Ok (starts, sizes, ids)
  | S n' =>
    let part_data := pread f pos 12 in
    let* start := unpack_le 4 (slice part_data 0 4) in
    let* starts := append_u32 starts start in
    let* size := unpack_le 4 (slice part_data 4 8) in
    let* sizes := append_u32 sizes size in
    let* id := unpack_le 4 (slice part_data 8 12) in
    let* ids := append_u32 ids id in
    let* endoffsets := append_u32 [] (start + size) in
    read_table n' f (pos + 12) starts sizes ids
  end.

(** [for a in range(partitions_count): GetPartitionInfo(
    part_startoffset[a], part_size[a], part_id[a])], from [a] on; the
    state carries [part_type], [part_crc], [part_crcCalc] and
    [dtbpart_name]. *)
Fixpoint classify_all (n : nat) (FW_BOOTLOADER : Z) (f : list Z)
    (starts sizes ids : list Z) (a : Z)
    (acc : list kind * list Z * list Z * list (list Z))
    : result (list kind * list Z * list Z * list (list Z)) :=
  match n with
  | O => Ok acc
  | S n' =>
    let '(types, crcs, calcs, names) := acc in
    let* start := item starts a in
    let* size := item sizes a in
    let* id := item ids a in
    let* '(k, crc, calc, names) :=
      GetPartitionInfo (S (length f)) FW_BOOTLOADER names f start size id true in
    let* crcs := append_u32 crcs crc in
    let* calcs := append_u32 calcs calc in
    classify_all n' FW_BOOTLOADER f starts sizes ids (a + 1)
      (types ++ [k], crcs, calcs, names)
  end.

(** The part of [main] that recognises the container and builds the
    partition table, up to the dispatch on the requested operation. *)
Definition main_parse (f : list Z) : result fw :=
  let header := pread f 0 256 in
  let* hdr2 := guid_check header 0xD6012E07 0x10BC 0x4F91 0xB28A 0x352F8226 0x1A50 in
  if hdr2 then
    let hdr2_data := pread f 16 20 in
    let* version := unpack_le 4 (slice hdr2_data 0 4) in
    if negb (version =? 0x16071515) then Exit 0 else
    let* NVTPACK_FW_HDR2_size := unpack_le 4 (slice hdr2_data 4 8) in
    let* partitions_count := unpack_le 4 (slice hdr2_data 8 12) in
    let* total_file_size := unpack_le 4 (slice hdr2_data 12 16) in
    let* checksum_method := unpack_le 4 (slice hdr2_data 16 20) in
    let* checksum_value := rd_le f 32 4 in
    let* '(starts, sizes, ids) :=
      read_table (Z.to_nat partitions_count) f NVTPACK_FW_HDR2_size [] [] [] in
    let* '(types, crcs, calcs, names) :=
      classify_all (Z.to_nat partitions_count) 0 f starts sizes ids 0 ([], [], [], []) in
    Ok (Fw 1 0 0 partitions_count starts sizes ids types crcs calcs
           NVTPACK_FW_HDR2_size 0 total_file_size total_file_size checksum_value
           names f)
  else
    let* magic := unpack_be 4 (slice header 0 4) in
    if magic =? 0x42434C31 then
      let* packed := rd_be f 0xC 4 in
      let* sizes := append_u32 [] (packed + 0x10) in
      let size0 := packed + 0x10 in
      let* endoffsets := append_u32 [] (0 + size0) in
      let* FW_HDR :=
        if size0 + 0x10 <? len f then
          let hdr_check := pread f size0 16 in
          guid_check hdr_check 0x8827BE90 0x36CD 0x4FC2 0xA987 0x73A8484E 0x84B1
        else Ok false in
      if negb FW_HDR then
        let* '(types, crcs, calcs, names) :=
          classify_all 1 0 f [0] sizes [0] 0 ([], [], [], []) in
        Ok (Fw 0 0 0 1 [0] sizes [0] types crcs calcs 0 0 0 0 0 names f)
      else
        let hdr_data := pread f (size0 + 0x10) 12 in
        let* table_size := unpack_le 4 (slice hdr_data 0 4) in
        let* checksum_value := unpack_le 4 (slice hdr_data 4 8) in
        let* count1 := unpack_le 4 (slice hdr_data 8 12) in
        let partitions_count := count1 + 1 in
        let total_file_size := len f in
        let* '(starts, sizes, ids) :=
          read_table (Z.to_nat (partitions_count - 1)) f (size0 + 0x1C) [0] sizes [0] in
        let* '(types, crcs, calcs, names) :=
          classify_all (Z.to_nat partitions_count) 0 f starts sizes ids 0
            ([], [], [], []) in
        Ok (Fw 0 1 0 partitions_count starts sizes ids types crcs calcs
               0 table_size total_file_size total_file_size checksum_value names f)
    else
      let* first2bytes := unpack_be 2 (slice header 0 2) in
      if first2bytes =? 0x2800 then
        let boot_hdr := pread f 2 30 in
        let* read1 := unpack_be 2 (slice boot_hdr 0 2) in
        let* read2 := unpack_be 2 (slice boot_hdr 4 6) in
        let* BCL1_offset := unpack_le 4 (slice boot_hdr 6 10) in
        let* constant := unpack_be 4 (slice boot_hdr 10 14) in
        let* read3 := unpack_be 2 (slice boot_hdr 16 18) in
        let* read55AA := rd_be f 0x30 2 in
        if (read1 =? read2) && (read1 =? read3) && (constant =? 0x000580E0)
           && (read55AA =? 0x55AA) then
          let* packed := rd_be f (BCL1_offset + 0xC) 4 in
          let* sizes := append_u32 [] (packed + 0x10) in
          let* endoffsets := append_u32 [] (BCL1_offset + (packed + 0x10)) in
          let* orig_file_size := rd_le f 0x24 4 in
          let total_file_size := len f in
          let* checksum_value := rd_le f 0x32 2 in
          let* '(types, crcs, calcs, names) :=
            classify_all 1 1 f [BCL1_offset] [0] [0] 0 ([], [], [], []) in
          let partitions_count :=
            match types with
            | [Kunknown] => 0
            | _ => 1
            end in
          Ok (Fw 0 0 1 partitions_count [BCL1_offset] sizes [0] types crcs calcs
                 0 0 total_file_size orig_file_size checksum_value names f)
        else Exit 0
      else Exit 0.

(** The writes of one iteration of the repair loop of [main], for the
    kind of partition [a]. *)
Definition fix_partition (FW_BOOTLOADER : Z) (f : list Z) (start : Z) (k : kind)
    (calc : Z) : result (list Z) :=
  match k with
  | Kuboot => let* bs := pack_le 2 calc in seek_write f (start + 0x36E) bs
  | Kmodelext => let* bs := pack_le 2 calc in seek_write f (start + 0x36) bs
  | Kcksm => let* bs := pack_le 4 calc in seek_write f (start + 0xC) bs
  | Kbcl1 =>
    if FW_BOOTLOADER =? 0 then
      let* bs := pack_le 2 calc in seek_write f (start + 0x4) bs
    else Ok f
  | _ => Ok f
  end.

(** [for a in range(partitions_count): if part_crc[a] !=
    part_crcCalc[a]: ...], from [a] on. *)
Fixpoint fix_partitions (n : nat) (s : fw) (a : Z) (f : list Z) : result (list Z) :=
  match n with
  | O => Ok f
  | S n' =>
    let* crc := item (part_crc s) a in
    let* calc := item (part_crcCalc s) a in
    let* f :=
      if negb (crc =? calc) then
        let* k := item (part_type s) a in
        let* start := item (part_startoffset s) a in
        fix_partition (FW_BOOTLOADER s) f start k calc
      else Ok f in
    fix_partitions n' s (a + 1) f
  end.

(** The repair of the checksum of the whole file, or of the HDR
    table, or of the bootloader. *)
Definition fix_file_crc (s : fw) (f : list Z) : result (list Z) :=
  if FW_HDR2 s =? 1 then
    let* CRC_FW := Checksum.MemCheck_CalcCheckSum16Bit f 0 (total_file_size s) 0x24 in
    if checksum_value s =? CRC_FW then Ok f
    else let* bs := pack_le 4 CRC_FW in seek_write f 0x24 bs
  else if FW_HDR s =? 1 then
    let* size0 := item (part_size s) 0 in
    let* CRC_FW := Checksum.MemCheck_CalcCheckSum16Bit f size0
                     (NVTPACK_FW_HDR_AND_PARTITIONS_size s) 0x14 in
    if checksum_value s =? CRC_FW then Ok f
    else let* bs := pack_le 4 CRC_FW in seek_write f (size0 + 0x14) bs
  else if FW_BOOTLOADER s =? 1 then
    let total_file_size := len f in
    let* CRC_FW := Checksum.MemCheck_CalcCheckSum16Bit f 0 total_file_size 0x32 in
    if checksum_value s =? CRC_FW then Ok f
    else let* bs := pack_le 2 CRC_FW in seek_write f 0x32 bs
  else Ok f.

(** The [-fixCRC] run of [main] on a file with contents [f]: the
    contents it leaves, up to the printing of the report. *)
Definition run_fixCRC (f : list Z) : result (list Z) :=
  let* s := main_parse f in
  let* f := fix_partitions (Z.to_nat (partitions_count s)) s 0 f in
  fix_file_crc s f.

(** A 68-byte HDR2 file with one 16-byte partition of unknown kind:
    header of 40 bytes, one table entry, checksum field 0.  The sum of
    its words and positions is a multiple of 2^16. *)
Definition zero_sum_hdr2 : list Z :=
  [0x07; 0x2E; 0x01; 0xD6; 0xBC; 0x10; 0x91; 0x4F;
   0xB2; 0x8A; 0x35; 0x2F; 0x82; 0x26; 0x1A; 0x50;
   0x15; 0x15; 0x07; 0x16;  40; 0; 0; 0;  1; 0; 0; 0;  68; 0; 0; 0;
   0; 0; 0; 0;  0; 0; 0; 0;
   52; 0; 0; 0;  16; 0; 0; 0;  0; 0; 0; 0;
   0; 0; 0; 0;  0; 0; 0; 0;  42; 61; 0; 0;  0; 0; 0; 0].

(** The HDR2 file of scenario S4: three partitions of 1000, 2000 and
    3000 zero bytes at 64, 1064 and 3064 with ids 0, 1 and 2, total
    size 6064, and the valid checksum 0xE32A at 0x24.  The table starts
    at 40, after the header; with these offsets its third entry lies
    in the first twelve bytes of partition 0. *)
Definition s4_file : list Z :=
  [0x07; 0x2E; 0x01; 0xD6; 0xBC; 0x10; 0x91; 0x4F;
   0xB2; 0x8A; 0x35; 0x2F; 0x82; 0x26; 0x1A; 0x50;
   0x15; 0x15; 0x07; 0x16;  40; 0; 0; 0;  3; 0; 0; 0;  0xB0; 0x17; 0; 0;
   0; 0; 0; 0;  0x2A; 0xE3; 0; 0;
   64; 0; 0; 0;  0xE8; 0x03; 0; 0;  0; 0; 0; 0;
   0x28; 0x04; 0; 0;  0xD0; 0x07; 0; 0;  1; 0; 0; 0;
   0xF8; 0x0B; 0; 0;  0xB8; 0x0B; 0; 0;  2; 0; 0; 0]
  ++ replicate (Z.to_nat 5988) 0.

(** The module-level variables after [main] has parsed [s4_file]. *)
Definition s4_state : fw :=
  Fw 1 0 0 3 [64; 1064; 3064] [1000; 2000; 3000] [0; 1; 2]
     [Kunknown; Kunknown; Kunknown] [0; 0; 0] [0; 0; 0] 40 0 6064 6064 0 [] s4_file.

(** The module-level variables after [main] has parsed [zero_sum_hdr2]. *)
Definition zero_sum_state : fw :=
  Fw 1 0 0 1 [52] [16] [0] [Kunknown] [0] [0] 40 0 68 68 0 [] zero_sum_hdr2.

(** The same 68-byte file with the size 32 in its table entry: the
    partition starts at 52 and is declared to end at 84, sixteen bytes
    after the end of the file. *)
Definition overlong_hdr2 : list Z :=
  [0x07; 0x2E; 0x01; 0xD6; 0xBC; 0x10; 0x91; 0x4F;
   0xB2; 0x8A; 0x35; 0x2F; 0x82; 0x26; 0x1A; 0x50;
   0x15; 0x15; 0x07; 0x16;  40; 0; 0; 0;  1; 0; 0; 0;  68; 0; 0; 0;
   0; 0; 0; 0;  0; 0; 0; 0;
   52; 0; 0; 0;  32; 0; 0; 0;  0; 0; 0; 0;
   0; 0; 0; 0;  0; 0; 0; 0;  42; 61; 0; 0;  0; 0; 0; 0].

(** A table of two entries: start 0 and size 16 with id 0, then start
    0x80000000 and size 0x80000000 with id 1, whose end offset is
    2^32. *)
Definition overflow_table : list Z :=
  [0; 0; 0; 0;  16; 0; 0; 0;  0; 0; 0; 0;
   0; 0; 0; 0x80;  0; 0; 0; 0x80;  1; 0; 0; 0].

(** The module-level variables after [main] has parsed
    [overlong_hdr2]. *)
Definition overlong_state : fw :=
  Fw 1 0 0 1 [52] [32] [0] [Kunknown] [0] [0] 40 0 68 68 0 [] overlong_hdr2.

End Parser.

(** ** Operation dispatcher *)

Module Dispatcher.
Import Layout Parser.

(** The partition kinds whose compress function is not modelled here:
    UBI and sparse images and device trees go through external tools,
    MODELEXT is recomposed from the files of its sub-records. *)
Inductive other_target : Type :=
  | CKSM_UBI | CKSM_SPARSE | FDT | MODELEXT.

(** The operation selected on the command line. *)
Inductive operation : Type :=
  | OpInfo
  | OpReplace (partID offset : Z) (file : option (list Z))
  | OpCompress (partID : Z) (in2_file : option (list Z))
  | OpFixCRC.

(** Exit status of the process: 0 when [main] returns, the argument
    of [exit], 1 for an uncaught exception. *)
Definition exit_status {A} (r : result A) : Z :=
  match r with
  | Ok _ => 0
  | Exit code => code
  | Raise => 1
  end.

(** The lines of the report, from entry [a] on: [print(... %
    (part_id[a], dtbpart_name[part_id[a]], part_startoffset[a],
    part_endoffset[a], part_size[a], part_crc[a], part_crcCalc[a],
    part_type[a]))], the name only in the table [with_names].  What is
    printed is not modelled, the [IndexError] of an index past the end
    is; [part_endoffset] gets an entry whenever [part_startoffset] gets
    one. *)
Fixpoint report_lines (n : nat) (s : fw) (with_names : bool) (a : Z) : result unit :=
  match n with
  | O => Ok tt
  | S n' =>
    let* crc := item (part_crc s) a in
    let* calc := item (part_crcCalc s) a in
    let* id := item (part_id s) a in
    let* name := if with_names then item (dtbpart_name s) id else Ok [] in
    let* start := item (part_startoffset s) a in
    let* size := item (part_size s) a in
    let* k := item (part_type s) a in
    report_lines n' s with_names (a + 1)
  end.

(** The report that ends [main]: [if partitions_count > 0: if
    len(dtbpart_ID) != 0: ... else: ...].  [dtbpart_ID] and
    [dtbpart_name] get their entries together in [fillIDPartNames], so
    the test is made on [dtbpart_name]. *)
Definition report (s : fw) : result unit :=
  if partitions_count s >? 0 then
    report_lines (Z.to_nat (partitions_count s)) s
      (negb (bool_decide (dtbpart_name s = []))) 0
  else Ok tt.

Section Main.

Variable lzma_compress : Z -> Z -> Z -> Z -> list Z -> list Z.
Variable zlib_compress : list Z -> list Z.
Variable compress_other : other_target -> fw -> Z -> option (list Z) -> result fw.

(** The loop of [fixCRC(partID)], from entry [a] on: the file after
    the repair of the first matching entry that needed one. *)
Fixpoint fixCRC_loop (n : nat) (s : fw) (partID a : Z) (f : list Z) : result (list Z) :=
  match n with
  | O => Ok f
  | S n' =>
    let* id := item (part_id s) a in
    if id =? partID then
      let* start := item (part_startoffset s) a in
      let* size := item (part_size s) a in
      let* '(_, _, calcCRC, _) :=
        GetPartitionInfo (S (length f)) (FW_BOOTLOADER s) (dtbpart_name s) f
          start size id false in
      let* crc := item (part_crc s) a in
      if negb (crc =? calcCRC) then
        let* k := item (part_type s) a in
        match k with
        | Kuboot | Kmodelext | Kcksm => fix_partition (FW_BOOTLOADER s) f start k calcCRC
        | Kbcl1 =>
          if FW_BOOTLOADER s =? 0
          then fix_partition (FW_BOOTLOADER s) f start k calcCRC
          else fixCRC_loop n' s partID (a + 1) f
        | _ => fixCRC_loop n' s partID (a + 1) f
        end
      else fixCRC_loop n' s partID (a + 1) f
    else fixCRC_loop n' s partID (a + 1) f
  end.

(** [fixCRC(partID)]. *)
Definition fixCRC (s : fw) (partID : Z) : result fw :=
  let* f := fixCRC_loop (Z.to_nat (partitions_count s)) s partID 0 (in_file s) in
  let s := if (negb (FW_HDR2 s =? 1)) && (negb (FW_HDR s =? 1)) && (FW_BOOTLOADER s =? 1)
           then set_total_file_size s (len f) else s in
  let* f := fix_file_crc s f in
  Ok (set_in_file s f).

(** [compress_BCL(part_nr, in2_file)] and [compress_CKSM_BCL(part_nr,
    in2_file)]: [in_offset] is 0 for the first and 0x40 for the
    second, which also requires the CKSM tag. *)
Definition compress_BCL_at (s : fw) (part_nr in_offset : Z)
    (in2_file : option (list Z)) : result fw :=
  let* start := item (part_startoffset s) part_nr in
  if start <? 0 then Raise else
  if (in_offset =? 0x40) &&
     negb (bool_decide (pread (in_file s) start 4 = [0x43; 0x4B; 0x53; 0x4D]))
  then Exit 0 else
  if negb (bool_decide (pread (in_file s) (start + in_offset) 4 = BCL1.BCL1_magic))
  then Exit 0 else
  match in2_file with
  | None => Exit 0
  | Some raw =>
    let* id := item (part_id s) part_nr in
    let* comp :=
      BCL1.BCL1_compress lzma_compress zlib_compress
        (FW_HDR2 s) (FW_HDR s) (FW_BOOTLOADER s) id (in_file s) (start + in_offset) raw in
    let* s := partition_replace s id in_offset (Some comp) in
    let* s :=
      if (in_offset =? 0) && (FW_BOOTLOADER s =? 1) then
        let filesize := len (in_file s) in
        let* file_size_from_header := rd_le (in_file s) 0x24 4 in
        if file_size_from_header >? filesize then
          Ok (set_in_file s
                (in_file s ++ replicate (Z.to_nat (file_size_from_header - filesize)) 0))
        else if filesize >? file_size_from_header then Exit 0
        else Ok s
      else Ok s in
    fixCRC s id
  end.

(** [compress(part_nr, in2_file)]: the dispatch on the first bytes of
    the partition. *)
Definition compress (s : fw) (part_nr : Z) (in2_file : option (list Z)) : result fw :=
  let* start := item (part_startoffset s) part_nr in
  if start <? 0 then Raise else
  let f := in_file s in
  let FourCC := pread f start 4 in
  if bool_decide (FourCC = [0x43; 0x4B; 0x53; 0x4D]) then
    let FourCC := pread f (start + 0x40) 4 in
    if bool_decide (FourCC = [0x55; 0x42; 0x49; 0x23])
    then compress_other CKSM_UBI s part_nr in2_file
    else if bool_decide (FourCC = BCL1.BCL1_magic)
    then compress_BCL_at s part_nr 0x40 in2_file
    else
      let* v := unpack_be 4 FourCC in
      if v =? 0x3AFF26ED then compress_other CKSM_SPARSE s part_nr in2_file
      else Exit 0
  else
    if bool_decide (FourCC = BCL1.BCL1_magic)
    then compress_BCL_at s part_nr 0 in2_file
    else
      let* v := unpack_be 4 FourCC in
      if v =? 0xD00DFEED then compress_other FDT s part_nr in2_file else
      let* MODELEXT_TYPE := rd_le f (start + 4) 4 in
      let* MODELEXT_VERSION := rd_le f (start + 12) 4 in
      let* is_modelext :=
        if (MODELEXT_TYPE =? 1) && (MODELEXT_VERSION =? 0x16072219) then
          let* tag := rd_bytes f (start + 16) 8 in
          Ok (bool_decide (tag = name_MODELEXT))
        else Ok false in
      if is_modelext then compress_other MODELEXT s part_nr in2_file
      else Exit 0.

(** [main] for the operations above; [input] is the contents of the
    input file, [None] when it does not exist.  The replace and
    compress operations end in [exit(0)]; the other two end with the
    report. *)
Definition main (input : option (list Z)) (op : operation) : result fw :=
  match input with
  | None => Exit 0
  | Some f =>
    let* s := main_parse f in
    match op with
    | OpInfo => let* _ := report s in Ok s
    | OpReplace partID offset file =>
      let* s := partition_replace s partID offset file in
      Exit 0
    | OpCompress partID in2_file =>
      let* part_nr := find_part_nr s partID in
      if negb (part_nr =? -1) then
        let* s := compress s part_nr in2_file in Exit 0
      else Exit 0
    | OpFixCRC =>
      let* f := fix_partitions (Z.to_nat (partitions_count s)) s 0 f in
      let s := if (negb (FW_HDR2 s =? 1)) && (negb (FW_HDR s =? 1))
                  && (FW_BOOTLOADER s =? 1)
               then set_total_file_size s (len f) else s in
      let* f := fix_file_crc s f in
      let* _ := report s in
      Ok (set_in_file s f)
    end
  end.

End Main.

(** An 84-byte bootloader file: the signature, the BCL1 block of
    [BCL1.sample_block] at offset 64 and the declared size 84 at
    0x24. *)
Definition sample_bootloader : list Z :=
  [0x28; 0x00; 0xAB; 0xCD; 0; 0; 0xAB; 0xCD;  64; 0; 0; 0;
   0x00; 0x05; 0x80; 0xE0;  0; 0; 0xAB; 0xCD]
  ++ replicate 16 0 ++ [84; 0; 0; 0] ++ replicate 8 0
  ++ [0x55; 0xAA; 0; 0] ++ replicate 12 0 ++ BCL1.sample_block.

(** The block of [BCL1.sample_block] with the algorithm code 0x01
    (RLE), which the codec does not handle. *)
Definition rle_block : list Z :=
  [0x42; 0x43; 0x4C; 0x31; 0; 0; 0; 1; 0; 0; 0; 3; 0; 0; 0; 4; 0; 7; 7; 7].

(** Stand-in for the compress functions that are not modelled, in
    examples that do not reach them. *)
Definition no_other (_ : other_target) (_ : fw) (_ : Z) (_ : option (list Z))
    : result fw := Raise.

End Dispatcher.

(** * Theorems *)

(** ** Checksum engine *)

Section ChecksumFacts.
Import Checksum.

Lemma list_pair_ind {A} (P : list A -> Prop) :
  P [] -> (forall a, P [a]) ->
  (forall a b l, P l -> P (a :: b :: l)) -> forall l, P l.
Proof.
  intros H0 H1 H2.
  assert (Hboth : forall l, P l /\ forall a, P (a :: l)).
  { induction l as [|x l [IH1 IH2]]; split; auto. }
  intros l. apply Hboth.
Qed.

Lemma unpack_le16_app l1 l2 :
  Nat.even (length l1) = true ->
  unpack_le16 (l1 ++ l2) = unpack_le16 l1 ++ unpack_le16 l2.
Proof.
  induction l1 as [| a | a b l IH] using list_pair_ind; simpl; intros He.
  - reflexivity.
  - discriminate.
  - f_equal. apply IH. exact He.
Qed.

Lemma unpack_le16_length l : length (unpack_le16 l) = (length l / 2)%nat.
Proof.
  induction l as [| a | a b l IH] using list_pair_ind; try reflexivity.
  cbn [unpack_le16 length]. rewrite IH.
  change (S (S (length l))) with (1 * 2 + length l)%nat.
  rewrite Nat.div_add_l by lia. reflexivity.
Qed.

Lemma words_loop_wsum hole ws : forall s k,
  words_loop hole (s, k) ws = (s + wsum hole k ws, k + len ws).
Proof.
  unfold words_loop, len.
  induction ws as [|w r IH]; intros s k; cbn [fold_left wsum length].
  - f_equal; lia.
  - replace (word_step hole (s, k) w)
      with (s + (if k * 2 =? hole then k else w + k), k + 1)
      by (unfold word_step; destruct (k * 2 =? hole); reflexivity).
    rewrite IH. f_equal; lia.
Qed.

Lemma words_loop_app hole st ws1 ws2 :
  words_loop hole st (ws1 ++ ws2) = words_loop hole (words_loop hole st ws1) ws2.
Proof. unfold words_loop. apply fold_left_app. Qed.

Lemma CHUNK_SIZE_even : CHUNK_SIZE mod 2 = 0.
Proof. reflexivity. Qed.

Lemma CHUNK_SIZE_pos : 1 < CHUNK_SIZE.
Proof. reflexivity. Qed.

(** With enough fuel the chunked loop visits exactly the words of the
    first [bytes_remaining] bytes of the stream. *)
Lemma chunk_loop_words hole : forall fuel stream br st,
  (Z.to_nat br <= fuel)%nat ->
  chunk_loop fuel hole stream br st =
  words_loop hole st (unpack_le16 (take (Z.to_nat br) stream)).
Proof.
  induction fuel as [|fuel IH]; intros stream br st Hf.
  - simpl. replace (Z.to_nat br) with 0%nat by lia. reflexivity.
  - cbn [chunk_loop].
    destruct (br >? 0) eqn:Hbr; [apply Z.gtb_lt in Hbr|].
    2:{ assert (br <= 0) by (destruct (Z.gtb_spec br 0); [discriminate | lia]).
        replace (Z.to_nat br) with 0%nat by lia. reflexivity. }
    set (c0 := Z.min CHUNK_SIZE br).
    set (c := if (c0 mod 2 =? 1) && (br >? 1) then c0 - 1 else c0).
    pose proof CHUNK_SIZE_even as Hev. pose proof CHUNK_SIZE_pos as Hpos.
    assert (Hc : 1 <= c <= br /\ (c mod 2 = 0 \/ c = br)).
    { subst c. destruct (c0 mod 2 =? 1) eqn:Hodd; cbn [andb].
      - apply Z.eqb_eq in Hodd.
        destruct (br >? 1) eqn:Hb1.
        + apply Z.gtb_lt in Hb1. split; [|left].
          * assert (c0 <> 1) by (subst c0; lia). subst c0. lia.
          * replace (c0 - 1) with (c0 + (-1) * 1) by lia.
            rewrite <- Zplus_mod_idemp_l, Hodd. reflexivity.
        + assert (br = 1) by (destruct (Z.gtb_spec br 1); [discriminate | lia]).
          subst c0. lia.
      - apply Z.eqb_neq in Hodd. split; [subst c0; lia|].
        left. pose proof (Z.mod_pos_bound c0 2). lia. }
    destruct Hc as [Hc1 Hc2].
    destruct (take (Z.to_nat c) stream) as [|x fr] eqn:Hfr.
    + assert (stream = []) as ->.
      { destruct stream; [reflexivity|].
        replace (Z.to_nat c) with (S (Z.to_nat c - 1)) in Hfr by lia.
        discriminate. }
      rewrite take_nil. reflexivity.
    + rewrite <- Hfr. rewrite IH by lia.
      rewrite <- words_loop_app. f_equal.
      rewrite length_take.
      destruct (decide (Z.to_nat c <= length stream)%nat) as [Hle|Hgt].
      * rewrite Nat.min_l by lia.
        destruct Hc2 as [Hc2| ->].
        -- rewrite <- unpack_le16_app.
           ++ f_equal. rewrite <- (take_drop (Z.to_nat c) (take (Z.to_nat br) stream)).
              rewrite take_take, Nat.min_l by lia. f_equal.
              rewrite take_drop_commute. do 2 f_equal. lia.
           ++ rewrite length_take, Nat.min_l by lia.
              rewrite <- Nat.negb_odd. rewrite <- (Z2Nat.id c) in Hc2 by lia.
              destruct (Nat.odd (Z.to_nat c)) eqn:Ho; [|reflexivity].
              apply Nat.odd_spec in Ho. destruct Ho as [m Hm].
              rewrite Hm in Hc2. exfalso.
              replace (Z.of_nat (2 * m + 1)) with (1 + Z.of_nat m * 2) in Hc2 by lia.
              rewrite Z_mod_plus_full in Hc2. discriminate.
        -- replace (br - br) with 0 by lia. simpl. rewrite app_nil_r. reflexivity.
      * rewrite Nat.min_r by lia. rewrite drop_all, take_nil. simpl.
        rewrite app_nil_r. rewrite !take_ge by lia. reflexivity.
Qed.

Lemma spec_sum_wsum hole : forall l k,
  foldr Z.add 0
    (map (fun i => let p := Z.of_nat (k + i) in
                   if p * 2 =? hole then p
                   else (l !!! (2 * i)%nat + 256 * l !!! (2 * i + 1)%nat) + p)
         (seq 0 (length l / 2)))
  = wsum hole (Z.of_nat k) (unpack_le16 l).
Proof.
  induction l as [| a | a b l IH] using list_pair_ind; intros k; try reflexivity.
  cbn [length unpack_le16 wsum].
  change (S (S (length l))) with (1 * 2 + length l)%nat.
  rewrite Nat.div_add_l by lia. change (1 + length l / 2)%nat with (S (length l / 2)).
  cbn [seq map foldr]. rewrite <- seq_shift, map_map.
  replace (Z.of_nat k + 1) with (Z.of_nat (S k)) by lia.
  rewrite <- IH. rewrite Nat.add_0_r. f_equal.
  f_equal. apply map_ext. intros i.
  replace (k + S i)%nat with (S k + i)%nat by lia.
  replace (2 * S i)%nat with (S (S (2 * i))) by lia.
  replace (S (S (2 * i)) + 1)%nat with (S (S (2 * i + 1))) by lia.
  reflexivity.
Qed.

Lemma spec_sum_unpack range hole :
  spec_sum range hole = wsum hole 0 (unpack_le16 range).
Proof. apply (spec_sum_wsum hole range 0). Qed.

(** The engine as a function of the sum the specification describes. *)
Lemma MemCheck_spec_sum file start length hole :
  0 <= start ->
  MemCheck_CalcCheckSum16Bit_Streaming file start length hole =
  Ok (Z.land (Z.lnot (Z.land (spec_sum (pread file start length) hole) 0xFFFF))
               0xFFFF + 1).
Proof.
  intros Hs. unfold MemCheck_CalcCheckSum16Bit_Streaming.
  destruct (Z.ltb_spec start 0); [lia|].
  rewrite chunk_loop_words by lia.
  rewrite words_loop_wsum, spec_sum_unpack. reflexivity.
Qed.

End ChecksumFacts.

Section ChecksumClaims.
Import Checksum.

Lemma land_lnot_16 m :
  0 <= m < 65536 -> Z.land (Z.lnot m) 0xFFFF = 65535 - m.
Proof.
  intros Hm. change 0xFFFF with (Z.ones 16).
  rewrite Z.land_ones by lia. unfold Z.lnot.
  change (2 ^ 16) with 65536. change (Z.ones 16) with 65535.
  symmetry. apply (Z.mod_unique_pos _ _ (-1)). all: lia.
Qed.

Lemma land_16_mod s : Z.land s 0xFFFF = s mod 65536.
Proof. change 0xFFFF with (Z.ones 16). rewrite Z.land_ones by lia. reflexivity. Qed.

(** The value the engine returns, in closed form. *)
Lemma MemCheck_closed_form file start length hole :
  0 <= start ->
  MemCheck_CalcCheckSum16Bit_Streaming file start length hole =
  Ok (65536 - spec_sum (pread file start length) hole mod 65536).
Proof.
  intros Hs. rewrite MemCheck_spec_sum by assumption.
  set (S := spec_sum _ _). rewrite (land_16_mod S).
  pose proof (Z.mod_pos_bound S 65536).
  rewrite land_lnot_16 by lia. f_equal. lia.
Qed.

(** Whenever the sum is not a multiple of 2^16 the engine returns the
    16-bit value [((~S & 0xFFFF) + 1) & 0xFFFF] of the specification. *)
Lemma MemCheck_masked_when_nonzero file start length hole :
  0 <= start ->
  spec_sum (pread file start length) hole mod 65536 <> 0 ->
  MemCheck_CalcCheckSum16Bit_Streaming file start length hole =
  Ok (Z.land (Z.land (Z.lnot (spec_sum (pread file start length) hole)) 0xFFFF + 1)
               0xFFFF).
Proof.
  intros Hs Hnz. rewrite MemCheck_closed_form by assumption. f_equal.
  set (S := spec_sum _ _) in *.
  pose proof (Z.mod_pos_bound S 65536 ltac:(lia)).
  rewrite !land_16_mod. unfold Z.lnot, Z.pred.
  replace (- S + -1) with (- S - 1) by lia.
  assert (E : (- S - 1) mod 65536 = 65535 - S mod 65536).
  { symmetry. apply (Z.mod_unique_pos _ _ (- (S / 65536) - 1)); [lia|].
    pose proof (Z.div_mod S 65536 ltac:(lia)). lia. }
  rewrite E. rewrite (Z.mod_small (65535 - S mod 65536 + 1)); lia.
Qed.

(** The example of the specification: words 1, 2, 3 and no hole. *)
Lemma MemCheck_example_S2 :
  MemCheck_CalcCheckSum16Bit_Streaming [1; 0; 2; 0; 3; 0] 0 6 (-1) = Ok 0xFFF7.
Proof. reflexivity. Qed.

(** C1, at the failing input: over the two-byte range [00 00] with no
    hole the sum is 0; the specification's formula gives the 16-bit
    value 0, the engine returns 0x10000. *)
Theorem C1_checksum_overflows_at_zero_sum :
  spec_sum (pread [0; 0] 0 2) (-1) = 0 /\
  Z.land (Z.land (Z.lnot (spec_sum (pread [0; 0] 0 2) (-1))) 0xFFFF + 1) 0xFFFF = 0 /\
  MemCheck_CalcCheckSum16Bit_Streaming [0; 0] 0 2 (-1) = Ok 0x10000.
Proof. split; [|split]; vm_compute; reflexivity. Qed.

(** C9: the engine's result is [((~(S mod 2^16)) & 0xFFFF) + 1] with
    no final mask; it lies in [1, 0x10000], so it is never 0, and it is
    0x10000 exactly when [S mod 2^16 = 0]. *)
Theorem C9_checksum_range file start length hole :
  0 <= start ->
  exists r,
    MemCheck_CalcCheckSum16Bit_Streaming file start length hole = Ok r /\
    r = Z.land (Z.lnot (spec_sum (pread file start length) hole mod 2 ^ 16)) 0xFFFF + 1 /\
    1 <= r <= 0x10000 /\
    (r = 0x10000 <-> spec_sum (pread file start length) hole mod 2 ^ 16 = 0).
Proof.
  intros Hs. eexists. split; [apply MemCheck_closed_form; assumption|].
  change (2 ^ 16) with 65536.
  pose proof (Z.mod_pos_bound (spec_sum (pread file start length) hole) 65536).
  rewrite land_lnot_16 by lia. repeat split; lia.
Qed.

Lemma C9_checksum_range_witness :
  exists r,
    MemCheck_CalcCheckSum16Bit_Streaming [255; 255; 1; 0] 0 4 (-1) = Ok r /\
    r = Z.land (Z.lnot (spec_sum (pread [255; 255; 1; 0] 0 4) (-1) mod 2 ^ 16)) 0xFFFF + 1 /\
    1 <= r <= 0x10000 /\
    (r = 0x10000 <-> spec_sum (pread [255; 255; 1; 0] 0 4) (-1) mod 2 ^ 16 = 0).
Proof. apply (C9_checksum_range [255; 255; 1; 0] 0 4 (-1)). lia. Defined.

End ChecksumClaims.

(** ** Packing and file writes *)

Section PackFacts.

Lemma le_bytes_length n : forall x, length (le_bytes n x) = n.
Proof. induction n as [|n IH]; intros x; simpl; [reflexivity | f_equal; apply IH]. Qed.

Lemma le_value_le_bytes n : forall x,
  0 <= x < 256 ^ Z.of_nat n -> le_value (le_bytes n x) = x.
Proof.
  induction n as [|n IH]; intros x Hx.
  - simpl in *. lia.
  - cbn [le_bytes le_value foldr]. fold (le_value (le_bytes n (x / 256))).
    rewrite IH.
    + pose proof (Z.div_mod x 256 ltac:(lia)). lia.
    + rewrite Nat2Z.inj_succ, Z.pow_succ_r in Hx by lia.
      split; [apply Z.div_pos; lia | apply Z.div_lt_upper_bound; lia].
Qed.

Lemma le_bytes_ok n : forall x, bytes_ok (le_bytes n x).
Proof.
  induction n as [|n IH]; intros x; simpl; constructor; [|apply IH].
  unfold byte_ok. apply Z.mod_pos_bound. lia.
Qed.

Lemma be_value_acc l : forall acc,
  fold_left (fun a b => a * 256 + b) l acc = acc * 256 ^ len l + be_value l.
Proof.
  unfold be_value, len.
  induction l as [|b l IH]; intros acc; cbn [fold_left length].
  - simpl. lia.
  - rewrite IH, (IH (0 * 256 + b)).
    rewrite Nat2Z.inj_succ, Z.pow_succ_r by lia. lia.
Qed.

Lemma be_value_app l1 l2 :
  be_value (l1 ++ l2) = be_value l1 * 256 ^ len l2 + be_value l2.
Proof.
  unfold be_value at 1. rewrite fold_left_app.
  fold (be_value l1). apply be_value_acc.
Qed.

Lemma be_value_rev l : be_value (rev l) = le_value l.
Proof.
  induction l as [|b l IH]; [reflexivity|].
  cbn [rev le_value foldr]. fold (le_value l).
  rewrite be_value_app, IH. unfold be_value, len. simpl. lia.
Qed.

Lemma pack_be_inv n x bs :
  pack_be n x = Ok bs ->
  length bs = n /\ be_value bs = x /\ bytes_ok bs /\ 0 <= x < 256 ^ Z.of_nat n.
Proof.
  unfold pack_be. intros H.
  destruct (Z.leb_spec 0 x); [|discriminate].
  destruct (Z.ltb_spec x (256 ^ Z.of_nat n)); [|discriminate].
  simpl in H. injection H as <-.
  rewrite length_rev, le_bytes_length, be_value_rev, le_value_le_bytes by lia.
  repeat split; try lia.
  unfold bytes_ok. apply Forall_rev, le_bytes_ok.
Qed.

Lemma pack_le_inv n x bs :
  pack_le n x = Ok bs ->
  length bs = n /\ le_value bs = x /\ bytes_ok bs /\ 0 <= x < 256 ^ Z.of_nat n.
Proof.
  unfold pack_le. intros H.
  destruct (Z.leb_spec 0 x); [|discriminate].
  destruct (Z.ltb_spec x (256 ^ Z.of_nat n)); [|discriminate].
  simpl in H. injection H as <-.
  rewrite le_bytes_length, le_value_le_bytes by lia.
  repeat split; try lia. apply le_bytes_ok.
Qed.

Lemma unpack_be_inv n bs x :
  unpack_be n bs = Ok x -> length bs = n /\ x = be_value bs.
Proof. unfold unpack_be. destruct (decide _); intros H; [injection H as <-; auto | discriminate]. Qed.

Lemma unpack_le_inv n bs x :
  unpack_le n bs = Ok x -> length bs = n /\ x = le_value bs.
Proof. unfold unpack_le. destruct (decide _); intros H; [injection H as <-; auto | discriminate]. Qed.

(** Overwriting a field in the middle of a file. *)
Lemma pwrite_middle (a b r c : list Z) off :
  off = len a -> length b = length c ->
  pwrite (a ++ b ++ r) off c = a ++ c ++ r.
Proof.
  intros -> Hbc. unfold pwrite, len.
  destruct c as [|c0 c]; [destruct b; [reflexivity | discriminate]|].
  set (c' := c0 :: c) in *. rewrite Nat2Z.id.
  rewrite take_app_length.
  replace (length a - length (a ++ b ++ r))%nat with 0%nat
    by (rewrite length_app; lia).
  cbn [replicate app]. f_equal. f_equal.
  rewrite drop_app_add', <- Hbc by reflexivity.
  rewrite drop_app_length. reflexivity.
Qed.

Lemma pread_middle (a b r : list Z) off n :
  off = len a -> n = len b -> pread (a ++ b ++ r) off n = b.
Proof.
  intros -> ->. unfold pread, len. rewrite !Nat2Z.id.
  rewrite drop_app_length, take_app_length. reflexivity.
Qed.

Lemma bind_Ok_inv {A B} (r : result A) (k : A -> result B) b :
  bind r k = Ok b -> exists a, r = Ok a /\ k a = Ok b.
Proof. destruct r; simpl; intros H; try discriminate. eauto. Qed.

End PackFacts.

(** ** BCL1 block layout *)

Section BlockLayout.
Import BCL1.

Variable lzma_compress : Z -> Z -> Z -> Z -> list Z -> list Z.
Variable zlib_compress : list Z -> list Z.

Tactic Notation "bind_inv" hyp(H) "as" ident(a) ident(E) :=
  apply bind_Ok_inv in H; destruct H as (a & E & H).

Lemma prepare_dataread_length in2_file dataread :
  prepare_dataread in2_file = Ok dataread -> length dataread = length in2_file.
Proof.
  unfold prepare_dataread.
  destruct (crc_location _) as [[|] off]; intros H.
  - bind_inv H as crc Ecrc. destruct (len in2_file <=? off + 1); [discriminate|].
    injection H as <-. rewrite !length_insert. reflexivity.
  - injection H as <-. reflexivity.
Qed.

Lemma block_header_inv Algorithm orig dataread hdr :
  block_header Algorithm orig dataread = Ok hdr ->
  exists algo usize,
    hdr = BCL1_magic ++ [0; 0] ++ algo ++ usize /\
    length algo = 2%nat /\ be_value algo = Algorithm /\
    length usize = 4%nat /\ be_value usize = Z.max orig (len dataread).
Proof.
  unfold block_header. intros H.
  bind_inv H as magic E1. bind_inv H as crc E2.
  bind_inv H as algo E3. bind_inv H as usize E4. injection H as <-.
  injection E1 as <-. injection E2 as <-.
  apply pack_be_inv in E3 as (? & ? & _).
  exists algo, usize. repeat split; try assumption.
  - destruct (Z.gtb_spec orig (len dataread));
      apply pack_be_inv in E4 as (? & ? & _); assumption.
  - destruct (Z.gtb_spec orig (len dataread));
      apply pack_be_inv in E4 as (? & ? & _); lia.
Qed.

(** The bytes of a block [BCL1_compress] returns: the header, the
    payload of the algorithm and the padding. *)
Lemma BCL1_compress_shape FW_HDR2 FW_HDR FW_BOOTLOADER part_id in_file start in2_file out :
  BCL1_compress lzma_compress zlib_compress FW_HDR2 FW_HDR FW_BOOTLOADER part_id
    in_file start in2_file = Ok out ->
  exists Algorithm props dict dataread crc algo usize psize,
    let payload :=
      compress_payload lzma_compress zlib_compress Algorithm props dict dataread in
    let addsize := padding FW_HDR2 FW_HDR FW_BOOTLOADER part_id (len payload) in
    unpack_be 2 (pread in_file (start + 6) 2) = Ok Algorithm /\
    prepare_dataread in2_file = Ok dataread /\
    out = BCL1_magic ++ crc ++ algo ++ usize ++ psize ++ payload
            ++ replicate (Z.to_nat addsize) 0 /\
    length crc = 2%nat /\
    length algo = 2%nat /\ be_value algo = Algorithm /\
    length usize = 4%nat /\
    be_value usize = Z.max (be_value (pread in_file (start + 8) 4)) (len dataread) /\
    length psize = 4%nat /\ be_value psize = len payload + addsize.
Proof.
  unfold BCL1_compress. intros H.
  destruct (start <? 0); [discriminate|].
  destruct (negb _); [discriminate|].
  bind_inv H as Algorithm EA.
  destruct (negb _); [discriminate|].
  bind_inv H as orig Eorig. apply unpack_be_inv in Eorig as [_ ->].
  bind_inv H as pd Epd. destruct pd as [props dict].
  bind_inv H as dataread Edata.
  bind_inv H as hdr Ehdr.
  apply block_header_inv in Ehdr as (algo & usize & Hhdr & ? & ? & ? & ?).
  bind_inv H as out0 Eout0.
  set (payload := compress_payload lzma_compress zlib_compress Algorithm props dict dataread).
  set (addsize := padding FW_HDR2 FW_HDR FW_BOOTLOADER part_id (len payload)).
  assert (Hout0 : exists psize,
    out0 = (BCL1_magic ++ [0; 0]) ++ (algo ++ usize ++ psize
       ++ payload ++ replicate (Z.to_nat addsize) 0) /\
    length psize = 4%nat /\ be_value psize = len payload + addsize).
  { subst payload addsize. unfold compress_payload. destruct (Algorithm =? 9) eqn:HA.
    - bind_inv Eout0 as placeholder Epl. bind_inv Eout0 as psize Eps.
      injection Eout0 as <-.
      apply pack_be_inv in Epl as (Hpl & _).
      apply pack_be_inv in Eps as (? & ? & _ & _).
      exists psize. split; [|split; assumption].
      rewrite (pwrite_middle hdr placeholder _ psize).
      + rewrite Hhdr, <- !app_assoc. reflexivity.
      + rewrite Hhdr. unfold len. rewrite !length_app. simpl. lia.
      + lia.
    - bind_inv Eout0 as psize Eps. injection Eout0 as <-.
      apply pack_be_inv in Eps as (? & ? & _ & _).
      exists psize. rewrite Hhdr, <- !app_assoc.
      destruct (Algorithm =? 11) eqn:HB.
      + bind_inv Epd as p1 E1. bind_inv Epd as p2 E2.
        bind_inv Epd as p3 E3. bind_inv Epd as p4 E4.
        injection Epd as <- <-. repeat split; assumption.
      + injection Epd as <- <-. repeat split; assumption. }
  destruct Hout0 as (psize & -> & Hps1 & Hps2).
  destruct (FW_BOOTLOADER =? 0).
  - bind_inv H as newCRC ECRC. bind_inv H as crc Ecrc. injection H as <-.
    apply pack_le_inv in Ecrc as (? & _).
    exists Algorithm, props, dict, dataread, crc, algo, usize, psize.
    cbv zeta. fold payload. fold addsize. repeat split; try assumption.
    apply (pwrite_middle BCL1_magic [0; 0]
             (algo ++ usize ++ psize ++ payload ++ replicate (Z.to_nat addsize) 0) crc);
      [reflexivity | simpl; lia].
  - injection H as <-.
    exists Algorithm, props, dict, dataread, [0; 0], algo, usize, psize.
    cbv zeta. fold payload. fold addsize. repeat split; try assumption.
Qed.

End BlockLayout.

Section BlockClaims.
Import BCL1.

Variable lzma_compress : Z -> Z -> Z -> Z -> list Z -> list Z.
Variable zlib_compress : list Z -> list Z.

(** C8: the uncompressed-size field of the new block, at offset 8, is
    the larger of the field of the block being replaced and the length
    of the new raw data; so it is the new length when that is larger,
    and the old value when the new data is shorter. *)
Theorem C8_uncompressed_size_is_max
    FW_HDR2 FW_HDR FW_BOOTLOADER part_id in_file start in2_file out :
  BCL1_compress lzma_compress zlib_compress FW_HDR2 FW_HDR FW_BOOTLOADER part_id
    in_file start in2_file = Ok out ->
  let original := be_value (pread in_file (start + 8) 4) in
  let written := be_value (pread out 8 4) in
  written = Z.max original (len in2_file) /\
  (original <= len in2_file -> written = len in2_file) /\
  (len in2_file <= original -> written = original).
Proof.
  intros H. apply BCL1_compress_shape in H
    as (Algorithm & props & dict & dataread & crc & algo & usize & psize & H).
  cbv zeta in H.
  destruct H as (_ & Hd & -> & Hcrc & Halgo & _ & Hus & Hmax & _).
  apply prepare_dataread_length in Hd.
  assert (Hw : be_value (pread
      (BCL1_magic ++ crc ++ algo ++ usize ++ psize
         ++ compress_payload lzma_compress zlib_compress Algorithm props dict dataread
         ++ replicate (Z.to_nat (padding FW_HDR2 FW_HDR FW_BOOTLOADER part_id
              (len (compress_payload lzma_compress zlib_compress Algorithm props dict dataread)))) 0)
      8 4) = Z.max (be_value (pread in_file (start + 8) 4)) (len in2_file)).
  { rewrite !(app_assoc _ _ (usize ++ _)).
    rewrite (pread_middle _ usize).
    - rewrite Hmax. unfold len. rewrite Hd. reflexivity.
    - unfold len. rewrite !length_app, Hcrc, Halgo. reflexivity.
    - unfold len. rewrite Hus. reflexivity. }
  cbv zeta. rewrite Hw. repeat split; lia.
Qed.

(** The padding the encoder adds after a payload of [n] bytes. *)
Lemma padding_spec FW_HDR2 FW_HDR FW_BOOTLOADER part_id n :
  let addsize := padding FW_HDR2 FW_HDR FW_BOOTLOADER part_id n in
  (FW_HDR2 = 1 \/ (FW_HDR = 1 /\ part_id = 0) \/ (FW_HDR = 0 /\ FW_BOOTLOADER = 0) ->
   0 <= addsize < 4 /\ (n + addsize) mod 4 = 0) /\
  (~ (FW_HDR2 = 1 \/ (FW_HDR = 1 /\ part_id = 0) \/ (FW_HDR = 0 /\ FW_BOOTLOADER = 0)) ->
   addsize = 0).
Proof.
  cbv zeta. unfold padding, pads.
  assert (Hm : forall a, a = (if negb (n mod 4 =? 0) then 4 - n mod 4 else n mod 4) ->
                 0 <= a < 4 /\ (n + a) mod 4 = 0).
  { intros a ->. destruct (Z.eqb_spec (n mod 4) 0); cbn [negb];
      split; Z.div_mod_to_equations; lia. }
  destruct (Z.eqb_spec FW_HDR2 1), (Z.eqb_spec FW_HDR 1), (Z.eqb_spec part_id 0),
    (Z.eqb_spec FW_HDR 0), (Z.eqb_spec FW_BOOTLOADER 0); cbn [orb andb];
    (split; [intros Hc | intros Hn]);
    try (apply Hm; reflexivity); try reflexivity;
    try (exfalso; apply Hn; tauto); exfalso; lia.
Qed.

(** C4, amended: the encoder pads the payload with zero bytes to a
    multiple of 4 exactly when the firmware is HDR2, or is HDR and the
    partition id is 0, or is neither HDR nor bootloader; otherwise it
    adds nothing.  The packed-size field at offset 12 is the payload
    length plus that padding, and payload and padding are what follows
    the 16-byte header. *)
Theorem C4_padding_and_packed_size
    FW_HDR2 FW_HDR FW_BOOTLOADER part_id in_file start in2_file out :
  BCL1_compress lzma_compress zlib_compress FW_HDR2 FW_HDR FW_BOOTLOADER part_id
    in_file start in2_file = Ok out ->
  exists Algorithm props dict dataread addsize,
    let payload :=
      compress_payload lzma_compress zlib_compress Algorithm props dict dataread in
    unpack_be 2 (pread in_file (start + 6) 2) = Ok Algorithm /\
    prepare_dataread in2_file = Ok dataread /\
    drop 16 out = payload ++ replicate (Z.to_nat addsize) 0 /\
    be_value (pread out 12 4) = len payload + addsize /\
    (FW_HDR2 = 1 \/ (FW_HDR = 1 /\ part_id = 0) \/ (FW_HDR = 0 /\ FW_BOOTLOADER = 0) ->
     0 <= addsize < 4 /\ (len payload + addsize) mod 4 = 0) /\
    (~ (FW_HDR2 = 1 \/ (FW_HDR = 1 /\ part_id = 0) \/ (FW_HDR = 0 /\ FW_BOOTLOADER = 0)) ->
     addsize = 0).
Proof.
  intros H. apply BCL1_compress_shape in H
    as (Algorithm & props & dict & dataread & crc & algo & usize & psize & H).
  cbv zeta in H.
  destruct H as (HA & Hd & -> & Hcrc & Halgo & _ & Hus & _ & Hps & Hpv).
  set (payload := compress_payload lzma_compress zlib_compress Algorithm props dict dataread) in *.
  exists Algorithm, props, dict, dataread,
    (padding FW_HDR2 FW_HDR FW_BOOTLOADER part_id (len payload)).
  cbv zeta. fold payload.
  pose proof (padding_spec FW_HDR2 FW_HDR FW_BOOTLOADER part_id (len payload)) as [Hp1 Hp2].
  repeat split; try assumption; try (apply Hp1; assumption).
  - rewrite !(app_assoc _ _ (payload ++ _)).
    rewrite drop_app_length'; [reflexivity|].
    rewrite !length_app, Hcrc, Halgo, Hus, Hps. reflexivity.
  - rewrite !(app_assoc _ _ (psize ++ _)).
    rewrite (pread_middle _ psize); [exact Hpv | |].
    + unfold len. rewrite !length_app, Hcrc, Halgo, Hus. reflexivity.
    + unfold len. rewrite Hps. reflexivity.
Qed.

End BlockClaims.

Lemma C8_uncompressed_size_is_max_witness :
  let out := [66; 67; 76; 49; 53; 110; 0; 9; 0; 0; 0; 5; 0; 0; 0; 6; 0; 1; 2; 3; 4; 5] in
  let original := be_value (pread BCL1.sample_block (0 + 8) 4) in
  let written := be_value (pread out 8 4) in
  written = Z.max original (len [1; 2; 3; 4; 5]) /\
  (original <= len [1; 2; 3; 4; 5] -> written = len [1; 2; 3; 4; 5]) /\
  (len [1; 2; 3; 4; 5] <= original -> written = original).
Proof.
  apply (C8_uncompressed_size_is_max BCL1.no_lzma BCL1.no_zlib 0 1 0 1
           BCL1.sample_block 0 [1; 2; 3; 4; 5]).
  vm_compute. reflexivity.
Defined.

Lemma C4_padding_and_packed_size_witness :
  let out := [66; 67; 76; 49; 42; 108; 0; 9; 0; 0; 0; 5; 0; 0; 0; 8; 0; 1; 2; 3; 4; 5; 0; 0] in
  exists Algorithm props dict dataread addsize,
    let payload :=
      BCL1.compress_payload BCL1.no_lzma BCL1.no_zlib Algorithm props dict dataread in
    unpack_be 2 (pread BCL1.sample_block (0 + 6) 2) = Ok Algorithm /\
    BCL1.prepare_dataread [1; 2; 3; 4; 5] = Ok dataread /\
    drop 16 out = payload ++ replicate (Z.to_nat addsize) 0 /\
    be_value (pread out 12 4) = len payload + addsize /\
    (1 = 1 \/ (0 = 1 /\ 1 = 0) \/ (0 = 0 /\ 0 = 0) ->
     0 <= addsize < 4 /\ (len payload + addsize) mod 4 = 0) /\
    (~ (1 = 1 \/ (0 = 1 /\ 1 = 0) \/ (0 = 0 /\ 0 = 0)) -> addsize = 0).
Proof.
  apply (C4_padding_and_packed_size BCL1.no_lzma BCL1.no_zlib 1 0 0 1
           BCL1.sample_block 0 [1; 2; 3; 4; 5]).
  vm_compute. reflexivity.
Defined.

(** C4 as stated fails: partition 1 of an HDR firmware is not in a
    bootloader context, yet its 6-byte payload gets no padding and the
    packed-size field is 6. *)
Lemma C4_no_padding_in_HDR_partition_1 :
  let FW_HDR2 := 0 in let FW_HDR := 1 in let FW_BOOTLOADER := 0 in
  let part_id := 1 in
  exists out,
    BCL1.BCL1_compress BCL1.no_lzma BCL1.no_zlib FW_HDR2 FW_HDR FW_BOOTLOADER part_id
      BCL1.sample_block 0 [1; 2; 3; 4; 5] = Ok out /\
    FW_BOOTLOADER = 0 /\
    drop 16 out = BCL1.lz77_payload [1; 2; 3; 4; 5] /\
    len (BCL1.lz77_payload [1; 2; 3; 4; 5]) mod 4 = 2 /\
    be_value (pread out 12 4) = 6.
Proof.
  cbv zeta. eexists. split; [vm_compute; reflexivity|].
  split; [reflexivity|]. split; [vm_compute; reflexivity|].
  split; vm_compute; reflexivity.
Qed.

(** ** LZ77 encoder: bounds on back-references *)

Section EncoderBounds.
Import BCL1.

Lemma match_length_bounds dataread inpos j maxlength : forall fuel length,
  length <= match_length fuel dataread inpos j maxlength length <= Z.max length maxlength.
Proof.
  induction fuel as [|fuel IH]; intros length; cbn [match_length]; [lia|].
  destruct (Z.ltb_spec length maxlength); cbn [andb]; [|lia].
  destruct (_ =? _); [|lia].
  specialize (IH (length + 1)). lia.
Qed.

Lemma chain_walk_best_ok dataread work_chain insize inpos bytesleft :
  forall fuel j bestlength bestoffset,
  best_ok bytesleft (bestlength, bestoffset) ->
  best_ok bytesleft
    (chain_walk fuel dataread work_chain insize inpos bytesleft j bestlength bestoffset).
Proof.
  induction fuel as [|fuel IH]; intros j bl bo Hok; cbn [chain_walk]; [exact Hok|].
  destruct (negb (j =? -1) && (inpos - j <? LZ_MAX_OFFSET)); [|exact Hok].
  destruct ((j + bl >=? insize) || (inpos + bl >=? insize)); [exact Hok|].
  destruct (byte_at dataread (j + bl) =? byte_at dataread (inpos + bl)).
  2:{ apply IH, Hok. }
  set (offset := inpos - j).
  set (maxlength := if bytesleft <? offset then bytesleft else offset).
  pose proof (match_length_bounds dataread inpos j maxlength (Z.to_nat maxlength) 2) as Hm.
  set (length := match_length _ _ _ _ _ _) in *.
  destruct (Z.gtb_spec length bl) as [Hgt|Hle]; apply IH; [|exact Hok].
  right. cbn [fst snd].
  assert (3 <= bl) by (destruct Hok as [E | Hok]; [injection E; lia | cbn in Hok; lia]).
  assert (maxlength <= offset /\ maxlength <= bytesleft)
    by (subst maxlength; destruct (Z.ltb_spec bytesleft offset); lia).
  lia.
Qed.

Lemma find_match_best_ok dataread work_dict work_chain insize inpos bytesleft :
  best_ok bytesleft (find_match dataread work_dict work_chain insize inpos bytesleft).
Proof. unfold find_match. apply chain_walk_best_ok. left. reflexivity. Qed.

Lemma worth_emitting_length bestlength bestoffset :
  worth_emitting bestlength bestoffset = true -> 4 <= bestlength.
Proof.
  unfold worth_emitting. intros H.
  destruct (Z.gtb_spec bestlength 7); [lia|].
  destruct (Z.eqb_spec bestlength 4); [lia|].
  destruct (Z.eqb_spec bestlength 5); [lia|].
  destruct (Z.eqb_spec bestlength 6); [lia|].
  destruct (Z.eqb_spec bestlength 7); [lia|].
  discriminate.
Qed.

Lemma lz_loop_refs dataread work_dict work_chain insize :
  forall fuel inpos bytesleft pos bestlength bestoffset,
  bytesleft = insize - inpos ->
  In (pos, Ref bestlength bestoffset)
     (lz_loop fuel dataread work_dict work_chain insize inpos bytesleft).1 ->
  4 <= bestlength /\ bestlength <= bestoffset /\ pos + bestlength <= insize.
Proof.
  induction fuel as [|fuel IH]; intros inpos bytesleft pos bl bo Hbl Hin;
    cbn [lz_loop] in Hin; [destruct Hin|].
  destruct (bytesleft >? 3); [|destruct Hin].
  pose proof (find_match_best_ok dataread work_dict work_chain insize inpos bytesleft) as Hok.
  destruct (find_match _ _ _ _ _ _) as [bl' bo'].
  destruct (worth_emitting bl' bo') eqn:Hw.
  - destruct (lz_loop fuel _ _ _ _ (inpos + bl') _) as [ts p] eqn:E.
    cbn [fst] in Hin. destruct Hin as [Heq | Hin].
    + injection Heq as -> -> ->.
      apply worth_emitting_length in Hw.
      destruct Hok as [E3 | Hok]; [injection E3; lia | cbn in Hok; lia].
    + apply (IH (inpos + bl') (bytesleft - bl')); [lia|]. rewrite E. exact Hin.
  - destruct (lz_loop fuel _ _ _ _ (inpos + 1) _) as [ts p] eqn:E.
    cbn [fst] in Hin. destruct Hin as [Heq | Hin]; [discriminate|].
    apply (IH (inpos + 1) (bytesleft - 1)); [lia|]. rewrite E. exact Hin.
Qed.

Lemma dump_remaining_no_ref dataread insize : forall fuel inpos pos bestlength bestoffset,
  ~ In (pos, Ref bestlength bestoffset) (dump_remaining fuel dataread insize inpos).
Proof.
  induction fuel as [|fuel IH]; intros inpos pos bl bo; cbn [dump_remaining]; [tauto|].
  destruct (inpos <? insize); [|simpl; tauto].
  intros [Heq | Hin]; [discriminate | exact (IH _ _ _ _ Hin)].
Qed.

(** C10: a back-reference written at input position [inpos] has
    [length <= offset] and [inpos + length <= insize] (and a length of
    at least 4): the copy never overlaps the bytes it produces and
    never reaches past the end of the input. *)
Theorem C10_backreference_bounds dataread inpos bestlength bestoffset :
  In (inpos, Ref bestlength bestoffset) (lz77_trace dataread) ->
  bestlength <= bestoffset /\ inpos + bestlength <= len dataread /\ 4 <= bestlength.
Proof.
  unfold lz77_trace. destruct (build_jump_table dataread) as [work_dict work_chain].
  destruct (lz_loop _ _ _ _ _ _ _) as [ts p] eqn:E.
  intros Hin. apply in_app_or in Hin as [Hin | Hin].
  - pose proof (lz_loop_refs dataread work_dict work_chain (len dataread)
                  (Z.to_nat (len dataread)) 0 (len dataread)
                  inpos bestlength bestoffset ltac:(lia)) as H.
    rewrite E in H. specialize (H Hin). lia.
  - exfalso. exact (dump_remaining_no_ref _ _ _ _ _ _ _ Hin).
Qed.

Lemma C10_backreference_bounds_witness :
  8 <= 8 /\ 8 + 8 <= len [1; 2; 3; 4; 1; 2; 3; 4; 1; 2; 3; 4; 1; 2; 3; 4; 1; 2; 3; 4; 5]
  /\ 4 <= 8.
Proof.
  apply (C10_backreference_bounds
           [1; 2; 3; 4; 1; 2; 3; 4; 1; 2; 3; 4; 1; 2; 3; 4; 1; 2; 3; 4; 5] 8 8 8).
  vm_compute. do 5 right. left. reflexivity.
Defined.

End EncoderBounds.

(** ** Layout manager: replacement in place *)

Section ReplaceInPlace.
Import Layout.

(** A write that stays inside the file replaces a slice of it. *)
Lemma pwrite_inside f off bs :
  0 <= off -> (Z.to_nat off + length bs <= length f)%nat ->
  pwrite f off bs = take (Z.to_nat off) f ++ bs ++ drop (Z.to_nat off + length bs) f.
Proof.
  intros Hoff Hin. unfold pwrite. destruct bs as [|b bs].
  - rewrite Nat.add_0_r. cbn [app]. symmetry. apply take_drop.
  - replace (Z.to_nat off - length f)%nat with 0%nat by lia. reflexivity.
Qed.

Lemma write_chunks_inside : forall fuel freplace f pos,
  0 <= pos -> (length freplace < fuel)%nat ->
  (Z.to_nat pos + length freplace <= length f)%nat ->
  write_chunks fuel freplace f pos =
  take (Z.to_nat pos) f ++ freplace ++ drop (Z.to_nat pos + length freplace) f.
Proof.
  induction fuel as [|fuel IH]; intros src f pos Hpos Hfuel Hin; [lia|].
  cbn [write_chunks].
  destruct (take (Z.to_nat Checksum.CHUNK_SIZE) src) as [|c0 c] eqn:Hc.
  - assert (src = []) as ->.
    { destruct src; [reflexivity|].
      pose proof CHUNK_SIZE_pos.
      replace (Z.to_nat Checksum.CHUNK_SIZE)
        with (S (Z.to_nat Checksum.CHUNK_SIZE - 1)) in Hc by lia.
      discriminate. }
    cbn [app length]. rewrite Nat.add_0_r. symmetry. apply take_drop.
  - rewrite <- Hc. set (chunk := take (Z.to_nat Checksum.CHUNK_SIZE) src) in *.
    assert (Hsrc : src = chunk ++ drop (length chunk) src).
    { subst chunk. rewrite length_take.
      destruct (decide (Z.to_nat Checksum.CHUNK_SIZE <= length src)%nat).
      - rewrite Nat.min_l by lia. symmetry. apply take_drop.
      - rewrite Nat.min_r by lia. rewrite drop_all, app_nil_r, take_ge by lia.
        reflexivity. }
    assert (Hlen : length src = (length chunk + length (drop (length chunk) src))%nat).
    { rewrite Hsrc at 1. apply length_app. }
    assert (0 < length chunk)%nat by (rewrite Hc; simpl; lia).
    set (rest := drop (length chunk) src) in *.
    rewrite pwrite_inside by lia.
    rewrite IH.
    + unfold len. replace (Z.to_nat (pos + Z.of_nat (length chunk)))
        with (Z.to_nat pos + length chunk)%nat by lia.
      rewrite (app_assoc (take _ f) chunk).
      rewrite take_app_length'
        by (rewrite length_app, length_take; lia).
      rewrite drop_app_add'
        by (rewrite !length_app, length_take; lia).
      rewrite drop_drop.
      replace (Z.to_nat pos + length src)%nat
        with (Z.to_nat pos + length chunk + length rest)%nat by lia.
      rewrite <- !app_assoc. f_equal. rewrite (app_assoc chunk), <- Hsrc.
      reflexivity.
    + unfold len. lia.
    + lia.
    + rewrite !length_app, length_take, length_drop. unfold len. lia.
Qed.

(** C6, amended: when the replacement length plus the offset inside
    the partition equals the partition's size, and the partition lies
    inside the file, the replace operation succeeds, leaves every
    module-level table and variable as it was, keeps the file length,
    puts the new bytes at [start + offset] and changes no byte outside
    [start + offset, start + offset + new_len). *)
Theorem C6_replace_in_place s is_replace is_replace_offset replacedata part_nr start size :
  find_part_nr s is_replace = Ok part_nr -> part_nr <> -1 ->
  item (part_startoffset s) part_nr = Ok start ->
  item (part_size s) part_nr = Ok size ->
  len replacedata + is_replace_offset = size ->
  0 <= start + is_replace_offset ->
  start + size <= len (in_file s) ->
  exists f',
    partition_replace s is_replace is_replace_offset (Some replacedata)
      = Ok (set_in_file s f') /\
    length f' = length (in_file s) /\
    pread f' (start + is_replace_offset) (len replacedata) = replacedata /\
    forall i : nat,
      (Z.of_nat i < start + is_replace_offset \/
       start + is_replace_offset + len replacedata <= Z.of_nat i) ->
      f' !! i = in_file s !! i.
Proof.
  intros Hfind Hnr Hstart Hsize Heq Hpos Hin.
  unfold partition_replace. rewrite Hfind. cbn [bind].
  destruct (Z.eqb_spec part_nr (-1)); [contradiction|].
  rewrite Hsize, Hstart. cbn [bind].
  destruct (Z.eqb_spec (len replacedata + is_replace_offset) size); [|contradiction].
  destruct (Z.ltb_spec (start + is_replace_offset) 0); [lia|].
  eexists. split; [reflexivity|].
  unfold len in *.
  rewrite write_chunks_inside by lia.
  set (o := Z.to_nat (start + is_replace_offset)).
  repeat split.
  - rewrite !length_app, length_take, length_drop. lia.
  - unfold pread. fold o. rewrite Nat2Z.id.
    rewrite drop_app_length' by (rewrite length_take; lia).
    apply take_app_length.
  - intros i [Hi | Hi].
    + rewrite lookup_app_l by (rewrite length_take; lia).
      apply lookup_take_lt. lia.
    + rewrite app_assoc, lookup_app_r
        by (rewrite length_app, length_take; lia).
      rewrite lookup_drop. f_equal.
      rewrite length_app, length_take. lia.
Qed.

End ReplaceInPlace.

Lemma zero_sum_state_parsed : Parser.main_parse Parser.zero_sum_hdr2 = Ok Parser.zero_sum_state.
Proof. vm_compute. reflexivity. Qed.

Lemma C6_replace_in_place_witness :
  let s := Parser.zero_sum_state in
  let replacedata := [1; 2; 3; 4; 5; 6; 7; 8; 9; 10; 11; 12; 13; 14; 15; 16] in
  exists f',
    Layout.partition_replace s 0 0 (Some replacedata) = Ok (Layout.set_in_file s f') /\
    length f' = length (Layout.in_file s) /\
    pread f' (52 + 0) (len replacedata) = replacedata /\
    forall i : nat,
      (Z.of_nat i < 52 + 0 \/ 52 + 0 + len replacedata <= Z.of_nat i) ->
      f' !! i = Layout.in_file s !! i.
Proof.
  cbv zeta.
  apply (C6_replace_in_place Parser.zero_sum_state 0 0
           [1; 2; 3; 4; 5; 6; 7; 8; 9; 10; 11; 12; 13; 14; 15; 16] 0 52 16);
    try reflexivity; try (vm_compute; congruence); lia.
Defined.

(** C6 as stated fails for a partition that is declared to end after
    the end of the file.  [main] accepts [overlong_hdr2], whose
    partition starts at 52 with the size 32; a replacement of 32 bytes
    has the size of the partition, takes the in-place path and is
    written from 52 on: the file grows from 68 to 84 bytes, while every
    table and the total size 68 stay as they were. *)
Lemma C6_in_place_replace_extends_file :
  let replacedata := replicate 32 7 in
  Parser.main_parse Parser.overlong_hdr2 = Ok Parser.overlong_state /\
  Layout.find_part_nr Parser.overlong_state 0 = Ok 0 /\
  Layout.item (Layout.part_size Parser.overlong_state) 0 = Ok (len replacedata + 0) /\
  Layout.partition_replace Parser.overlong_state 0 0 (Some replacedata)
    = Ok (Layout.set_in_file Parser.overlong_state
            (take 52 Parser.overlong_hdr2 ++ replacedata)) /\
  len Parser.overlong_hdr2 = 68 /\
  len (take 52 Parser.overlong_hdr2 ++ replacedata) = 84.
Proof.
  cbv zeta.
  split; [vm_compute; reflexivity|].
  split; [vm_compute; reflexivity|].
  split; [vm_compute; reflexivity|].
  split; [vm_compute; reflexivity|].
  split; vm_compute; reflexivity.
Qed.

(** ** Checksum repair *)

Section FixCRC.
Import Layout Parser.

(** The sample file is a well-formed HDR2 container with one partition
    of unknown kind. *)
Lemma zero_sum_hdr2_parse :
  exists s, main_parse zero_sum_hdr2 = Ok s /\
    FW_HDR2 s = 1 /\ partitions_count s = 1 /\
    part_startoffset s = [52] /\ part_size s = [16] /\
    part_type s = [Kunknown] /\ total_file_size s = len zero_sum_hdr2.
Proof. exists zero_sum_state. split; [vm_compute; reflexivity|]. vm_compute. auto 10. Qed.

(** C7, at the failing input: the sum over the sample file is 0 modulo
    2^16, so the engine returns 0x10000 and the first run stores the
    bytes 00 00 01 00 at 0x24.  The byte at 0x26 is part of the sum;
    the second run therefore stores FF FF 00 00, and a third run gives
    the result of the first again. *)
Theorem C7_fixCRC_twice_differs :
  let f1 := pwrite zero_sum_hdr2 0x24 [0; 0; 1; 0] in
  let f2 := pwrite zero_sum_hdr2 0x24 [255; 255; 0; 0] in
  Checksum.MemCheck_CalcCheckSum16Bit zero_sum_hdr2 0 (len zero_sum_hdr2) 0x24
    = Ok 0x10000 /\
  run_fixCRC zero_sum_hdr2 = Ok f1 /\
  run_fixCRC f1 = Ok f2 /\
  run_fixCRC f2 = Ok f1 /\
  f1 <> f2.
Proof.
  cbv zeta.
  split; [vm_compute; reflexivity|].
  split; [vm_compute; reflexivity|].
  split; [vm_compute; reflexivity|].
  split; [vm_compute; reflexivity|].
  vm_compute. discriminate.
Qed.

End FixCRC.

(** ** Exit status *)

Section ExitStatus.
Import Layout Parser Dispatcher.

Let run := main BCL1.no_lzma BCL1.no_zlib no_other.

(** C5, at the failing inputs.  A missing input file, an id that no
    table entry has, a partition kind that cannot be compressed and a
    recompressed bootloader that outgrows its declared size all end
    the process through [exit(0)]; only the unsupported compression
    algorithm ends it through [sys.exit(1)].  A successful compress
    run ends with status 0 as well. *)
Theorem C5_fatal_conditions_exit_0 :
  (* missing input file *)
  exit_status (run None OpInfo) = 0 /\
  (* id not found: no entry of the table has id 7 *)
  (let* s := main_parse zero_sum_hdr2 in find_part_nr s 7) = Ok (-1) /\
  exit_status (run (Some zero_sum_hdr2) (OpReplace 7 0 (Some [1; 2; 3]))) = 0 /\
  exit_status (run (Some zero_sum_hdr2) (OpCompress 7 (Some [1; 2; 3]))) = 0 /\
  (* unsupported partition type: partition 0 is of unknown kind *)
  (let* s := main_parse zero_sum_hdr2 in
   compress BCL1.no_lzma BCL1.no_zlib no_other s 0 (Some [1; 2; 3])) = Exit 0 /\
  exit_status (run (Some zero_sum_hdr2) (OpCompress 0 (Some [1; 2; 3]))) = 0 /\
  (* bootloader size limit exceeded: 12 raw bytes make a 29-byte block *)
  (let* s := main_parse sample_bootloader in
   compress_BCL_at BCL1.no_lzma BCL1.no_zlib s 0 0
     (Some [1; 2; 3; 4; 5; 6; 7; 8; 9; 10; 11; 12])) = Exit 0 /\
  exit_status (run (Some sample_bootloader)
                 (OpCompress 0 (Some [1; 2; 3; 4; 5; 6; 7; 8; 9; 10; 11; 12]))) = 0 /\
  (* missing uncompressed file *)
  exit_status (run (Some sample_bootloader) (OpCompress 0 None)) = 0 /\
  (* unsupported compression algorithm *)
  exit_status (run (Some rle_block) (OpCompress 0 (Some [1; 2; 3]))) = 1 /\
  (* success: 3 raw bytes fit *)
  (let* s := main_parse sample_bootloader in
   let* s' := compress_BCL_at BCL1.no_lzma BCL1.no_zlib s 0 0 (Some [1; 2; 3]) in
   Ok (len (in_file s'))) = Ok 84 /\
  exit_status (run (Some sample_bootloader) (OpCompress 0 (Some [1; 2; 3]))) = 0.
Proof.
  split; [vm_compute; reflexivity|].
  split; [vm_compute; reflexivity|].
  split; [vm_compute; reflexivity|].
  split; [vm_compute; reflexivity|].
  split; [vm_compute; reflexivity|].
  split; [vm_compute; reflexivity|].
  split; [vm_compute; reflexivity|].
  split; [vm_compute; reflexivity|].
  split; [vm_compute; reflexivity|].
  split; [vm_compute; reflexivity|].
  split; vm_compute; reflexivity.
Qed.

End ExitStatus.

(** ** Reads and writes at file positions *)

Section FileFacts.

Lemma pread_lookup f off n (i : nat) :
  pread f off n !! i =
  if decide (i < Z.to_nat n)%nat then f !! (Z.to_nat off + i)%nat else None.
Proof.
  unfold pread. destruct (decide _) as [H|H].
  - rewrite lookup_take_lt by lia. apply lookup_drop.
  - apply lookup_take_ge. lia.
Qed.

Lemma pwrite_length f off bs :
  bs <> [] ->
  length (pwrite f off bs) = Nat.max (length f) (Z.to_nat off + length bs).
Proof.
  intros Hbs. unfold pwrite. destruct bs as [|b bs]; [contradiction|].
  rewrite !length_app, length_take, length_replicate, length_drop. lia.
Qed.

Lemma pwrite_length_ge f off bs : (length f <= length (pwrite f off bs))%nat.
Proof.
  destruct bs as [|b bs]; [reflexivity|].
  rewrite pwrite_length by discriminate. lia.
Qed.

Lemma pwrite_lookup_before f off bs (i : nat) :
  (i < Z.to_nat off)%nat -> (i < length f)%nat -> pwrite f off bs !! i = f !! i.
Proof.
  intros Hi Hf. unfold pwrite. destruct bs as [|b bs]; [reflexivity|].
  rewrite lookup_app_l by (rewrite length_take; lia).
  apply lookup_take_lt. lia.
Qed.

Lemma pwrite_lookup_after f off bs (i : nat) :
  (Z.to_nat off + length bs <= i)%nat -> pwrite f off bs !! i = f !! i.
Proof.
  intros Hi. unfold pwrite. destruct bs as [|b bs]; [reflexivity|].
  set (bs' := b :: bs) in *.
  rewrite !app_assoc.
  destruct (decide (Z.to_nat off + length bs' <= length f)%nat) as [Hle|Hgt].
  - rewrite lookup_app_r
      by (rewrite !length_app, length_take, length_replicate; lia).
    rewrite lookup_drop. f_equal.
    rewrite !length_app, length_take, length_replicate. lia.
  - rewrite (lookup_ge_None_2 f) by lia.
    apply lookup_ge_None_2.
    rewrite !length_app, length_take, length_replicate, length_drop. lia.
Qed.

Lemma pwrite_lookup_in f off bs (i : nat) :
  (Z.to_nat off <= i < Z.to_nat off + length bs)%nat ->
  pwrite f off bs !! i = bs !! (i - Z.to_nat off)%nat.
Proof.
  intros Hi. unfold pwrite. destruct bs as [|b bs]; [simpl in Hi; lia|].
  set (bs' := b :: bs) in *.
  rewrite app_assoc.
  rewrite lookup_app_r by (rewrite length_app, length_take, length_replicate; lia).
  rewrite length_app, length_take, length_replicate.
  rewrite lookup_app_l by lia. f_equal. lia.
Qed.

Lemma pread_pwrite_same f off bs :
  0 <= off -> pread (pwrite f off bs) off (len bs) = bs.
Proof.
  intros Hoff. apply list_eq. intros i. rewrite pread_lookup.
  unfold len. rewrite Nat2Z.id.
  destruct (decide (i < length bs)%nat) as [Hi|Hi].
  - rewrite pwrite_lookup_in by lia. f_equal. lia.
  - symmetry. apply lookup_ge_None_2. lia.
Qed.

Lemma pread_pwrite_other f off bs off2 n :
  0 <= off -> 0 <= off2 -> 0 <= n -> off2 + n <= len f ->
  off2 + n <= off \/ off + len bs <= off2 ->
  pread (pwrite f off bs) off2 n = pread f off2 n.
Proof.
  unfold len. intros Hoff Hoff2 Hn Hin Hdis. apply list_eq. intros i.
  rewrite !pread_lookup.
  destruct (decide (i < Z.to_nat n)%nat) as [Hi|Hi]; [|reflexivity].
  destruct Hdis as [Hd|Hd].
  - apply pwrite_lookup_before; lia.
  - apply pwrite_lookup_after; lia.
Qed.

Lemma drop_pwrite_after f off bs k :
  (Z.to_nat off + length bs <= k)%nat -> drop k (pwrite f off bs) = drop k f.
Proof.
  intros Hk. apply list_eq. intros i. rewrite !lookup_drop.
  apply pwrite_lookup_after. lia.
Qed.

Lemma pread_app_l f g off n :
  0 <= off -> 0 <= n -> off + n <= len f -> pread (f ++ g) off n = pread f off n.
Proof.
  unfold len. intros Hoff Hn Hin. apply list_eq. intros i.
  rewrite !pread_lookup.
  destruct (decide (i < Z.to_nat n)%nat) as [Hi|Hi]; [|reflexivity].
  apply lookup_app_l. lia.
Qed.

Lemma pread_take f p off n :
  0 <= off -> 0 <= n -> off + n <= Z.of_nat p -> pread (take p f) off n = pread f off n.
Proof.
  intros Hoff Hn Hin. apply list_eq. intros i.
  rewrite !pread_lookup.
  destruct (decide (i < Z.to_nat n)%nat) as [Hi|Hi]; [|reflexivity].
  apply lookup_take_lt. lia.
Qed.

Lemma truncate_inside f pos :
  0 <= pos <= len f -> truncate f pos = take (Z.to_nat pos) f.
Proof.
  unfold len, truncate. intros H.
  replace (Z.to_nat pos - length f)%nat with 0%nat by lia.
  apply app_nil_r.
Qed.

Lemma pack_le_ok n x : 0 <= x < 256 ^ Z.of_nat n -> pack_le n x = Ok (le_bytes n x).
Proof.
  intros H. unfold pack_le.
  destruct (Z.leb_spec 0 x); [|lia].
  destruct (Z.ltb_spec x (256 ^ Z.of_nat n)); [|lia]. reflexivity.
Qed.

Lemma unpack_le_le_bytes n x :
  0 <= x < 256 ^ Z.of_nat n -> unpack_le n (le_bytes n x) = Ok x.
Proof.
  intros H. unfold unpack_le. rewrite le_bytes_length.
  destruct (decide (n = n)); [|contradiction].
  rewrite le_value_le_bytes by assumption. reflexivity.
Qed.

End FileFacts.

(** ** Layout manager: scenario S4 *)

Section ReplaceShrinks.
Import Layout Parser.

Lemma find_part_second id0 id1 id2 :
  id0 <> id1 -> find_part 3 [id0; id1; id2] id1 0 = Ok 1.
Proof.
  intros Hne. apply Z.eqb_neq in Hne.
  unfold find_part, item. change (Z.to_nat 0) with 0%nat.
  change (Z.to_nat (0 + 1)) with 1%nat. cbn [lookup list_lookup Z.ltb Z.compare bind].
  rewrite Hne. change (0 + 1 <? 0) with false. cbn [bind].
  rewrite Z.eqb_refl. reflexivity.
Qed.

(** C3, amended: in an HDR2 file with three partitions of sizes 1000,
    2000, 3000 at 64, 1064, 3064 and 6064 bytes in all, whose entries 0
    and 1 have different ids, replacing the partition of table entry 1
    by a 500-byte file at offset 0 succeeds and leaves: size of entry
    1 = 500, start of entry 2 = 1564, total size (variable, header
    field at 28, file length) = 4564, the new bytes at 1064..1563 (with
    the four bytes at 1084 set to the size 500 when entry 1 is a CKSM
    partition) and the old third partition right after them, from 1564
    to the end.  When the table lies between the 40-byte header and
    partition 1 (40 <= [NVTPACK_FW_HDR2_size] <= 1028), the table
    entries in the file hold the same values and the checksum field at
    0x24 keeps its old bytes: the operation recomputes no checksum. *)
Theorem C3_replace_shrinks s replacedata id0 id1 id2 :
  FW_HDR2 s = 1 -> partitions_count s = 3 ->
  part_startoffset s = [64; 1064; 3064] -> part_size s = [1000; 2000; 3000] ->
  part_id s = [id0; id1; id2] -> id0 <> id1 ->
  length (part_type s) = 3%nat ->
  0 <= NVTPACK_FW_HDR2_size s ->
  len (in_file s) = 6064 -> len replacedata = 500 ->
  exists s',
    partition_replace s id1 0 (Some replacedata) = Ok s' /\
    part_size s' = [1000; 500; 3000] /\
    part_startoffset s' = [64; 1064; 1564] /\
    total_file_size s' = 4564 /\
    len (in_file s') = 4564 /\
    rd_le (in_file s') 28 4 = Ok 4564 /\
    drop (Z.to_nat 1564) (in_file s') = drop (Z.to_nat 3064) (in_file s) /\
    (part_type s !! 1%nat <> Some Kcksm ->
     pread (in_file s') 1064 500 = replacedata) /\
    (part_type s !! 1%nat = Some Kcksm ->
     pread (in_file s') 1064 500
     = take 20 replacedata ++ [244; 1; 0; 0] ++ drop 24 replacedata) /\
    (40 <= NVTPACK_FW_HDR2_size s <= 1028 ->
     rd_le (in_file s') (NVTPACK_FW_HDR2_size s + 12 + 4) 4 = Ok 500 /\
     rd_le (in_file s') (NVTPACK_FW_HDR2_size s + 24) 4 = Ok 1564 /\
     pread (in_file s') 0x24 4 = pread (in_file s) 0x24 4).
Proof.
  destruct s as [F2 F1 FB cnt starts sizes ids types crcs calcs h hp tot orig cv names f].
  cbn [FW_HDR2 partitions_count part_startoffset part_size part_id part_type
       NVTPACK_FW_HDR2_size in_file].
  intros -> -> -> -> -> Hne Hty Hh Hf Hd.
  unfold partition_replace, find_part_nr.
  cbn [FW_HDR2 partitions_count part_startoffset part_size part_id part_type
       NVTPACK_FW_HDR2_size in_file].
  change (Z.to_nat 3) with 3%nat.
  rewrite find_part_second by assumption.
  cbn [bind]. 
  change (1 =? -1) with false. cbv iota.
  change (item [1000; 2000; 3000] 1) with (@Ok Z 2000).
  change (item [64; 1064; 3064] 1) with (@Ok Z 1064).
  cbn [bind]. rewrite Hd. change (500 + 0 =? 2000) with false. cbv iota.
  change (align_sizes 500 0) with (0, 500). cbv iota beta.
  change (1 =? 1) with true. cbv iota.
  change (1 + 1 <? 3) with true. cbv iota.
  change (item [64; 1064; 3064] (1 + 1)) with (@Ok Z 3064).
  cbn [bind]. change (read_to_end f 3064) with (@Ok (list Z) (drop (Z.to_nat 3064) f)).
  cbn [bind]. unfold size_diff.
  cbn [FW_HDR2 partitions_count part_startoffset part_size part_id part_type
       NVTPACK_FW_HDR2_size in_file].
  change (1 + 1 <? 3) with true. cbv iota.
  change (item [64; 1064; 3064] (1 + 1)) with (@Ok Z 3064).
  change (item [64; 1064; 3064] 1) with (@Ok Z 1064).
  cbn [bind].
  change (500 - (3064 - 1064)) with (-1500).
  change (500 - 0) with 500.
  change (pack_le 4 500) with (@Ok (list Z) [244; 1; 0; 0]).
  cbn [bind].
  change (h + 1 * 12 + 4 + 8) with (h + 1 * 12 + 4 + 8).
  replace (h + 1 * 12 + 4 + 8) with (h + 24) by lia.
  replace (h + 1 * 12 + 4) with (h + 16) by lia.
  unfold seek_write at 1. destruct (Z.ltb_spec (h + 16) 0); [lia|].
  cbn [bind]. set (f0 := pwrite f (h + 16) [244; 1; 0; 0]).
  change (set_item [1000; 2000; 3000] 1 500) with (@Ok (list Z) [1000; 500; 3000]).
  cbn [bind shift_entries].
  change (1 + 1 <? 3) with true. cbv iota.
  change (item [64; 1064; 3064] (1 + 1)) with (@Ok Z 3064).
  cbn [bind].
  change (pack_le 4 (3064 + -1500)) with (@Ok (list Z) [28; 6; 0; 0]).
  cbn [bind]. unfold seek_write at 1. destruct (Z.ltb_spec (h + 24) 0); [lia|].
  cbn [bind]. set (f1 := pwrite f0 (h + 24) [28; 6; 0; 0]).
  change (set_item [64; 1064; 3064] (1 + 1) (3064 + -1500))
    with (@Ok (list Z) [64; 1064; 1564]).
  cbn [bind]. change (1 + 1 + 1 <? 3) with false. cbv iota. cbn [bind].
  unfold write_body. change (1064 + 0 <? 0) with false. cbv iota.
  change (Z.to_nat 0) with 0%nat. cbn [replicate default app].
  change (1064 + 0) with 1064.
  cbn [bind].
  unfold id.
  set (body := replacedata ++ drop (Z.to_nat 3064) f).
  assert (Hbody : len body = 3500).
  { subst body. unfold len in *. rewrite length_app, length_drop. lia. }
  assert (Hf1 : 6064 <= len f1).
  { subst f1 f0. pose proof (pwrite_length_ge f (h + 16) [244; 1; 0; 0]).
    pose proof (pwrite_length_ge (pwrite f (h + 16) [244; 1; 0; 0]) (h + 24) [28; 6; 0; 0]).
    unfold len in *. lia. }
  assert (Hf2 : truncate (pwrite f1 1064 body) (1064 + len body)
                = take (Z.to_nat 1064) f1 ++ body).
  { unfold len in *. rewrite pwrite_inside by lia.
    rewrite truncate_inside.
    - rewrite app_assoc. apply take_app_length'.
      rewrite length_app, length_take. lia.
    - unfold len. rewrite !length_app, length_take, length_drop. lia. }
  rewrite Hf2. set (f2 := take (Z.to_nat 1064) f1 ++ body).
  assert (Hlen2 : len f2 = 4564).
  { subst f2. unfold len in *. rewrite length_app, length_take. lia. }
  rewrite Hlen2.
  change (pack_le 4 4564) with (@Ok (list Z) [212; 17; 0; 0]).
  cbn [bind]. unfold seek_write at 1. change (28 <? 0) with false. cbv iota.
  cbn [bind]. set (f3 := pwrite f2 28 [212; 17; 0; 0]).
  assert (Hlen3 : len f3 = 4564).
  { subst f3. unfold len in *. rewrite pwrite_length by discriminate.
    cbn [length]. lia. }
  assert (Hf0 : 6064 <= len f0).
  { subst f0. pose proof (pwrite_length_ge f (h + 16) [244; 1; 0; 0]).
    unfold len in *. lia. }
  assert (Ha : pread f3 28 4 = [212; 17; 0; 0])
    by (apply (pread_pwrite_same f2 28 [212; 17; 0; 0]); lia).
  assert (Htail : drop (Z.to_nat 1564) f3 = drop (Z.to_nat 3064) f).
  { subst f3. rewrite drop_pwrite_after by (cbn [length]; lia).
    subst f2 body. rewrite app_assoc. apply drop_app_length'.
    unfold len in *. rewrite length_app, length_take. lia. }
  assert (Hfields : 40 <= h <= 1028 ->
            pread f3 (h + 16) 4 = [244; 1; 0; 0] /\
            pread f3 (h + 24) 4 = [28; 6; 0; 0] /\
            pread f3 36 4 = pread f 36 4).
  { intros Hh'. subst f3. unfold len in *.
    rewrite !(pread_pwrite_other f2 28) by (unfold len; cbn [length]; lia).
    subst f2.
    rewrite !pread_app_l by (unfold len; rewrite ?length_take; lia).
    rewrite !pread_take by lia.
    subst f1. split; [|split].
    - rewrite pread_pwrite_other by (unfold len; cbn [length]; lia).
      apply (pread_pwrite_same f (h + 16) [244; 1; 0; 0]). lia.
    - apply (pread_pwrite_same f0 (h + 24) [28; 6; 0; 0]). lia.
    - rewrite pread_pwrite_other by (unfold len; cbn [length]; lia).
      subst f0. apply pread_pwrite_other; unfold len; cbn [length]; lia. }
  assert (Hnew : pread f3 1064 500 = replacedata).
  { subst f3. rewrite pread_pwrite_other by (unfold len in *; cbn [length]; lia).
    subst f2 body. unfold pread, len in *.
    rewrite drop_app_length' by (rewrite length_take; lia).
    apply take_app_length'. lia. }
  unfold fix_cksm_size.
  cbn [part_type part_startoffset set_total_file_size set_part_startoffset set_part_size].
  destruct types as [|t0 [|t1 [|t2 [|t3 types]]]]; try discriminate.
  change (item [t0; t1; t2] 1) with (@Ok kind t1). cbn [bind].
  change (item [64; 1064; 1564] 1) with (@Ok Z 1064).
  change (pack_le 4 500) with (@Ok (list Z) [244; 1; 0; 0]).
  cbn [bind]. unfold seek_write. change (1064 + 20 <? 0) with false. cbv iota.
  change ([t0; t1; t2] !! 1%nat) with (Some t1).
  destruct (bool_decide_reflect (t1 = Kcksm)) as [Ek|Ek];
    cbn [bind]; eexists; (split; [reflexivity|]);
    cbn [part_size part_startoffset total_file_size in_file set_in_file
         set_total_file_size set_part_startoffset set_part_size];
    (split; [reflexivity|]); (split; [reflexivity|]); (split; [reflexivity|]).
  - set (f4 := pwrite f3 (1064 + 20) [244; 1; 0; 0]).
    assert (Hother : forall off, 0 <= off -> off + 4 <= 1084 ->
              pread f4 off 4 = pread f3 off 4)
      by (intros off Ho1 Ho2; apply pread_pwrite_other; unfold len in *;
          cbn [length]; lia).
    split; [|split; [|split; [|split; [|split]]]].
    + subst f4. unfold len in *. rewrite pwrite_length by discriminate.
      cbn [length]. lia.
    + unfold rd_le. change (28 <? 0) with false. cbv iota.
      change (Z.of_nat 4) with 4. rewrite Hother, Ha by lia. reflexivity.
    + subst f4. rewrite drop_pwrite_after by (cbn [length]; lia). exact Htail.
    + intros Hnk. exfalso. apply Hnk. rewrite Ek. reflexivity.
    + intros _. apply list_eq. intros i. rewrite pread_lookup.
      assert (Hr : forall j : nat, (j < 500)%nat ->
                f3 !! (Z.to_nat 1064 + j)%nat = replacedata !! j).
      { intros j Hj. transitivity (pread f3 1064 500 !! j); [|rewrite Hnew; reflexivity].
        rewrite pread_lookup, decide_True by lia. reflexivity. }
      unfold len in Hd.
      destruct (decide (i < Z.to_nat 500)%nat) as [Hi|Hi].
      * destruct (decide (i < 20)%nat) as [H20|H20].
        { subst f4. rewrite pwrite_lookup_before by (unfold len in *; lia).
          rewrite Hr by lia.
          rewrite lookup_app_l by (rewrite length_take; lia).
          symmetry. apply lookup_take_lt. lia. }
        rewrite lookup_app_r by (rewrite length_take; lia).
        rewrite length_take. replace (20 `min` length replacedata)%nat with 20%nat by lia.
        destruct (decide (i < 24)%nat) as [H24|H24].
        { subst f4. rewrite pwrite_lookup_in by (cbn [length]; lia).
          replace (Z.to_nat 1064 + i - Z.to_nat (1064 + 20))%nat with (i - 20)%nat by lia.
          destruct (i - 20)%nat as [|[|[|[|k]]]] eqn:Ei; try reflexivity. lia. }
        subst f4. rewrite pwrite_lookup_after by (cbn [length]; lia).
        rewrite Hr by lia.
        change (244 :: 1 :: 0 :: 0 :: drop 24 replacedata)
          with ([244; 1; 0; 0] ++ drop 24 replacedata).
        rewrite lookup_app_r by (cbn [length]; lia).
        rewrite lookup_drop. f_equal. cbn [length]. lia.
      * symmetry. apply lookup_ge_None_2.
        rewrite length_app, length_take. cbn [length]. rewrite length_drop. lia.
    + intros Hh'. destruct (Hfields Hh') as (H1 & H2 & H3).
      unfold rd_le. replace (h + 12 + 4) with (h + 16) by lia.
      destruct (Z.ltb_spec (h + 16) 0); [lia|].
      destruct (Z.ltb_spec (h + 24) 0); [lia|].
      change (Z.of_nat 4) with 4. rewrite !Hother, H1, H2, H3 by lia.
      repeat split; reflexivity.
  - split; [exact Hlen3|]. split; [|split; [|split; [|split]]].
    + unfold rd_le. change (28 <? 0) with false. cbv iota.
      change (Z.of_nat 4) with 4. rewrite Ha. reflexivity.
    + exact Htail.
    + intros _. exact Hnew.
    + intros [= Hk]. contradiction.
    + intros Hh'. destruct (Hfields Hh') as (H1 & H2 & H3).
      unfold rd_le. replace (h + 12 + 4) with (h + 16) by lia.
      destruct (Z.ltb_spec (h + 16) 0); [lia|].
      destruct (Z.ltb_spec (h + 24) 0); [lia|].
      change (Z.of_nat 4) with 4. rewrite H1, H2, H3.
      repeat split; reflexivity.
Qed.

End ReplaceShrinks.

Lemma s4_state_parsed : Parser.main_parse Parser.s4_file = Ok Parser.s4_state.
Proof. vm_compute. reflexivity. Qed.

Lemma C3_replace_shrinks_witness :
  exists s',
    Layout.partition_replace Parser.s4_state 1 0 (Some (replicate (Z.to_nat 500) 1)) = Ok s' /\
    Layout.part_size s' = [1000; 500; 3000] /\
    Layout.part_startoffset s' = [64; 1064; 1564] /\
    Layout.total_file_size s' = 4564 /\
    len (Layout.in_file s') = 4564 /\
    Parser.rd_le (Layout.in_file s') 28 4 = Ok 4564 /\
    drop (Z.to_nat 1564) (Layout.in_file s')
      = drop (Z.to_nat 3064) (Layout.in_file Parser.s4_state) /\
    (Layout.part_type Parser.s4_state !! 1%nat <> Some Layout.Kcksm ->
     pread (Layout.in_file s') 1064 500 = replicate (Z.to_nat 500) 1) /\
    (Layout.part_type Parser.s4_state !! 1%nat = Some Layout.Kcksm ->
     pread (Layout.in_file s') 1064 500
     = take 20 (replicate (Z.to_nat 500) 1) ++ [244; 1; 0; 0]
       ++ drop 24 (replicate (Z.to_nat 500) 1)) /\
    (40 <= Layout.NVTPACK_FW_HDR2_size Parser.s4_state <= 1028 ->
     Parser.rd_le (Layout.in_file s')
       (Layout.NVTPACK_FW_HDR2_size Parser.s4_state + 12 + 4) 4 = Ok 500 /\
     Parser.rd_le (Layout.in_file s')
       (Layout.NVTPACK_FW_HDR2_size Parser.s4_state + 24) 4 = Ok 1564 /\
     pread (Layout.in_file s') 0x24 4 = pread (Layout.in_file Parser.s4_state) 0x24 4).
Proof.
  apply (C3_replace_shrinks Parser.s4_state (replicate (Z.to_nat 500) 1) 0 1 2);
    try reflexivity; vm_compute; congruence.
Defined.

(** C3 as stated fails on the checksums.  The file of the scenario
    holds a valid HDR2 checksum, 0xE32A; after the replacement the
    field still holds 0xE32A while the engine gives 0x607B for the new
    contents, and [main] exits right after [partition_replace]. *)
Lemma C3_checksum_stale_after_replace :
  (let* s := Parser.main_parse Parser.s4_file in
   let* before :=
     Checksum.MemCheck_CalcCheckSum16Bit (Layout.in_file s) 0
       (Layout.total_file_size s) 0x24 in
   let* stored_before := Parser.rd_le (Layout.in_file s) 0x24 2 in
   let* s' := Layout.partition_replace s 1 0 (Some (replicate (Z.to_nat 500) 1)) in
   let* after :=
     Checksum.MemCheck_CalcCheckSum16Bit (Layout.in_file s') 0
       (Layout.total_file_size s') 0x24 in
   let* stored_after := Parser.rd_le (Layout.in_file s') 0x24 2 in
   Ok (stored_before, before, stored_after, after))
  = Ok (0xE32A, 0xE32A, 0xE32A, 0x607B) /\
  Dispatcher.main BCL1.no_lzma BCL1.no_zlib Dispatcher.no_other (Some Parser.s4_file)
    (Dispatcher.OpReplace 1 0 (Some (replicate (Z.to_nat 500) 1))) = Exit 0.
Proof. split; vm_compute; reflexivity. Qed.

(** ** Variable-length fields *)

Section VarintFacts.
Import BCL1.

Lemma land_shiftl_low y d k :
  0 <= k -> 0 <= d < 2 ^ k -> Z.land (Z.shiftl y k) d = 0.
Proof.
  intros Hk Hd. apply Z.bits_inj'. intros n Hn.
  rewrite Z.land_spec, Z.bits_0.
  destruct (Z.lt_ge_cases n k).
  - rewrite Z.shiftl_spec_low by assumption. reflexivity.
  - destruct (Z.eq_dec d 0) as [->|Hd0]; [rewrite Z.bits_0; apply andb_false_r|].
    rewrite (Z.bits_above_log2 d n); [apply andb_false_r | lia |].
    apply Z.log2_lt_pow2; [lia|].
    apply Z.lt_le_trans with (2 ^ k); [lia|].
    apply Z.pow_le_mono_r; lia.
Qed.

Lemma lor_shiftl_add y d k :
  0 <= k -> 0 <= d < 2 ^ k -> Z.lor (Z.shiftl y k) d = y * 2 ^ k + d.
Proof.
  intros Hk Hd. rewrite <- Z.shiftl_mul_pow2 by assumption.
  rewrite <- Z.lxor_lor by (apply land_shiftl_low; assumption).
  symmetry. apply Z.add_nocarry_lxor. apply land_shiftl_low; assumption.
Qed.

Lemma land_7f x : Z.land x 0x7f = x mod 128.
Proof. change 0x7f with (Z.ones 7). apply Z.land_ones. lia. Qed.

Lemma land_ff x : Z.land x 0xFF = x mod 256.
Proof. change 0xFF with (Z.ones 8). apply Z.land_ones. lia. Qed.

Lemma testbit_above y n :
  0 <= y < 2 ^ n -> forall i, n <= i -> Z.testbit y i = false.
Proof.
  intros Hy i Hi.
  destruct (Z.eq_dec y 0) as [->|]; [apply Z.bits_0|].
  assert (0 <= n) by (destruct (Z.lt_ge_cases n 0); [rewrite Z.pow_neg_r in Hy; lia | lia]).
  apply Z.bits_above_log2; [lia|].
  apply Z.log2_lt_pow2; [lia|].
  apply Z.lt_le_trans with (2 ^ n); [lia|]. apply Z.pow_le_mono_r; lia.
Qed.

(** Masking the [m] bits above bit [k] of a value of [k + m] bits. *)
Lemma land_high y k m :
  0 <= k -> 0 <= m -> 0 <= y < 2 ^ (k + m) ->
  Z.land y (Z.shiftl (Z.ones m) k) = (y / 2 ^ k) * 2 ^ k.
Proof.
  intros Hk Hm Hy.
  rewrite <- Z.shiftl_mul_pow2, <- Z.shiftr_div_pow2 by lia.
  apply Z.bits_inj'. intros n Hn. rewrite Z.land_spec.
  destruct (Z.lt_ge_cases n k).
  - rewrite !Z.shiftl_spec_low by assumption. apply andb_false_r.
  - rewrite !Z.shiftl_spec_high, Z.shiftr_spec by lia.
    replace (n - k + k) with n by lia.
    destruct (Z.lt_ge_cases (n - k) m).
    + rewrite Z.ones_spec_low by lia. apply andb_true_r.
    + rewrite Z.ones_spec_high by lia.
      rewrite (testbit_above y (k + m)) by (assumption || lia). reflexivity.
Qed.

Lemma high_test y k m :
  0 <= k -> 0 <= m -> 0 <= y < 2 ^ (k + m) ->
  (Z.land y (Z.shiftl (Z.ones m) k) =? 0) = (y <? 2 ^ k).
Proof.
  intros Hk Hm Hy. rewrite land_high by assumption.
  assert (0 < 2 ^ k) by (apply Z.pow_pos_nonneg; lia).
  destruct (Z.ltb_spec y (2 ^ k)).
  - rewrite Z.div_small by lia. reflexivity.
  - apply Z.eqb_neq.
    assert (1 <= y / 2 ^ k) by (apply Z.div_le_lower_bound; lia). nia.
Qed.

(** The test [y & 0xfe000000 != 0] on a 32-bit value. *)
Lemma high_bits_test y :
  0 <= y < 2 ^ 32 -> (Z.land y 0xfe000000 =? 0) = (y <? 2 ^ 25).
Proof. intros Hy. apply (high_test y 25 7); [lia | lia | exact Hy]. Qed.

(** The test [(b & 0x80) != 0] on a byte. *)
Lemma continuation_test b :
  0 <= b < 256 -> (Z.land b 0x80 =? 0) = (b <? 128).
Proof. intros Hb. apply (high_test b 7 1); [lia | lia | exact Hb]. Qed.

Lemma lor_80 d : 0 <= d < 128 -> Z.lor d 0x80 = d + 128.
Proof.
  intros Hd. change (Z.lor d 0x80) with (Z.lor d (Z.shiftl 1 7)). rewrite Z.lor_comm.
  rewrite lor_shiftl_add by (change (2 ^ 7) with 128; lia).
  change (2 ^ 7) with 128. lia.
Qed.


Lemma varint_bytes_length n x : length (varint_bytes n x) = n.
Proof. induction n as [|n IH]; cbn [varint_bytes length]; congruence. Qed.

Lemma varint_bytes_ok n x : bytes_ok (varint_bytes n x).
Proof.
  induction n as [|n IH]; cbn [varint_bytes]; constructor; [|exact IH].
  pose proof (Z.mod_pos_bound (x / 128 ^ Z.of_nat n) 128 ltac:(lia)).
  unfold byte_ok. destruct (n =? 0)%nat; lia.
Qed.

Lemma be_value_cons b l : be_value (b :: l) = b * 256 ^ len l + be_value l.
Proof. change (b :: l) with ([b] ++ l). rewrite be_value_app. reflexivity. Qed.

Lemma be_value_bound l : bytes_ok l -> 0 <= be_value l < 256 ^ len l.
Proof.
  induction 1 as [|b l Hb Hl IH].
  - unfold be_value, len. simpl. lia.
  - rewrite be_value_cons. unfold len in *. cbn [length].
    rewrite Nat2Z.inj_succ, Z.pow_succ_r by lia.
    unfold byte_ok in Hb. nia.
Qed.

(** The accumulation loop builds the big-endian value of the bytes. *)
Lemma varint_buf_spec x : forall (n fuel : nat) buf,
  (n <= fuel)%nat ->
  varint_buf fuel x (Z.of_nat n - 1) buf
  = buf * 256 ^ Z.of_nat n + be_value (varint_bytes n x).
Proof.
  induction n as [|n IH]; intros fuel buf Hf.
  - destruct fuel; cbn [varint_buf varint_bytes]; unfold be_value; simpl; lia.
  - destruct fuel as [|fuel]; [lia|].
    cbn [varint_buf varint_bytes].
    destruct (Z.geb_spec (Z.of_nat (S n) - 1) 0); [|lia].
    replace (Z.of_nat (S n) - 1 - 1) with (Z.of_nat n - 1) by lia.
    replace (Z.of_nat (S n) - 1) with (Z.of_nat n) by lia.
    rewrite IH by lia.
    rewrite be_value_cons. unfold len. rewrite varint_bytes_length.
    rewrite Nat2Z.inj_succ, Z.pow_succ_r by lia.
    rewrite land_7f, Z.shiftr_div_pow2 by lia.
    replace (2 ^ (Z.of_nat n * 7)) with (128 ^ Z.of_nat n)
      by (rewrite Z.mul_comm, Z.pow_mul_r by lia; reflexivity).
    pose proof (Z.mod_pos_bound (x / 128 ^ Z.of_nat n) 128 ltac:(lia)) as Hd.
    set (d := (x / 128 ^ Z.of_nat n) mod 128) in *.
    assert (Hb : (if Z.of_nat n >? 0 then Z.lor d 128 else d)
                 = (if (n =? 0)%nat then d else d + 128)).
    { destruct n; [reflexivity|].
      destruct (Z.gtb_spec (Z.of_nat (S n)) 0); [|lia].
      cbn [Nat.eqb]. apply lor_80. assumption. }
    rewrite Hb.
    set (b := if (n =? 0)%nat then d else d + 128).
    assert (0 <= b < 256) by (subst b; destruct (n =? 0)%nat; lia).
    rewrite (lor_shiftl_add buf b 8) by (change (2 ^ 8) with 256; lia).
    change (2 ^ 8) with 256. lia.
Qed.

(** The write loop emits the bytes of a big-endian value, most
    significant first, whatever lies above them in [buf]. *)
Lemma varint_write_spec : forall bs (fuel : nat) hi,
  bytes_ok bs -> (length bs <= fuel)%nat -> 0 <= hi ->
  varint_write fuel (hi * 256 ^ len bs + be_value bs) (len bs) = bs.
Proof.
  induction bs as [|b bs IH]; intros fuel hi Hok Hf Hhi.
  - destruct fuel; reflexivity.
  - destruct fuel as [|fuel]; [simpl in Hf; lia|].
    inversion Hok as [|? ? Hb Hbs]; subst.
    cbn [varint_write].
    unfold len in *. cbn [length] in *.
    destruct (Z.gtb_spec (Z.of_nat (S (length bs))) 0); [|lia].
    replace (Z.of_nat (S (length bs)) - 1) with (Z.of_nat (length bs)) by lia.
    pose proof (be_value_bound bs Hbs) as Hbv. unfold len in Hbv.
    rewrite be_value_cons. unfold len.
    rewrite Nat2Z.inj_succ, Z.pow_succ_r by lia.
    rewrite land_ff, Z.shiftr_div_pow2 by lia.
    replace (2 ^ (8 * Z.of_nat (length bs))) with (256 ^ Z.of_nat (length bs))
      by (rewrite Z.pow_mul_r by lia; reflexivity).
    set (P := 256 ^ Z.of_nat (length bs)) in *.
    assert (HP : 0 < P) by (apply Z.pow_pos_nonneg; lia).
    assert (Hq : (hi * (256 * P) + (b * P + be_value bs)) / P = hi * 256 + b).
    { symmetry. apply (Z.div_unique_pos _ _ _ (be_value bs)); lia. }
    rewrite Hq.
    unfold byte_ok in Hb.
    replace ((hi * 256 + b) mod 256) with b
      by (apply (Z.mod_unique_pos _ _ hi); lia).
    f_equal.
    replace (hi * (256 * P) + (b * P + be_value bs))
      with ((hi * 256 + b) * P + be_value bs) by lia.
    apply IH; [assumption | lia | lia].
Qed.

Lemma varint_as_bytes x :
  (1 <= Z.to_nat (varint_num_bytes x) <= 5)%nat ->
  varint x = varint_bytes (Z.to_nat (varint_num_bytes x)) x.
Proof.
  intros Hn. unfold varint.
  set (n := Z.to_nat (varint_num_bytes x)) in *.
  replace (varint_num_bytes x) with (Z.of_nat n) by lia.
  rewrite varint_buf_spec by lia.
  rewrite <- (varint_bytes_length n x) at 3.
  rewrite <- (varint_bytes_length n x) at 1.
  apply (varint_write_spec (varint_bytes n x) 5 0).
  - apply varint_bytes_ok.
  - rewrite varint_bytes_length. lia.
  - lia.
Qed.

Lemma varint_num_bytes_spec x :
  0 <= x < 2 ^ 35 ->
  1 <= varint_num_bytes x <= 5 /\ x < 128 ^ varint_num_bytes x.
Proof.
  intros Hx. unfold varint_num_bytes.
  rewrite Z.shiftr_div_pow2 by lia. change (2 ^ 3) with 8.
  set (y := x / 8).
  assert (Hy : 0 <= y < 2 ^ 32).
  { subst y. split; [apply Z.div_pos; lia|].
    apply Z.div_lt_upper_bound; [lia|]. change (8 * 2 ^ 32) with (2 ^ 35). lia. }
  assert (Hxy : 8 * y <= x < 8 * y + 8).
  { subst y. pose proof (Z.div_mod x 8 ltac:(lia)).
    pose proof (Z.mod_pos_bound x 8 ltac:(lia)). lia. }
  change (2 ^ 32) with 4294967296 in *. change (2 ^ 35) with 34359738368 in *.
  cbn [num_bytes_loop]. change (5 >=? 2) with true. cbv iota.
  rewrite high_bits_test by (change (2 ^ 32) with 4294967296; lia).
  change (2 ^ 25) with 33554432.
  destruct (Z.ltb_spec y 33554432); cbn [negb];
    [|split; [lia | change (128 ^ 5) with 34359738368; lia]].
  change (5 - 1 >=? 2) with true. cbv iota.
  rewrite Z.shiftl_mul_pow2 by lia. change (2 ^ 7) with 128.
  rewrite high_bits_test by (change (2 ^ 32) with 4294967296; lia).
  change (2 ^ 25) with 33554432.
  destruct (Z.ltb_spec (y * 128) 33554432); cbn [negb];
    [|split; [lia | change (128 ^ (5 - 1)) with 268435456; lia]].
  change (5 - 1 - 1 >=? 2) with true. cbv iota.
  rewrite Z.shiftl_mul_pow2 by lia. change (2 ^ 7) with 128.
  rewrite high_bits_test by (change (2 ^ 32) with 4294967296; lia).
  change (2 ^ 25) with 33554432.
  destruct (Z.ltb_spec (y * 128 * 128) 33554432); cbn [negb];
    [|split; [lia | change (128 ^ (5 - 1 - 1)) with 2097152; lia]].
  change (5 - 1 - 1 - 1 >=? 2) with true. cbv iota.
  rewrite Z.shiftl_mul_pow2 by lia. change (2 ^ 7) with 128.
  rewrite high_bits_test by (change (2 ^ 32) with 4294967296; lia).
  change (2 ^ 25) with 33554432.
  destruct (Z.ltb_spec (y * 128 * 128 * 128) 33554432); cbn [negb];
    [|split; [lia | change (128 ^ (5 - 1 - 1 - 1)) with 16384; lia]].
  split; [lia | change (128 ^ (5 - 1 - 1 - 1 - 1)) with 128; lia].
Qed.

(** The field as the encoder writes it: the base-128 digits of [x],
    most significant first, the high bit set on all but the last. *)
Lemma varint_bytes_of x :
  0 <= x < 2 ^ 35 ->
  exists n : nat,
    (1 <= n <= 5)%nat /\ x < 128 ^ Z.of_nat n /\ varint x = varint_bytes n x.
Proof.
  intros Hx. destruct (varint_num_bytes_spec x Hx) as [Hn Hlt].
  exists (Z.to_nat (varint_num_bytes x)).
  rewrite Z2Nat.id by lia. repeat split; try lia.
  apply varint_as_bytes. lia.
Qed.

(** The reading loop on the rest of a field. *)
Lemma read_varint_loop_bytes x rest : forall (n : nat) b y cnt,
  0 <= b < 256 -> 0 <= y ->
  (b < 128 <-> n = 0%nat) ->
  read_varint_loop (varint_bytes n x ++ rest) b y cnt
  = Ok (y * 128 ^ Z.of_nat n + x mod 128 ^ Z.of_nat n, cnt + Z.of_nat n, rest).
Proof.
  induction n as [|n IH]; intros b y cnt Hb Hy Hbn.
  - cbn [varint_bytes app].
    assert (Hlt : b < 128) by (apply Hbn; reflexivity).
    destruct rest as [|r rest]; cbn [read_varint_loop];
      rewrite (continuation_test b Hb);
      (destruct (Z.ltb_spec b 128); [|lia]); cbn [negb];
      rewrite Z.mod_1_r; change (Z.of_nat 0) with 0; rewrite Z.pow_0_r;
      (replace (y * 1 + 0) with y by lia); (replace (cnt + 0) with cnt by lia);
      reflexivity.
  - cbn [varint_bytes app read_varint_loop].
    rewrite (continuation_test b Hb).
    destruct (Z.ltb_spec b 128); [assert (S n = 0%nat) by (apply Hbn; assumption); lia|].
    cbn [negb].
    pose proof (Z.mod_pos_bound (x / 128 ^ Z.of_nat n) 128 ltac:(lia)) as Hd.
    set (d := (x / 128 ^ Z.of_nat n) mod 128) in *.
    set (b' := if (n =? 0)%nat then d else d + 128).
    assert (Hb' : 0 <= b' < 256) by (subst b'; destruct (n =? 0)%nat; lia).
    assert (Hd' : Z.land b' 127 = d).
    { rewrite land_7f. subst b'. destruct (n =? 0)%nat.
      - apply Z.mod_small. lia.
      - symmetry. apply (Z.mod_unique_pos _ _ 1); lia. }
    rewrite Hd'.
    rewrite (lor_shiftl_add y d 7) by (change (2 ^ 7) with 128; lia).
    change (2 ^ 7) with 128.
    rewrite IH.
    + assert (HP : 0 < 128 ^ Z.of_nat n) by (apply Z.pow_pos_nonneg; lia).
      assert (Hv : (y * 128 + d) * 128 ^ Z.of_nat n + x mod 128 ^ Z.of_nat n
                   = y * 128 ^ Z.of_nat (S n) + x mod 128 ^ Z.of_nat (S n)).
      { rewrite Nat2Z.inj_succ, Z.pow_succ_r by lia.
        rewrite (Z.mul_comm 128 (128 ^ Z.of_nat n)).
        rewrite (Z.rem_mul_r x (128 ^ Z.of_nat n) 128) by lia.
        fold d. lia. }
      rewrite Hv. replace (cnt + 1 + Z.of_nat n) with (cnt + Z.of_nat (S n)) by lia.
      reflexivity.
    + assumption.
    + lia.
    + subst b'. destruct n; cbn [Nat.eqb]; split; intros; lia.
Qed.

(** Reading back a field the encoder wrote. *)
Lemma read_varint_varint x rest :
  0 <= x < 2 ^ 35 ->
  exists b bs,
    varint x = b :: bs /\ 0 <= b < 256 /\ (0 < x -> b <> 0) /\
    read_varint (bs ++ rest) b = Ok (x, len (varint x), rest).
Proof.
  intros Hx. destruct (varint_bytes_of x Hx) as (n & Hn & Hlt & E).
  destruct n as [|n]; [lia|].
  rewrite E. cbn [varint_bytes].
  pose proof (Z.mod_pos_bound (x / 128 ^ Z.of_nat n) 128 ltac:(lia)) as Hd.
  set (d := (x / 128 ^ Z.of_nat n) mod 128) in *.
  set (b := if (n =? 0)%nat then d else d + 128).
  assert (Hb : 0 <= b < 256) by (subst b; destruct (n =? 0)%nat; lia).
  exists b, (varint_bytes n x). split; [reflexivity|]. split; [assumption|]. split.
  - intros Hpos. subst b. destruct n; cbn [Nat.eqb]; [|lia].
    subst d. change (128 ^ Z.of_nat 0) with 1 in *. rewrite Z.div_1_r.
    change (128 ^ Z.of_nat 1) with 128 in Hlt. rewrite Z.mod_small; lia.
  - unfold read_varint.
    assert (Hd' : Z.land b 127 = d).
    { rewrite land_7f. subst b. destruct (n =? 0)%nat.
      - apply Z.mod_small. lia.
      - symmetry. apply (Z.mod_unique_pos _ _ 1); lia. }
    rewrite Hd'. change (Z.lor (Z.shiftl 0 7) d) with (Z.lor 0 d).
    rewrite Z.lor_0_l.
    rewrite read_varint_loop_bytes.
    + assert (Hv : d * 128 ^ Z.of_nat n + x mod 128 ^ Z.of_nat n = x).
      { rewrite Nat2Z.inj_succ, Z.pow_succ_r in Hlt by lia.
        assert (HP : 0 < 128 ^ Z.of_nat n) by (apply Z.pow_pos_nonneg; lia).
        pose proof (Z.rem_mul_r x (128 ^ Z.of_nat n) 128 ltac:(lia) ltac:(lia)) as Hr.
        fold d in Hr. rewrite (Z.mul_comm (128 ^ Z.of_nat n) 128) in Hr.
        rewrite Z.mod_small in Hr by lia. lia. }
      rewrite Hv. unfold len. cbn [length]. rewrite varint_bytes_length.
      replace (0 + 1 + Z.of_nat n) with (Z.of_nat (S n)) by lia. reflexivity.
    + assumption.
    + lia.
    + subst b. destruct n; cbn [Nat.eqb]; split; intros; lia.
Qed.

End VarintFacts.

(** ** LZ77 decoder on the encoder's tokens *)

Section DecoderFacts.
Import BCL1.

Variable d : list Z.
Hypothesis d_ok : bytes_ok d.
Hypothesis d_small : len d < BUFFER_LIMIT.

Lemma byte_at_lookup i : 0 <= i < len d -> d !! Z.to_nat i = Some (byte_at d i).
Proof.
  unfold len, byte_at. intros Hi.
  apply list_lookup_lookup_total_lt. lia.
Qed.

Lemma take_byte_at pos :
  0 <= pos < len d ->
  take (Z.to_nat pos) d ++ [byte_at d pos] = take (Z.to_nat (pos + 1)) d.
Proof.
  intros Hp. replace (Z.to_nat (pos + 1)) with (S (Z.to_nat pos)) by lia.
  symmetry. apply take_S_r. apply byte_at_lookup. assumption.
Qed.

Lemma copy_history_match offset : forall (n : nat) pos,
  0 < offset <= pos -> pos + Z.of_nat n <= len d ->
  (forall k, 0 <= k < Z.of_nat n -> byte_at d (pos + k) = byte_at d (pos - offset + k)) ->
  copy_history n (take (Z.to_nat pos) d) pos offset
  = Ok (take (Z.to_nat (pos + Z.of_nat n)) d, pos + Z.of_nat n).
Proof.
  induction n as [|n IH]; intros pos Ho Hlen Hm.
  - cbn [copy_history]. rewrite Z.add_0_r. reflexivity.
  - cbn [copy_history]. unfold py_index.
    assert (Hl : len (take (Z.to_nat pos) d) = pos).
    { unfold len in *. rewrite length_take. lia. }
    rewrite Hl.
    destruct (Z.leb_spec 0 (pos - offset)); [|lia].
    destruct (Z.ltb_spec (pos - offset) pos); [|lia].
    cbn [andb bind].
    assert (Hx : take (Z.to_nat pos) d !!! Z.to_nat (pos - offset) = byte_at d pos).
    { rewrite lookup_total_take.
      destruct (decide (Z.to_nat (pos - offset) < Z.to_nat pos)%nat); [|lia].
      pose proof (Hm 0 ltac:(lia)) as Hm0. rewrite !Z.add_0_r in Hm0.
      rewrite Hm0. reflexivity. }
    rewrite Hx, take_byte_at by lia.
    rewrite IH.
    + replace (pos + 1 + Z.of_nat n) with (pos + Z.of_nat (S n)) by lia.
      reflexivity.
    + lia.
    + lia.
    + intros k Hk. specialize (Hm (k + 1) ltac:(lia)).
      replace (pos + 1 + k) with (pos + (k + 1)) by lia.
      replace (pos + 1 - offset + k) with (pos - offset + (k + 1)) by lia.
      exact Hm.
Qed.


Lemma no_flush pos :
  0 <= pos <= len d -> (len (take (Z.to_nat pos) d) >=? BUFFER_LIMIT) = false.
Proof.
  intros Hp. unfold len in *. rewrite length_take.
  destruct (Z.geb_spec (Z.of_nat (Z.to_nat pos `min` length d)) BUFFER_LIMIT); [lia|reflexivity].
Qed.

(** One iteration of the decoder on the bytes of one token. *)
Lemma dec_step_token marker p t ts pos rest inpos :
  0 <= marker < 256 -> 0 <= pos ->
  valid_trace d pos ((p, t) :: ts) (len d) ->
  exists pos',
    dec_step marker
      (DecState (token_bytes marker t ++ rest) inpos (take (Z.to_nat pos) d) pos [])
    = Ok (DecState rest (inpos + len (token_bytes marker t))
            (take (Z.to_nat pos') d) pos' []) /\
    valid_trace d pos' ts (len d) /\ pos < pos' <= len d.
Proof.
  intros Hm Hpos Hv. destruct t as [symbol | length offset]; cbn [valid_trace] in Hv.
  - destruct Hv as (_ & Hp & -> & Hv).
    exists (pos + 1). split; [|split; [exact Hv | lia]].
    unfold dec_step. cbn [token_bytes d_stream d_inpos d_outputbuf d_outpos d_fout].
    destruct (byte_at d pos =? marker) eqn:Et.
    + apply Z.eqb_eq in Et as E.
      cbn [app read1 bind]. rewrite Et. cbn [read1 bind].
      change (0 =? 0) with true. cbv iota. cbn [bind].
      replace [marker] with [byte_at d pos] by (rewrite E; reflexivity).
      rewrite take_byte_at by lia.
      rewrite no_flush by lia. unfold len. cbn [length].
      do 2 f_equal. lia.
    + cbn [app read1 bind]. rewrite Et.
      cbn [bind]. rewrite take_byte_at by lia.
      rewrite no_flush by lia. reflexivity.
  - destruct Hv as (_ & Hl & Ho & Hmax & Hend & Hmatch & Hv).
    exists (pos + length). split; [|split; [exact Hv | lia]].
    assert (Hsmall : len d < 2 ^ 35).
    { unfold BUFFER_LIMIT, Checksum.CHUNK_SIZE in d_small.
      change (2 ^ 35) with 34359738368. lia. }
    assert (HL : 0 <= length < 2 ^ 35) by lia.
    assert (HO : 0 <= offset < 2 ^ 35).
    { unfold LZ_MAX_OFFSET in Hmax. change (2 ^ 35) with 34359738368. lia. }
    destruct (read_varint_varint length (varint offset ++ rest) HL)
      as (b1 & bs1 & E1 & Hb1 & Hnz1 & R1).
    destruct (read_varint_varint offset rest HO)
      as (b2 & bs2 & E2 & Hb2 & Hnz2 & R2).
    unfold dec_step. cbn [token_bytes d_stream d_inpos d_outputbuf d_outpos d_fout].
    cbn [app read1 bind]. rewrite Z.eqb_refl.
    rewrite <- app_assoc. rewrite E1 at 1. cbn [app read1 bind].
    destruct (Z.eqb_spec b1 0) as [Hz|Hz]; [exfalso; apply Hnz1; [lia | assumption]|].
    rewrite R1. cbn [bind].
    rewrite E2 at 1. cbn [app read1 bind]. rewrite R2. cbn [bind].
    rewrite <- (Z2Nat.id length) at 2 3 by lia.
    rewrite copy_history_match.
    + cbn [bind]. rewrite Z2Nat.id by lia. rewrite no_flush by lia.
      unfold len. cbn [Datatypes.length]. rewrite !length_app.
      do 2 f_equal. lia.
    + assumption.
    + lia.
    + intros k Hk. apply Hmatch. lia.
Qed.

(** The decoding loop on the bytes of a valid trace rebuilds the
    input. *)
Lemma dec_loop_trace marker insize rest : forall ts (fuel : nat) pos inpos,
  0 <= marker < 256 -> 0 <= pos ->
  valid_trace d pos ts (len d) ->
  (length ts <= fuel)%nat ->
  inpos + len (trace_bytes marker ts) <= insize ->
  dec_loop fuel marker insize (len d)
    (DecState (trace_bytes marker ts ++ rest) inpos (take (Z.to_nat pos) d) pos [])
  = Ok (DecState rest (inpos + len (trace_bytes marker ts)) d (len d) []).
Proof.
  induction ts as [|[p t] ts IH]; intros fuel pos inpos Hm Hpos Hv Hf Hin.
  - cbn [valid_trace] in Hv. subst pos.
    unfold trace_bytes. cbn [flat_map app].
    replace (inpos + len []) with inpos by (unfold len; cbn [length]; lia).
    replace (take (Z.to_nat (len d)) d) with d
      by (unfold len; rewrite Nat2Z.id, take_ge by lia; reflexivity).
    destruct fuel; cbn [dec_loop d_inpos d_outpos]; [reflexivity|].
    rewrite Z.ltb_irrefl, andb_false_r. reflexivity.
  - destruct fuel as [|fuel]; [cbn [length] in Hf; lia|].
    destruct (dec_step_token marker p t ts pos
                (trace_bytes marker ts ++ rest) inpos Hm Hpos Hv)
      as (pos' & Hstep & Hv' & Hpos').
    assert (Hbytes : trace_bytes marker ((p, t) :: ts)
                     = token_bytes marker t ++ trace_bytes marker ts) by reflexivity.
    assert (Hpos1 : 1 <= len (token_bytes marker t)).
    { unfold len. destruct t as [s|l o]; cbn [token_bytes];
        [destruct (s =? marker)|]; cbn [length]; lia. }
    rewrite Hbytes in *. unfold len in Hin. rewrite length_app in Hin.
    cbn [dec_loop d_inpos d_outpos].
    destruct (Z.ltb_spec inpos insize); [|unfold len in *; lia].
    destruct (Z.ltb_spec pos (len d)); [|lia].
    cbn [andb]. rewrite <- app_assoc, Hstep. cbn [bind].
    rewrite IH.
    + unfold len. rewrite length_app. do 2 f_equal. lia.
    + assumption.
    + lia.
    + assumption.
    + cbn [length] in Hf. lia.
    + unfold len in *. lia.
Qed.

End DecoderFacts.

(** ** The jump table and the match search *)

Section JumpTable.
Import BCL1.
Variable d : list Z.

Lemma last_before_spec s k :
  last_before d s k = -1 \/
  (0 <= last_before d s k < Z.of_nat k /\ symbols_at d (last_before d s k) = s).
Proof.
  induction k as [|k IH]; cbn [last_before]; [left; reflexivity|].
  destruct (Z.eqb_spec (symbols_at d (Z.of_nat k)) s) as [E|E].
  - right. split; [lia | exact E].
  - destruct IH as [IH|IH]; [left; exact IH | right; split; [lia | apply IH]].
Qed.

Lemma jump_fold (m : nat) :
  let st := fold_left (jump_step d) (map Z.of_nat (seq 0 m)) (∅, ∅) in
  (forall s, get_or_m1 st.1 s = last_before d s m) /\
  (forall i, st.2 !! i =
     if decide (0 <= i < Z.of_nat m)
     then Some (last_before d (symbols_at d i) (Z.to_nat i)) else None).
Proof.
  induction m as [|m IH].
  - cbn. split; intros; unfold get_or_m1; rewrite ?lookup_empty; [reflexivity|].
    destruct (decide _); [lia | reflexivity].
  - rewrite seq_S, map_app, fold_left_app. cbn [map fold_left Nat.add].
    cbn zeta in IH.
    destruct (fold_left _ _ _) as [wd wc]. cbn [fst snd] in IH.
    destruct IH as [IHd IHc].
    unfold jump_step. cbn [fst snd].
    split.
    + intros s. unfold get_or_m1. cbn [last_before].
      destruct (Z.eqb_spec (symbols_at d (Z.of_nat m)) s) as [E|E].
      * rewrite E, lookup_insert_eq. reflexivity.
      * rewrite lookup_insert_ne by exact E. apply IHd.
    + intros i.
      assert (Hc : (match wd !! symbols_at d (Z.of_nat m) with
                    | Some p => <[Z.of_nat m := p]> wc
                    | None => <[Z.of_nat m := -1]> wc
                    end) = <[Z.of_nat m := get_or_m1 wd (symbols_at d (Z.of_nat m))]> wc).
      { unfold get_or_m1. destruct (wd !! _); reflexivity. }
      rewrite Hc. clear Hc.
      destruct (Z.eq_dec i (Z.of_nat m)) as [E|E].
      * subst i. rewrite lookup_insert_eq, IHd, Nat2Z.id.
        destruct (decide _); [reflexivity | lia].
      * rewrite lookup_insert_ne by congruence. rewrite IHc.
        destruct (decide _), (decide _); try reflexivity; lia.
Qed.

Lemma build_jump_table_spec wd wc :
  build_jump_table d = (wd, wc) ->
  (forall s, get_or_m1 wd s = last_before d s (Z.to_nat (len d - 1))) /\
  (forall i, get_or_m1 wc i =
     if decide (0 <= i < len d - 1)
     then last_before d (symbols_at d i) (Z.to_nat i) else -1).
Proof.
  unfold build_jump_table, range. intros H.
  pose proof (jump_fold (Z.to_nat (len d - 1))) as Hf. cbn zeta in Hf.
  destruct (fold_left _ _ _) as [wd0 wc0]. cbn [fst snd] in Hf.
  injection H as <- <-. destruct Hf as [Hd Hc].
  split; [exact Hd|].
  intros i. unfold get_or_m1.
  destruct (Z.eq_dec i (len d - 1)) as [E|E].
  - subst i. rewrite lookup_insert_eq. destruct (decide _); [lia | reflexivity].
  - rewrite lookup_insert_ne by congruence. rewrite Hc.
    destruct (decide _), (decide _); try reflexivity; lia.
Qed.

Lemma chain_prev wd wc i :
  build_jump_table d = (wd, wc) ->
  get_or_m1 wc i = -1 \/
  (0 <= get_or_m1 wc i < i /\ symbols_at d (get_or_m1 wc i) = symbols_at d i).
Proof.
  intros H. destruct (build_jump_table_spec _ _ H) as [_ Hc].
  rewrite Hc. destruct (decide _) as [Hi|Hi]; [|left; reflexivity].
  destruct (last_before_spec (symbols_at d i) (Z.to_nat i)) as [E|E];
    [left; exact E | right; split; [lia | apply E]].
Qed.

End JumpTable.

Section EncoderTrace.
Import BCL1.
Variable d : list Z.
Hypothesis d_ok : bytes_ok d.

Lemma byte_at_ok i : 0 <= byte_at d i < 256.
Proof.
  unfold byte_at. rewrite list_lookup_total_alt.
  destruct (d !! Z.to_nat i) as [b|] eqn:E; cbn [default].
  - exact (Forall_lookup_1 _ _ _ _ d_ok E).
  - vm_compute. split; [discriminate | reflexivity].
Qed.

Lemma symbols_at_inj a b :
  symbols_at d a = symbols_at d b ->
  byte_at d a = byte_at d b /\ byte_at d (a + 1) = byte_at d (b + 1).
Proof.
  unfold symbols_at.
  pose proof (byte_at_ok a). pose proof (byte_at_ok b).
  pose proof (byte_at_ok (a + 1)). pose proof (byte_at_ok (b + 1)).
  rewrite !lor_shiftl_add by (change (2 ^ 8) with 256; lia).
  change (2 ^ 8) with 256. lia.
Qed.

Lemma match_length_matches inpos j maxlength : forall fuel length,
  (forall k, 0 <= k < length -> byte_at d (inpos + k) = byte_at d (j + k)) ->
  forall k, 0 <= k < match_length fuel d inpos j maxlength length ->
  byte_at d (inpos + k) = byte_at d (j + k).
Proof.
  induction fuel as [|fuel IH]; intros length H; cbn [match_length]; [exact H|].
  destruct (length <? maxlength); cbn [andb]; [|exact H].
  destruct (Z.eqb_spec (byte_at d (inpos + length)) (byte_at d (j + length))) as [E|E];
    [|exact H].
  apply IH. intros k Hk.
  destruct (Z.eq_dec k length) as [->|Hne]; [exact E | apply H; lia].
Qed.

Variables wd wc : gmap Z Z.
Hypothesis tables : build_jump_table d = (wd, wc).

Lemma chain_walk_best_match insize inpos bytesleft :
  forall fuel j bestlength bestoffset,
  j = -1 \/ (0 <= j < inpos /\ symbols_at d j = symbols_at d inpos) ->
  best_match d inpos bytesleft (bestlength, bestoffset) ->
  best_match d inpos bytesleft
    (chain_walk fuel d wc insize inpos bytesleft j bestlength bestoffset).
Proof.
  induction fuel as [|fuel IH]; intros j bl bo Hj Hok; cbn [chain_walk]; [exact Hok|].
  destruct (Z.eqb_spec j (-1)) as [Ej|Ej]; cbn [negb andb]; [exact Hok|].
  destruct (Z.ltb_spec (inpos - j) LZ_MAX_OFFSET) as [Hoff|Hoff]; [|exact Hok].
  destruct Hj as [Hj|[Hj Hs]]; [contradiction|].
  destruct ((j + bl >=? insize) || (inpos + bl >=? insize)); [exact Hok|].
  assert (Hnext : get_or_m1 wc j = -1 \/
                  (0 <= get_or_m1 wc j < inpos /\
                   symbols_at d (get_or_m1 wc j) = symbols_at d inpos)).
  { destruct (chain_prev d wd wc j tables) as [E|[E1 E2]];
      [left; exact E | right; split; [lia | congruence]]. }
  destruct (byte_at d (j + bl) =? byte_at d (inpos + bl)).
  2:{ apply IH; assumption. }
  set (offset := inpos - j).
  set (maxlength := if bytesleft <? offset then bytesleft else offset).
  pose proof (match_length_bounds d inpos j maxlength (Z.to_nat maxlength) 2) as Hm.
  pose proof (match_length_matches inpos j maxlength (Z.to_nat maxlength) 2) as Hmm.
  set (length := match_length _ _ _ _ _ _) in *.
  destruct (Z.gtb_spec length bl) as [Hgt|Hle]; apply IH; try assumption.
  right. cbn [fst snd].
  assert (3 <= bl) by (destruct Hok as [E | Hok]; [injection E; lia | cbn in Hok; lia]).
  assert (maxlength <= offset /\ maxlength <= bytesleft)
    by (subst maxlength; destruct (Z.ltb_spec bytesleft offset); lia).
  repeat split; try lia.
  intros k Hk. replace (inpos - offset + k) with (j + k) by (unfold offset; lia).
  apply Hmm; [|lia].
  intros k' Hk'. destruct (symbols_at_inj j inpos Hs) as [E0 E1].
  destruct (Z.eq_dec k' 0) as [->|Hne].
  - rewrite !Z.add_0_r. symmetry. exact E0.
  - replace k' with 1 by lia. symmetry. exact E1.
Qed.

Lemma find_match_best_match insize inpos bytesleft :
  best_match d inpos bytesleft (find_match d wd wc insize inpos bytesleft).
Proof.
  unfold find_match. apply chain_walk_best_match; [|left; reflexivity].
  destruct (Z.eqb_spec (get_or_m1 wd (if inpos + 1 <? insize then symbols_at d inpos else 0)) (-1))
    as [E|E]; cbn [negb].
  - left. exact E.
  - apply (chain_prev d wd wc inpos tables).
Qed.

Lemma lz_loop_valid : forall fuel inpos bytesleft,
  bytesleft = len d - inpos -> 0 <= inpos <= len d ->
  valid_trace d inpos (lz_loop fuel d wd wc (len d) inpos bytesleft).1
              (lz_loop fuel d wd wc (len d) inpos bytesleft).2 /\
  inpos <= (lz_loop fuel d wd wc (len d) inpos bytesleft).2 <= len d.
Proof.
  induction fuel as [|fuel IH]; intros inpos bytesleft Hb Hi; cbn [lz_loop].
  { cbn. split; [reflexivity | lia]. }
  destruct (Z.gtb_spec bytesleft 3) as [Hgt|Hle]; [|cbn; split; [reflexivity | lia]].
  pose proof (find_match_best_match (len d) inpos bytesleft) as Hbest.
  destruct (find_match d wd wc (len d) inpos bytesleft) as [bl bo].
  destruct (worth_emitting bl bo) eqn:Hw.
  - apply worth_emitting_length in Hw.
    destruct Hbest as [E|Hbest]; [injection E; lia|]. cbn [fst snd] in Hbest.
    destruct Hbest as (H1 & H2 & H3 & H4 & H5).
    specialize (IH (inpos + bl) (bytesleft - bl) ltac:(lia) ltac:(lia)).
    destruct (lz_loop fuel d wd wc (len d) (inpos + bl) (bytesleft - bl)) as [ts p].
    cbn [fst snd valid_trace] in *. destruct IH as [IH1 IH2].
    split; [|lia]. repeat split; try lia; assumption.
  - specialize (IH (inpos + 1) (bytesleft - 1) ltac:(lia) ltac:(lia)).
    destruct (lz_loop fuel d wd wc (len d) (inpos + 1) (bytesleft - 1)) as [ts p].
    cbn [fst snd valid_trace] in *. destruct IH as [IH1 IH2].
    split; [|lia]. repeat split; try lia; assumption.
Qed.

Lemma dump_remaining_valid : forall (fuel : nat) inpos,
  0 <= inpos <= len d -> len d - inpos <= Z.of_nat fuel ->
  valid_trace d inpos (dump_remaining fuel d (len d) inpos) (len d).
Proof.
  induction fuel as [|fuel IH]; intros inpos Hi Hf; cbn [dump_remaining].
  { cbn. lia. }
  destruct (Z.ltb_spec inpos (len d)) as [Hlt|Hge]; [|cbn; lia].
  cbn [valid_trace]. repeat split; try lia. apply IH; lia.
Qed.

Lemma valid_trace_app : forall ts1 ts2 a b c,
  valid_trace d a ts1 b -> valid_trace d b ts2 c -> valid_trace d a (ts1 ++ ts2) c.
Proof.
  induction ts1 as [|[p t] ts1 IH]; intros ts2 a b c H1 H2; cbn [app].
  { cbn in H1. subst b. exact H2. }
  destruct t as [s | l o]; cbn [valid_trace] in *.
  - destruct H1 as (? & ? & ? & H1). repeat split; try assumption; try lia.
    eapply IH; eassumption.
  - destruct H1 as (? & ? & ? & ? & ? & ? & H1). repeat split; try assumption; try lia.
    eapply IH; eassumption.
Qed.

End EncoderTrace.

Section EncoderTraceValid.
Import BCL1.

Lemma lz77_trace_valid d : bytes_ok d -> valid_trace d 0 (lz77_trace d) (len d).
Proof.
  intros Hd. unfold lz77_trace.
  destruct (build_jump_table d) as [wd wc] eqn:Ht.
  pose proof (lz_loop_valid d Hd wd wc Ht (Z.to_nat (len d)) 0 (len d)
                ltac:(lia) ltac:(unfold len; lia)) as [H1 H2].
  destruct (lz_loop _ _ _ _ _ _ _) as [ts p]. cbn [fst snd] in *.
  eapply valid_trace_app; [exact H1|].
  apply dump_remaining_valid; [lia|]. unfold len in *. lia.
Qed.

End EncoderTraceValid.

(** ** Marker and round trip *)

Section MarkerFacts.
Import BCL1.

Lemma histogram_length d : length (histogram d) = 256%nat.
Proof.
  unfold histogram.
  assert (H : forall l h, length (fold_left
             (fun h b => <[Z.to_nat b := h !!! Z.to_nat b + 1]> h) l h) = length h).
  { induction l as [|b l IH]; intros h; cbn [fold_left]; [reflexivity|].
    rewrite IH. apply length_insert. }
  rewrite H. apply length_replicate.
Qed.

Lemma fold_min_in : forall r x, In (fold_left Z.min r x) (x :: r).
Proof.
  induction r as [|y r IH]; intros x; cbn [fold_left]; [left; reflexivity|].
  destruct (IH (Z.min x y)) as [E|Hin].
  - destruct (Z.min_spec x y) as [[_ Em]|[_ Em]];
      [left | right; left]; rewrite <- E; symmetry; exact Em.
  - right. right. exact Hin.
Qed.

Lemma index_of_bound x : forall l, In x l -> 0 <= index_of x l < len l.
Proof.
  unfold len.
  induction l as [|y l IH]; intros Hin; [destruct Hin|].
  cbn [index_of length]. destruct (Z.eqb_spec y x) as [E|E]; [lia|].
  destruct Hin as [Hy|Hin]; [contradiction|]. specialize (IH Hin). lia.
Qed.

Lemma find_marker_range d : 0 <= find_marker d < 256.
Proof.
  unfold find_marker.
  pose proof (histogram_length d) as Hl.
  destruct (histogram d) as [|x r] eqn:E; [discriminate|].
  pose proof (index_of_bound (list_min (x :: r)) (x :: r) (fold_min_in r x)) as Hb.
  unfold len in Hb. rewrite Hl in Hb. exact Hb.
Qed.

End MarkerFacts.

Section PayloadRoundTrip.
Import BCL1.

Lemma token_bytes_length marker t : (1 <= length (token_bytes marker t))%nat.
Proof.
  destruct t as [s|l o]; cbn [token_bytes].
  - destruct (s =? marker); cbn; lia.
  - cbn [length]. lia.
Qed.

Lemma trace_bytes_length marker ts :
  (length ts <= length (trace_bytes marker ts))%nat.
Proof.
  unfold trace_bytes.
  induction ts as [|[p t] ts IH]; cbn [flat_map length]; [lia|].
  rewrite length_app. pose proof (token_bytes_length marker t). cbn [snd]. lia.
Qed.

Lemma lz77_payload_roundtrip d rest insize :
  bytes_ok d -> len d < BUFFER_LIMIT -> len (lz77_payload d) <= insize ->
  lz77_uncompress (lz77_payload d ++ rest) insize (len d) = Ok d.
Proof.
  intros Hok Hsmall Hin. unfold lz77_uncompress, lz77_payload in *.
  cbn [app read1 bind].
  fold (trace_bytes (find_marker d) (lz77_trace d)) in *.
  set (marker := find_marker d) in *. set (ts := lz77_trace d) in *.
  assert (Hlen : len (marker :: trace_bytes marker ts) = 1 + len (trace_bytes marker ts)).
  { unfold len. cbn [length]. lia. }
  rewrite Hlen in Hin.
  pose proof (trace_bytes_length marker ts) as Hts.
  pose proof (dec_loop_trace d Hsmall marker insize rest ts (Z.to_nat insize) 0 1
                (find_marker_range d) ltac:(lia) (lz77_trace_valid d Hok)
                ltac:(unfold len in *; lia) ltac:(lia)) as Hdec.
  change (take (Z.to_nat 0) d) with (@nil Z) in Hdec.
  rewrite Hdec. reflexivity.
Qed.

End PayloadRoundTrip.

Section BlockRoundTrip.
Import BCL1.

Variable lzma_compress : Z -> Z -> Z -> Z -> list Z -> list Z.
Variable zlib_compress : list Z -> list Z.
Variable decompress_lzma : list Z -> result (list Z).
Variable zlib_decompress : list Z -> result (list Z).

Lemma padding_nonneg FW_HDR2 FW_HDR FW_BOOTLOADER part_id n :
  0 <= padding FW_HDR2 FW_HDR FW_BOOTLOADER part_id n.
Proof.
  unfold padding. destruct (pads _ _ _ _); [|lia].
  pose proof (Z.mod_pos_bound n 4 ltac:(lia)).
  destruct (n mod 4 =? 0); cbn [negb]; lia.
Qed.

Lemma prepare_dataread_plain raw :
  crc_location (pread raw 0 (Z.min 0x500 (len raw))) = (false, 0) ->
  prepare_dataread raw = Ok raw.
Proof. unfold prepare_dataread. intros ->. reflexivity. Qed.

Lemma BCL1_uncompress_lz77_block crc algo usize psize payload pad :
  length crc = 2%nat -> length algo = 2%nat -> be_value algo = 9 ->
  length usize = 4%nat -> length psize = 4%nat ->
  BCL1_uncompress decompress_lzma zlib_decompress
    (BCL1_magic ++ crc ++ algo ++ usize ++ psize ++ payload ++ pad) 0 =
  lz77_uncompress (payload ++ pad) (be_value psize) (be_value usize).
Proof.
  intros Hcrc Halgo Hav Husize Hpsize.
  set (out := BCL1_magic ++ crc ++ algo ++ usize ++ psize ++ payload ++ pad).
  assert (E0 : pread out 0 4 = BCL1_magic).
  { apply (pread_middle [] BCL1_magic); reflexivity. }
  assert (E6 : pread out (0 + 6) 2 = algo).
  { subst out. rewrite (app_assoc BCL1_magic).
    apply pread_middle; unfold len; rewrite ?length_app, ?Hcrc, ?Halgo; reflexivity. }
  assert (E8 : pread out (0 + 8) 4 = usize).
  { subst out. rewrite (app_assoc crc), (app_assoc BCL1_magic).
    apply pread_middle; unfold len; rewrite ?length_app, ?Hcrc, ?Halgo, ?Husize;
      reflexivity. }
  assert (E12 : pread out (0 + 12) 4 = psize).
  { subst out. rewrite (app_assoc algo), (app_assoc crc), (app_assoc BCL1_magic).
    apply pread_middle; unfold len; rewrite ?length_app, ?Hcrc, ?Halgo, ?Husize, ?Hpsize;
      reflexivity. }
  assert (E16 : drop (Z.to_nat (0 + 0x10)) out = payload ++ pad).
  { subst out.
    rewrite (app_assoc usize), (app_assoc algo), (app_assoc crc), (app_assoc BCL1_magic).
    apply drop_app_length'.
    rewrite !length_app, Hcrc, Halgo, Husize, Hpsize. reflexivity. }
  unfold BCL1_uncompress.
  change (0 <? 0) with false. cbv iota.
  rewrite E0, bool_decide_eq_true_2 by reflexivity. cbn [negb].
  rewrite E6, E8, E12, E16.
  unfold unpack_be.
  rewrite !decide_True by assumption. cbn [bind].
  rewrite Hav. reflexivity.
Qed.

Lemma BCL1_lz77_roundtrip FW_HDR2 FW_HDR FW_BOOTLOADER part_id in_file start raw out :
  bytes_ok raw -> len raw < BUFFER_LIMIT ->
  crc_location (pread raw 0 (Z.min 0x500 (len raw))) = (false, 0) ->
  unpack_be 2 (pread in_file (start + 6) 2) = Ok 9 ->
  be_value (pread in_file (start + 8) 4) <= len raw ->
  BCL1_compress lzma_compress zlib_compress FW_HDR2 FW_HDR FW_BOOTLOADER part_id
    in_file start raw = Ok out ->
  BCL1_uncompress decompress_lzma zlib_decompress out 0 = Ok raw.
Proof.
  intros Hok Hsmall Hcrc Halgo Hold Hc.
  apply BCL1_compress_shape in Hc
    as (Algorithm & props & dict & dataread & crc & algo & usize & psize & Hc).
  cbv zeta in Hc.
  destruct Hc as (HA & Hd & -> & Hlcrc & Hlalgo & Hvalgo & Hlusize & Hvusize & Hlpsize & Hvpsize).
  rewrite Halgo in HA. injection HA as <-.
  rewrite (prepare_dataread_plain raw Hcrc) in Hd. injection Hd as <-.
  rewrite BCL1_uncompress_lz77_block by assumption.
  rewrite Hvusize, Hvpsize, Z.max_r by exact Hold.
  unfold compress_payload. change (9 =? 9) with true. cbv iota.
  apply lz77_payload_roundtrip; try assumption.
  pose proof (padding_nonneg FW_HDR2 FW_HDR FW_BOOTLOADER part_id (len (lz77_payload raw))).
  lia.
Qed.

End BlockRoundTrip.

(** ** Runs of equal bytes *)

Section RunFacts.
Import BCL1.
Variable d : list Z.
Variables wd wc : gmap Z Z.
Hypothesis tables : build_jump_table d = (wd, wc).

Lemma last_before_ge sym : forall (n : nat) i,
  0 <= i < Z.of_nat n -> symbols_at d i = sym -> i <= last_before d sym n.
Proof.
  induction n as [|n IH]; intros i Hi Hs; [lia|].
  cbn [last_before].
  destruct (Z.eqb_spec (symbols_at d (Z.of_nat n)) sym) as [E|E]; [lia|].
  apply IH; [|exact Hs].
  destruct (Z.eq_dec i (Z.of_nat n)) as [->|Hne]; [contradiction | lia].
Qed.

Lemma last_before_none sym : forall (n : nat),
  (forall i, 0 <= i < Z.of_nat n -> symbols_at d i <> sym) ->
  last_before d sym n = -1.
Proof.
  induction n as [|n IH]; intros H; [reflexivity|].
  cbn [last_before].
  destruct (Z.eqb_spec (symbols_at d (Z.of_nat n)) sym) as [E|E].
  - exfalso. apply (H (Z.of_nat n)); [lia | exact E].
  - apply IH. intros i Hi. apply H. lia.
Qed.

Lemma dict_found p :
  0 <= p -> p + 1 < len d -> get_or_m1 wd (symbols_at d p) <> -1.
Proof.
  intros Hp Hlt. destruct (build_jump_table_spec d wd wc tables) as [Hd _].
  rewrite Hd.
  pose proof (last_before_ge (symbols_at d p) (Z.to_nat (len d - 1)) p
                ltac:(lia) eq_refl).
  lia.
Qed.

Lemma chain_walk_done fuel insize inpos bytesleft bl bo :
  chain_walk fuel d wc insize inpos bytesleft (-1) bl bo = (bl, bo).
Proof. destruct fuel; reflexivity. Qed.

Lemma match_length_run p j maxlength :
  (forall k, 0 <= k < maxlength -> byte_at d (p + k) = byte_at d (j + k)) ->
  forall (fuel : nat) L, 0 <= L -> maxlength - L <= Z.of_nat fuel ->
  match_length fuel d p j maxlength L = Z.max L maxlength.
Proof.
  intros H. induction fuel as [|fuel IH]; intros L HL Hf; cbn [match_length]; [lia|].
  destruct (Z.ltb_spec L maxlength) as [Hlt|Hge]; cbn [andb]; [|lia].
  rewrite (H L) by lia. rewrite Z.eqb_refl.
  rewrite IH by lia. lia.
Qed.

Variables s e c : Z.
Hypothesis Hs : 0 <= s.
Hypothesis He : e <= len d.
Hypothesis Hrun : forall i, s <= i < e -> byte_at d i = c.
Hypothesis Hfirst : get_or_m1 wc s = -1.

Lemma chain_in_run i : s < i < e - 1 -> get_or_m1 wc i = i - 1.
Proof.
  intros Hi. destruct (build_jump_table_spec d wd wc tables) as [_ Hc].
  rewrite Hc, decide_True by lia.
  replace (Z.to_nat i) with (S (Z.to_nat (i - 1))) by lia.
  cbn [last_before]. rewrite Z2Nat.id by lia.
  unfold symbols_at. replace (i - 1 + 1) with i by lia.
  rewrite !Hrun by lia. rewrite Z.eqb_refl. reflexivity.
Qed.

Lemma chain_walk_run p bytesleft :
  s <= p -> p + 4 <= e -> p + (p - s) <= e -> p - s < LZ_MAX_OFFSET ->
  p - s <= bytesleft ->
  forall (n : nat) (fuel : nat) o,
  1 <= o -> o + Z.of_nat n = p - s -> (n < fuel)%nat ->
  chain_walk fuel d wc (len d) p bytesleft (p - o)
    (if o - 1 >? 3 then o - 1 else 3) (if o - 1 >? 3 then o - 1 else 0) =
  if p - s >? 3 then (p - s, p - s) else (3, 0).
Proof.
  intros Hp He4 Hpe Hmax Hbl.
  induction n as [|n IH]; intros fuel o Ho Hn Hf;
    (destruct fuel as [|fuel]; [lia|]); cbn [chain_walk].
  all: destruct (Z.eqb_spec (p - o) (-1)) as [Ej|_]; [lia|]; cbn [negb andb].
  all: destruct (Z.ltb_spec (p - (p - o)) LZ_MAX_OFFSET) as [_|Hx]; [|lia].
  all: set (bl := if o - 1 >? 3 then o - 1 else 3).
  all: set (bo := if o - 1 >? 3 then o - 1 else 0).
  all: assert (Hbl3 : 3 <= bl <= Z.max 3 (o - 1))
         by (subst bl; destruct (Z.gtb_spec (o - 1) 3); lia).
  all: assert (Ebreak : (p - o + bl >=? len d) || (p + bl >=? len d) = false)
         by (rewrite !Z.geb_leb; apply orb_false_iff; split; apply Z.leb_gt; lia).
  all: rewrite Ebreak; clear Ebreak.
  all: rewrite !Hrun by lia; rewrite Z.eqb_refl.
  all: replace (p - (p - o)) with o by lia.
  all: assert (Emax : (if bytesleft <? o then bytesleft else o) = o)
         by (destruct (Z.ltb_spec bytesleft o); lia).
  all: rewrite Emax; clear Emax.
  all: rewrite match_length_run
         by (try lia; intros k Hk; rewrite !Hrun by lia; reflexivity).
  all: assert (Enew : (if Z.max 2 o >? bl then (Z.max 2 o, o) else (bl, bo)) =
                      (if o >? 3 then (o, o) else (3, 0)))
         by (subst bl bo; destruct (Z.gtb_spec (o - 1) 3), (Z.gtb_spec o 3);
             try lia;
             match goal with |- context [?a >? ?b] => destruct (Z.gtb_spec a b) end;
             try lia; f_equal; lia).
  all: rewrite Enew; clear Enew.
  - replace (p - o) with s by lia. rewrite Hfirst.
    replace (p - s) with o by lia.
    destruct (o >? 3); apply chain_walk_done.
  - rewrite chain_in_run by lia.
    replace (p - o - 1) with (p - (o + 1)) by lia.
    specialize (IH fuel (o + 1) ltac:(lia) ltac:(lia) ltac:(lia)).
    replace (o + 1 - 1) with o in IH by lia.
    destruct (o >? 3); exact IH.
Qed.

Lemma find_match_run p bytesleft :
  s <= p -> p + 4 <= e -> p + (p - s) <= e -> p - s < LZ_MAX_OFFSET ->
  p - s <= bytesleft ->
  find_match d wd wc (len d) p bytesleft =
  if p - s >? 3 then (p - s, p - s) else (3, 0).
Proof.
  intros Hp He4 Hpe Hmax Hbl. unfold find_match.
  destruct (Z.ltb_spec (p + 1) (len d)) as [Hlt|Hge]; [|lia].
  destruct (Z.eqb_spec (get_or_m1 wd (symbols_at d p)) (-1)) as [E|_];
    [exfalso; revert E; apply dict_found; lia|].
  cbn [negb].
  destruct (Z.eq_dec p s) as [->|Hne].
  - rewrite Hfirst, chain_walk_done.
    destruct (Z.gtb_spec (s - s) 3); [lia | reflexivity].
  - rewrite chain_in_run by lia.
    apply (chain_walk_run p bytesleft Hp He4 Hpe Hmax Hbl
             (Z.to_nat (p - s - 1)) (Z.to_nat (len d)) 1); lia.
Qed.

End RunFacts.

Section RunTrace.
Import BCL1.
Variable d : list Z.
Variables wd wc : gmap Z Z.
Hypothesis tables : build_jump_table d = (wd, wc).
Variables s c : Z.
Hypothesis Hs : 0 <= s.
Hypothesis He : s + 65536 <= len d.
Hypothesis Hrun : forall i, s <= i < s + 65536 -> byte_at d i = c.
Hypothesis Hfirst : get_or_m1 wc s = -1.

Lemma lz_loop_lit fuel p ts q :
  s <= p -> p - s <= 3 ->
  lz_loop fuel d wd wc (len d) (p + 1) (len d - (p + 1)) = (ts, q) ->
  lz_loop (S fuel) d wd wc (len d) p (len d - p) = ((p, Lit c) :: ts, q).
Proof.
  intros Hp Hk Hrest. cbn [lz_loop].
  destruct (Z.gtb_spec (len d - p) 3) as [_|Hx]; [|lia].
  rewrite (find_match_run d wd wc tables s (s + 65536) c Hs He Hrun Hfirst)
    by (unfold LZ_MAX_OFFSET; lia).
  destruct (Z.gtb_spec (p - s) 3) as [Hx|_]; [lia|].
  change (worth_emitting 3 0) with false. cbv iota.
  rewrite Hrun by lia.
  replace (len d - p - 1) with (len d - (p + 1)) by lia.
  rewrite Hrest. reflexivity.
Qed.

Lemma lz_loop_ref fuel k ts q :
  4 <= k <= 32768 -> worth_emitting k k = true ->
  lz_loop fuel d wd wc (len d) (s + (k + k)) (len d - (s + (k + k))) = (ts, q) ->
  lz_loop (S fuel) d wd wc (len d) (s + k) (len d - (s + k)) =
  ((s + k, Ref k k) :: ts, q).
Proof.
  intros Hk Hw Hrest. cbn [lz_loop].
  destruct (Z.gtb_spec (len d - (s + k)) 3) as [_|Hx]; [|lia].
  rewrite (find_match_run d wd wc tables s (s + 65536) c Hs He Hrun Hfirst)
    by (unfold LZ_MAX_OFFSET; lia).
  replace (s + k - s) with k by lia.
  destruct (Z.gtb_spec k 3) as [_|Hx]; [|lia].
  rewrite Hw.
  replace (len d - (s + k) - k) with (len d - (s + (k + k))) by lia.
  replace (s + k + k) with (s + (k + k)) by lia.
  rewrite Hrest. reflexivity.
Qed.

Lemma lz_loop_run fuel ts q :
  lz_loop fuel d wd wc (len d) (s + 65536) (len d - (s + 65536)) = (ts, q) ->
  lz_loop (18 + fuel) d wd wc (len d) s (len d - s) = (run_tokens s c ++ ts, q).
Proof.
  intros Hrest. unfold run_tokens. cbn [app Nat.add].
  apply lz_loop_lit; [lia | lia |].
  apply lz_loop_lit; [lia | lia |].
  replace (s + 1 + 1) with (s + 2) by lia.
  apply lz_loop_lit; [lia | lia |].
  replace (s + 2 + 1) with (s + 3) by lia.
  apply lz_loop_lit; [lia | lia |].
  replace (s + 3 + 1) with (s + 4) by lia.
  do 14 (apply lz_loop_ref; [lia | reflexivity |]).
  exact Hrest.
Qed.

End RunTrace.

Section TwoRuns.
Import BCL1.
Variable d : list Z.
Variables a b : Z.
Hypothesis Ha : byte_ok a.
Hypothesis Hb : byte_ok b.
Hypothesis Hab : a <> b.
Hypothesis Hlen : len d = 131072.
Hypothesis HA : forall i, 0 <= i < 65536 -> byte_at d i = a.
Hypothesis HB : forall i, 65536 <= i < 131072 -> byte_at d i = b.

Lemma lz_loop_end fuel wd wc insize inpos bytesleft :
  bytesleft <= 3 -> lz_loop fuel d wd wc insize inpos bytesleft = ([], inpos).
Proof.
  intros H. destruct fuel; [reflexivity|]. cbn [lz_loop].
  destruct (Z.gtb_spec bytesleft 3); [lia | reflexivity].
Qed.

Lemma dump_remaining_end fuel insize inpos :
  insize <= inpos -> dump_remaining fuel d insize inpos = [].
Proof.
  intros H. destruct fuel; [reflexivity|]. cbn [dump_remaining].
  destruct (Z.ltb_spec inpos insize); [lia | reflexivity].
Qed.

Lemma lz77_trace_two_runs :
  lz77_trace d = run_tokens 0 a ++ run_tokens 65536 b.
Proof.
  unfold lz77_trace.
  destruct (build_jump_table d) as [wd wc] eqn:Ht.
  destruct (build_jump_table_spec d wd wc Ht) as [_ Hc].
  assert (H0 : get_or_m1 wc 0 = -1).
  { rewrite Hc, decide_True by lia. reflexivity. }
  assert (H1 : get_or_m1 wc 65536 = -1).
  { rewrite Hc, decide_True by lia.
    apply last_before_none. intros i Hi.
    unfold symbols_at. rewrite (HA i), (HB 65536), (HB (65536 + 1)) by lia.
    unfold byte_ok in Ha, Hb.
    destruct (Z.eq_dec i 65535) as [->|Hne].
    - rewrite (HB (65535 + 1)) by lia.
      rewrite !lor_shiftl_add by (change (2 ^ 8) with 256; lia).
      change (2 ^ 8) with 256. lia.
    - rewrite (HA (i + 1)) by lia.
      rewrite !lor_shiftl_add by (change (2 ^ 8) with 256; lia).
      change (2 ^ 8) with 256. lia. }
  rewrite Hlen.
  replace (Z.to_nat 131072) with (18 + (18 + Z.to_nat 131036))%nat by lia.
  assert (R : lz_loop (18 + (18 + Z.to_nat 131036)) d wd wc (len d) 0 (len d - 0) =
              (run_tokens 0 a ++ run_tokens 65536 b ++ [], 131072)).
  { apply (lz_loop_run d wd wc Ht 0 a ltac:(lia) ltac:(lia)
             ltac:(intros i Hi; apply HA; lia) H0).
    apply (lz_loop_run d wd wc Ht 65536 b ltac:(lia) ltac:(lia)
             ltac:(intros i Hi; apply HB; lia) H1).
    apply lz_loop_end. lia. }
  rewrite Hlen in R. change (131072 - 0) with 131072 in R. rewrite R.
  rewrite dump_remaining_end by lia.
  rewrite !app_nil_r. reflexivity.
Qed.

End TwoRuns.

(** ** Properties of the codec beyond the claims *)

Section CodecProperties.
Import BCL1.

Lemma last_before_max d s : forall n : nat,
  (last_before d s n = -1 /\
   forall k, 0 <= k < Z.of_nat n -> symbols_at d k <> s) \/
  (0 <= last_before d s n < Z.of_nat n /\
   symbols_at d (last_before d s n) = s /\
   forall k, last_before d s n < k < Z.of_nat n -> symbols_at d k <> s).
Proof.
  induction n as [|n IH]; cbn [last_before].
  { left. split; [reflexivity | intros k Hk; lia]. }
  destruct (Z.eqb_spec (symbols_at d (Z.of_nat n)) s) as [E|E].
  - right. split; [lia|]. split; [exact E | intros k Hk; lia].
  - destruct IH as [[IH1 IH2]|(IH1 & IH2 & IH3)].
    + left. split; [exact IH1|]. intros k Hk.
      destruct (Z.eq_dec k (Z.of_nat n)) as [->|Hne]; [exact E | apply IH2; lia].
    + right. split; [lia|]. split; [exact IH2|]. intros k Hk.
      destruct (Z.eq_dec k (Z.of_nat n)) as [->|Hne]; [exact E | apply IH3; lia].
Qed.

(** X1: a length or an offset below 2^35 is written on one to five
    bytes, and the decoder's field reader, given the first of them and
    the stream that follows, returns the value, the number of bytes of
    the field and the stream after the field. *)
Theorem varint_roundtrip x rest :
  0 <= x < 2 ^ 35 ->
  exists b bs,
    varint x = b :: bs /\ 1 <= len (varint x) <= 5 /\
    read_varint (bs ++ rest) b = Ok (x, len (varint x), rest).
Proof.
  intros Hx.
  destruct (read_varint_varint x rest Hx) as (b & bs & E & _ & _ & R).
  exists b, bs. split; [exact E|]. split; [|exact R].
  destruct (varint_bytes_of x Hx) as (n & Hn & _ & En).
  rewrite En. unfold len. rewrite varint_bytes_length. lia.
Qed.

Lemma varint_roundtrip_witness :
  exists b bs,
    varint 300 = b :: bs /\ 1 <= len (varint 300) <= 5 /\
    read_varint (bs ++ [7]) b = Ok (300, len (varint 300), [7]).
Proof. apply (varint_roundtrip 300 [7]). lia. Defined.

(** X2: the jump table.  For a position [i] before the last byte,
    [work_chain[i]] is the closest earlier position that starts with the
    same two bytes, or -1 when there is none; [work_chain[insize - 1]]
    is -1; and [work_dict] maps a two-byte symbol to the last position
    before [insize - 1] where it starts, and has no entry for a symbol
    that starts nowhere. *)
Theorem jump_table_closest_occurrence d i s :
  0 <= i < len d - 1 ->
  let work_dict := (build_jump_table d).1 in
  let work_chain := (build_jump_table d).2 in
  let j := get_or_m1 work_chain i in
  let l := get_or_m1 work_dict s in
  ((j = -1 /\ forall k, 0 <= k < i -> symbols_at d k <> symbols_at d i) \/
   (0 <= j < i /\ symbols_at d j = symbols_at d i /\
    forall k, j < k < i -> symbols_at d k <> symbols_at d i)) /\
  get_or_m1 work_chain (len d - 1) = -1 /\
  ((l = -1 /\ forall k, 0 <= k < len d - 1 -> symbols_at d k <> s) \/
   (0 <= l < len d - 1 /\ symbols_at d l = s /\
    forall k, l < k < len d - 1 -> symbols_at d k <> s)).
Proof.
  intros Hi. cbv zeta.
  destruct (build_jump_table d) as [wd wc] eqn:Ht. cbn [fst snd].
  destruct (build_jump_table_spec d wd wc Ht) as [Hd Hc].
  rewrite !Hc, Hd, decide_True, decide_False by lia.
  split; [|split; [reflexivity|]].
  - destruct (last_before_max d (symbols_at d i) (Z.to_nat i))
      as [[H1 H2]|(H1 & H2 & H3)].
    + left. split; [exact H1 | intros k Hk; apply H2; lia].
    + right. split; [lia|]. split; [exact H2 | intros k Hk; apply H3; lia].
  - destruct (last_before_max d s (Z.to_nat (len d - 1)))
      as [[H1 H2]|(H1 & H2 & H3)].
    + left. split; [exact H1 | intros k Hk; apply H2; lia].
    + right. split; [lia|]. split; [exact H2 | intros k Hk; apply H3; lia].
Qed.

Lemma jump_table_closest_occurrence_witness :
  let d := [1; 2; 1; 2; 1] in
  let j := get_or_m1 (build_jump_table d).2 2 in
  let l := get_or_m1 (build_jump_table d).1 0x0102 in
  ((j = -1 /\ forall k, 0 <= k < 2 -> symbols_at d k <> symbols_at d 2) \/
   (0 <= j < 2 /\ symbols_at d j = symbols_at d 2 /\
    forall k, j < k < 2 -> symbols_at d k <> symbols_at d 2)) /\
  get_or_m1 (build_jump_table d).2 (len d - 1) = -1 /\
  ((l = -1 /\ forall k, 0 <= k < len d - 1 -> symbols_at d k <> 0x0102) \/
   (0 <= l < len d - 1 /\ symbols_at d l = 0x0102 /\
    forall k, l < k < len d - 1 -> symbols_at d k <> 0x0102)).
Proof.
  apply (jump_table_closest_occurrence [1; 2; 1; 2; 1] 2 0x0102).
  vm_compute. split; [discriminate | reflexivity].
Defined.

(** X3: what the encoder writes describes its input.  The iterations of
    the main loop and of the final loop tile the input from 0 to its
    end: a literal is the input byte at its position, and a
    back-reference of [length >= 4] bytes at distance [offset], with
    [0 < offset <= position] and [offset < 100000], stands for bytes
    equal to those [offset] positions before them. *)
Theorem encoder_tokens_describe_input d :
  bytes_ok d -> valid_trace d 0 (lz77_trace d) (len d).
Proof. apply lz77_trace_valid. Qed.

Lemma encoder_tokens_describe_input_witness :
  valid_trace [7; 7; 7; 7; 7; 7; 7; 7; 7; 7; 7; 7] 0
    (lz77_trace [7; 7; 7; 7; 7; 7; 7; 7; 7; 7; 7; 7])
    (len [7; 7; 7; 7; 7; 7; 7; 7; 7; 7; 7; 7]).
Proof.
  apply (encoder_tokens_describe_input [7; 7; 7; 7; 7; 7; 7; 7; 7; 7; 7; 7]).
  unfold bytes_ok. repeat (constructor; [unfold byte_ok; lia|]). constructor.
Defined.

(** X4: the LZ77 decoder undoes the encoder.  For data of fewer than
    2^20 bytes, decoding the payload the encoder writes, followed by
    any bytes (the padding), with a packed size that covers the payload
    and the length of the data as the uncompressed size, returns the
    data. *)
Theorem lz77_decoder_inverts_encoder d rest insize :
  bytes_ok d -> len d < BUFFER_LIMIT -> len (lz77_payload d) <= insize ->
  lz77_uncompress (lz77_payload d ++ rest) insize (len d) = Ok d.
Proof. apply lz77_payload_roundtrip. Qed.

Lemma lz77_decoder_inverts_encoder_witness :
  lz77_uncompress (lz77_payload [7; 7; 7; 7; 7; 7; 7; 7; 7; 7; 7; 7] ++ [0]) 12
    (len [7; 7; 7; 7; 7; 7; 7; 7; 7; 7; 7; 7])
  = Ok [7; 7; 7; 7; 7; 7; 7; 7; 7; 7; 7; 7].
Proof.
  apply (lz77_decoder_inverts_encoder [7; 7; 7; 7; 7; 7; 7; 7; 7; 7; 7; 7] [0] 12).
  - unfold bytes_ok. repeat (constructor; [unfold byte_ok; lia|]). constructor.
  - vm_compute. reflexivity.
  - vm_compute. discriminate.
Defined.

Section Block.
Variable lzma_compress : Z -> Z -> Z -> Z -> list Z -> list Z.
Variable zlib_compress : list Z -> list Z.
Variable decompress_lzma : list Z -> result (list Z).
Variable zlib_decompress : list Z -> result (list Z).

(** X5: round trip of a block.  When the block being replaced is an
    LZ77 block (algorithm 0x09) whose uncompressed-size field does not
    exceed the length of the new data, the new data has fewer than 2^20
    bytes and no checksum region of its own, and [BCL1_compress]
    returns a block, then [BCL1_uncompress] of that block writes the
    data back, whatever the padding and checksum modes. *)
Theorem BCL1_uncompress_inverts_compress
    FW_HDR2 FW_HDR FW_BOOTLOADER part_id in_file start raw out :
  bytes_ok raw -> len raw < BUFFER_LIMIT ->
  crc_location (pread raw 0 (Z.min 0x500 (len raw))) = (false, 0) ->
  unpack_be 2 (pread in_file (start + 6) 2) = Ok 9 ->
  be_value (pread in_file (start + 8) 4) <= len raw ->
  BCL1_compress lzma_compress zlib_compress FW_HDR2 FW_HDR FW_BOOTLOADER part_id
    in_file start raw = Ok out ->
  BCL1_uncompress decompress_lzma zlib_decompress out 0 = Ok raw.
Proof. apply BCL1_lz77_roundtrip. Qed.

End Block.

Lemma BCL1_uncompress_inverts_compress_witness :
  BCL1_uncompress no_decompress no_decompress
    [66; 67; 76; 49; 42; 108; 0; 9; 0; 0; 0; 5; 0; 0; 0; 8; 0; 1; 2; 3; 4; 5; 0; 0] 0
  = Ok [1; 2; 3; 4; 5].
Proof.
  apply (BCL1_uncompress_inverts_compress no_lzma no_zlib no_decompress no_decompress
           1 0 0 0 sample_block 0 [1; 2; 3; 4; 5]).
  - unfold bytes_ok. repeat (constructor; [unfold byte_ok; lia|]). constructor.
  - vm_compute. reflexivity.
  - vm_compute. reflexivity.
  - vm_compute. reflexivity.
  - vm_compute. discriminate.
  - vm_compute. reflexivity.
Defined.

End CodecProperties.

(** ** Properties of the checksum engine beyond the claims *)

Section ChecksumProperties.
Import Checksum.

Lemma spec_sum_ext r1 r2 hole :
  length r1 = length r2 -> hole mod 2 = 0 ->
  (forall i : nat, Z.of_nat i <> hole -> Z.of_nat i <> hole + 1 -> r1 !! i = r2 !! i) ->
  spec_sum r1 hole = spec_sum r2 hole.
Proof.
  intros Hl Hev Hsame. unfold spec_sum. rewrite Hl. f_equal.
  apply map_ext. intros pos. unfold spec_term.
  destruct (Z.eqb_spec (Z.of_nat pos * 2) hole) as [E|E]; [reflexivity|].
  rewrite !list_lookup_total_alt.
  rewrite (Hsame (2 * pos)%nat), (Hsame (2 * pos + 1)%nat);
    [reflexivity | | | |]; Z.div_mod_to_equations; lia.
Qed.

(** The sum only sees the complete words of the range. *)
Lemma spec_sum_whole_words r hole :
  spec_sum (take (2 * (length r / 2)) r) hole = spec_sum r hole.
Proof.
  unfold spec_sum.
  assert (Hdiv : (2 * (length r / 2) <= length r)%nat)
    by (apply Nat.Div0.mul_div_le).
  rewrite length_take, Nat.min_l by exact Hdiv.
  rewrite (Nat.mul_comm 2), Nat.div_mul by lia.
  f_equal. apply map_ext_in. intros pos Hin%in_seq. unfold spec_term.
  destruct (Z.of_nat pos * 2 =? hole); [reflexivity|].
  rewrite !lookup_total_take_lt by lia. reflexivity.
Qed.

Lemma pread_length f off n :
  0 <= off -> 0 <= n ->
  len (pread f off n) = Z.max 0 (Z.min n (len f - off)).
Proof.
  intros Hoff Hn. unfold pread, len. rewrite length_take, length_drop. lia.
Qed.

Lemma MemCheck_hole_ext f f' start n hole :
  0 <= start -> 0 <= hole -> hole mod 2 = 0 ->
  length f' = length f ->
  (forall i : nat, Z.of_nat i <> start + hole -> Z.of_nat i <> start + hole + 1 ->
     f' !! i = f !! i) ->
  MemCheck_CalcCheckSum16Bit_Streaming f' start n hole =
  MemCheck_CalcCheckSum16Bit_Streaming f start n hole.
Proof.
  intros Hs Hh Hev Hl Hsame.
  rewrite !MemCheck_closed_form by assumption. do 3 f_equal.
  apply spec_sum_ext; [|exact Hev|].
  - unfold pread. rewrite !length_take, !length_drop, Hl. reflexivity.
  - intros i H1 H2. rewrite !pread_lookup.
    destruct (decide (i < Z.to_nat n)%nat); [|reflexivity].
    apply Hsame; lia.
Qed.

(** X6: the bytes of the hole do not count.  With an even, non-negative
    [ignoreCRCoffset], two files of the same length that differ at most
    in the two bytes at [in_offset + ignoreCRCoffset] have the same
    checksum: the value computed does not depend on the checksum stored
    in the hole. *)
Theorem checksum_ignores_hole f f' start n hole :
  0 <= start -> 0 <= hole -> hole mod 2 = 0 ->
  length f' = length f ->
  (forall i : nat, Z.of_nat i <> start + hole -> Z.of_nat i <> start + hole + 1 ->
     f' !! i = f !! i) ->
  MemCheck_CalcCheckSum16Bit_Streaming f' start n hole =
  MemCheck_CalcCheckSum16Bit_Streaming f start n hole.
Proof. apply MemCheck_hole_ext. Qed.

Lemma checksum_ignores_hole_witness :
  MemCheck_CalcCheckSum16Bit_Streaming [1; 2; 9; 9; 5; 6] 0 6 2 =
  MemCheck_CalcCheckSum16Bit_Streaming [1; 2; 3; 4; 5; 6] 0 6 2.
Proof.
  apply (checksum_ignores_hole [1; 2; 3; 4; 5; 6] [1; 2; 9; 9; 5; 6] 0 6 2);
    try lia; try reflexivity.
  intros i H1 H2.
  do 2 (destruct i as [|i]; [reflexivity|]).
  do 2 (destruct i as [|i]; [lia|]).
  reflexivity.
Defined.

(** X7: only the complete 16-bit words that the file holds in the range
    count.  The range is cut at the end of the file, and a last odd
    byte is read and dropped: the checksum over [uiLen] bytes from
    [in_offset] equals the checksum over the even number of bytes
    [2 * (min(uiLen, size - in_offset) / 2)]. *)
Theorem checksum_whole_words_in_file f start n hole :
  0 <= start <= len f -> 0 <= n ->
  MemCheck_CalcCheckSum16Bit_Streaming f start n hole =
  MemCheck_CalcCheckSum16Bit_Streaming f start
    (2 * (Z.min n (len f - start) / 2)) hole.
Proof.
  intros Hs Hn.
  rewrite !MemCheck_closed_form by lia. do 3 f_equal.
  rewrite <- (spec_sum_whole_words (pread f start n)). f_equal.
  assert (Hlen : Z.of_nat (length (pread f start n)) = Z.min n (len f - start)).
  { pose proof (pread_length f start n ltac:(lia) Hn) as H. unfold len in *. lia. }
  set (m := Z.min n (len f - start)) in *.
  assert (Hm : 0 <= m) by (unfold len in *; lia).
  assert (Hhalf : Z.of_nat (2 * (length (pread f start n) / 2)) = 2 * (m / 2)).
  { rewrite Nat2Z.inj_mul, Nat2Z.inj_div, Hlen. reflexivity. }
  assert (2 * (m / 2) <= m) by (Z.div_mod_to_equations; lia).
  set (k := (2 * (length (pread f start n) / 2))%nat) in *.
  unfold pread. rewrite take_take. f_equal. lia.
Qed.

Lemma checksum_whole_words_in_file_witness :
  MemCheck_CalcCheckSum16Bit_Streaming [1; 0; 2; 0; 3] 0 9 (-1) =
  MemCheck_CalcCheckSum16Bit_Streaming [1; 0; 2; 0; 3] 0
    (2 * (Z.min 9 (len [1; 0; 2; 0; 3] - 0) / 2)) (-1).
Proof.
  apply (checksum_whole_words_in_file [1; 0; 2; 0; 3] 0 9 (-1)).
  - vm_compute. split; discriminate.
  - lia.
Defined.

End ChecksumProperties.

(** ** The checksum inside the uncompressed data *)

Section EmbeddedChecksum.
Import BCL1 Checksum.

Lemma crc_location_offsets h off :
  crc_location h = (true, off) -> off = 0x46E \/ off = 0x6E \/ off = 0x16E.
Proof.
  unfold crc_location. intros H.
  repeat match type of H with
         | (if ?c then _ else _) = _ => destruct c
         end;
    try discriminate; injection H as <-; auto.
Qed.

Lemma two_bytes_le c :
  0 <= c ->
  le_value [Z.land c 0xFF; Z.land (Z.shiftr c 8) 0xFF] = c mod 65536.
Proof.
  intros Hc. unfold le_value. cbn [foldr].
  change 0xFF with (Z.ones 8). rewrite !Z.land_ones by lia.
  rewrite Z.shiftr_div_pow2 by lia. change (2 ^ 8) with 256.
  Z.div_mod_to_equations. lia.
Qed.

(** X8: the checksum the uncompressed data carries.  When the first
    0x500 bytes show one of the three signatures, the checksum offset is
    0x46E, 0x6E or 0x16E; data that ends at or before the byte after
    that offset makes [BCL1_compress] fail with an [IndexError]; on
    longer data the checksum [c] is computed over the whole data with
    the hole at the offset, only the two bytes at the offset change,
    they hold [c] modulo 2^16 in little-endian order, and the checksum
    of the data that is compressed, computed the same way, is [c]
    again. *)
Theorem embedded_checksum_is_fixed raw off :
  crc_location (pread raw 0 (Z.min 0x500 (len raw))) = (true, off) ->
  (off = 0x46E \/ off = 0x6E \/ off = 0x16E) /\
  (len raw <= off + 1 -> prepare_dataread raw = Raise) /\
  (off + 1 < len raw ->
   exists c dataread,
     MemCheck_CalcCheckSum16Bit raw 0 (len raw) off = Ok c /\
     prepare_dataread raw = Ok dataread /\
     length dataread = length raw /\
     (forall i : nat, Z.of_nat i <> off -> Z.of_nat i <> off + 1 ->
        dataread !! i = raw !! i) /\
     unpack_le 2 (pread dataread off 2) = Ok (c mod 65536) /\
     MemCheck_CalcCheckSum16Bit dataread 0 (len dataread) off = Ok c).
Proof.
  intros Hloc. pose proof (crc_location_offsets _ _ Hloc) as Hoff.
  split; [exact Hoff|].
  assert (Hpos : 0 <= off /\ off mod 2 = 0)
    by (destruct Hoff as [-> | [-> | ->]]; split; (lia || reflexivity)).
  destruct Hpos as [Hpos Hev].
  unfold prepare_dataread, MemCheck_CalcCheckSum16Bit. rewrite Hloc.
  rewrite MemCheck_closed_form by lia. cbn [bind].
  set (c := 65536 - spec_sum (pread raw 0 (len raw)) off mod 65536).
  assert (Hc : 0 <= c).
  { pose proof (Z.mod_pos_bound (spec_sum (pread raw 0 (len raw)) off) 65536 ltac:(lia)).
    subst c. lia. }
  split.
  - intros Hshort. destruct (Z.leb_spec (len raw) (off + 1)); [reflexivity | lia].
  - intros Hlong. destruct (Z.leb_spec (len raw) (off + 1)); [lia|].
    set (dataread := <[Z.to_nat (off + 1) := Z.land (Z.shiftr c 8) 0xFF]>
                       (<[Z.to_nat off := Z.land c 0xFF]> raw)).
    assert (Hl : length dataread = length raw)
      by (subst dataread; rewrite !length_insert; reflexivity).
    assert (Hsame : forall i : nat, Z.of_nat i <> off -> Z.of_nat i <> off + 1 ->
              dataread !! i = raw !! i).
    { intros i H1 H2. subst dataread.
      rewrite !list_lookup_insert_ne by lia. reflexivity. }
    exists c, dataread. split; [reflexivity|]. split; [reflexivity|].
    split; [exact Hl|]. split; [exact Hsame|]. split.
    + assert (Hp : pread dataread off 2 = [Z.land c 0xFF; Z.land (Z.shiftr c 8) 0xFF]).
      { apply list_eq. intros i. rewrite pread_lookup.
        unfold len in *.
        destruct i as [|[|i]]; cbn [lookup list_lookup].
        - rewrite decide_True by lia. rewrite Nat.add_0_r. subst dataread.
          rewrite list_lookup_insert_ne by lia.
          apply list_lookup_insert_eq. lia.
        - rewrite decide_True by lia. subst dataread.
          replace (Z.to_nat off + 1)%nat with (Z.to_nat (off + 1)) by lia.
          apply list_lookup_insert_eq. rewrite length_insert. lia.
        - rewrite decide_False by lia. reflexivity. }
      rewrite Hp. unfold unpack_le. rewrite decide_True by reflexivity.
      rewrite two_bytes_le by exact Hc. reflexivity.
    + unfold len. rewrite Hl. fold (len raw).
      rewrite (MemCheck_hole_ext raw dataread 0 (len raw) off);
        try assumption; try lia.
      apply MemCheck_closed_form. lia.
Qed.

Lemma embedded_checksum_is_fixed_witness :
  let raw := replicate 0x6C 0 ++ [0x55; 0xAA] ++ replicate (Z.to_nat 1100) 0 in
  (0x6E = 0x46E \/ 0x6E = 0x6E \/ 0x6E = 0x16E) /\
  (len raw <= 0x6E + 1 -> prepare_dataread raw = Raise) /\
  (0x6E + 1 < len raw ->
   exists c dataread,
     MemCheck_CalcCheckSum16Bit raw 0 (len raw) 0x6E = Ok c /\
     prepare_dataread raw = Ok dataread /\
     length dataread = length raw /\
     (forall i : nat, Z.of_nat i <> 0x6E -> Z.of_nat i <> 0x6E + 1 ->
        dataread !! i = raw !! i) /\
     unpack_le 2 (pread dataread 0x6E 2) = Ok (c mod 65536) /\
     MemCheck_CalcCheckSum16Bit dataread 0 (len dataread) 0x6E = Ok c).
Proof.
  apply (embedded_checksum_is_fixed
           (replicate 0x6C 0 ++ [0x55; 0xAA] ++ replicate (Z.to_nat 1100) 0) 0x6E).
  vm_compute. reflexivity.
Defined.

End EmbeddedChecksum.

(** ** Repair and verification of checksums *)

Section RepairVerifies.
Import Layout Parser Checksum.

Lemma pread_ext f f' off n :
  0 <= off ->
  (forall i : nat, Z.to_nat off <= i < Z.to_nat off + Z.to_nat n -> f' !! i = f !! i)%nat ->
  pread f' off n = pread f off n.
Proof.
  intros Hoff H. apply list_eq. intros i. rewrite !pread_lookup.
  destruct (decide (i < Z.to_nat n)%nat); [|reflexivity].
  apply H. lia.
Qed.

Lemma rd_be_ext f f' off n :
  (forall i : nat, off <= Z.of_nat i < off + Z.of_nat n -> f' !! i = f !! i) ->
  rd_be f' off n = rd_be f off n.
Proof.
  intros H. unfold rd_be. destruct (Z.ltb_spec off 0); [reflexivity|].
  f_equal. apply pread_ext; [lia|]. intros i Hi. apply H. lia.
Qed.

Lemma rd_le_ext f f' off n :
  (forall i : nat, off <= Z.of_nat i < off + Z.of_nat n -> f' !! i = f !! i) ->
  rd_le f' off n = rd_le f off n.
Proof.
  intros H. unfold rd_le. destruct (Z.ltb_spec off 0); [reflexivity|].
  f_equal. apply pread_ext; [lia|]. intros i Hi. apply H. lia.
Qed.

Lemma rd_le_inside f off n x :
  (0 < n)%nat -> rd_le f off n = Ok x -> 0 <= off /\ off + Z.of_nat n <= len f.
Proof.
  intros Hn. unfold rd_le. destruct (Z.ltb_spec off 0) as [Hneg|Hpos]; [discriminate|].
  intros Hu%unpack_le_inv. destruct Hu as [Hl _].
  unfold pread, len in *. rewrite length_take, length_drop in Hl. lia.
Qed.

Lemma le_bytes_4_small c :
  0 <= c < 65536 -> le_bytes 4 c = le_bytes 2 c ++ [0; 0].
Proof.
  intros Hc. cbn [le_bytes app].
  replace (c / 256 / 256) with 0 by (Z.div_mod_to_equations; lia).
  reflexivity.
Qed.

(** A two-byte write inside the file changes those two bytes only. *)
Lemma pwrite_two f off c :
  0 <= off -> off + 2 <= len f ->
  let f' := pwrite f off (le_bytes 2 c) in
  length f' = length f /\
  (forall i : nat, Z.of_nat i <> off -> Z.of_nat i <> off + 1 -> f' !! i = f !! i) /\
  pread f' off 2 = le_bytes 2 c.
Proof.
  intros Hoff Hin f'. unfold len in *.
  assert (Hne : le_bytes 2 c <> []) by discriminate.
  split; [|split].
  - subst f'. rewrite pwrite_length by exact Hne. rewrite le_bytes_length. lia.
  - intros i H1 H2. subst f'.
    destruct (decide (i < Z.to_nat off)%nat).
    + apply pwrite_lookup_before; lia.
    + apply pwrite_lookup_after. rewrite le_bytes_length. lia.
  - apply (pread_pwrite_same f off (le_bytes 2 c)). exact Hoff.
Qed.

(** X9: repair of the checksum of an HDR2 file.  When the file has at
    least 0x28 bytes, its bytes 0x26 and 0x27 are zero, and the
    checksum [c] computed over [total_file_size] bytes with the hole at
    0x24 is a 16-bit value different from [checksum_value], the repair
    writes [c] at 0x24, changes no byte but those at 0x24 and 0x25, and
    leaves a file whose checksum field holds the checksum computed on
    it. *)
Theorem hdr2_repair_verifies s f c :
  FW_HDR2 s = 1 -> 0x28 <= len f ->
  f !! 0x26%nat = Some 0 -> f !! 0x27%nat = Some 0 ->
  MemCheck_CalcCheckSum16Bit f 0 (total_file_size s) 0x24 = Ok c ->
  c < 65536 -> checksum_value s <> c ->
  exists f',
    fix_file_crc s f = Ok f' /\
    length f' = length f /\
    (forall i : nat, i <> 0x24%nat -> i <> 0x25%nat -> f' !! i = f !! i) /\
    rd_le f' 0x24 4 = Ok c /\
    MemCheck_CalcCheckSum16Bit f' 0 (total_file_size s) 0x24 = Ok c.
Proof.
  intros H2 Hlen H26 H27 Hc Hsmall Hne.
  assert (Hc0 : 0 <= c).
  { unfold MemCheck_CalcCheckSum16Bit in Hc.
    rewrite MemCheck_closed_form in Hc by lia. injection Hc as <-.
    pose proof (Z.mod_pos_bound (spec_sum (pread f 0 (total_file_size s)) 36) 65536
                  ltac:(lia)). lia. }
  destruct (pwrite_two f 0x24 c ltac:(lia) ltac:(lia)) as (Hl & Hsame & Hrd).
  set (f2 := pwrite f 0x24 (le_bytes 2 c)) in *.
  assert (Hf' : pwrite f 0x24 (le_bytes 4 c) = f2).
  { apply list_eq. intros i.
    destruct (decide (i < 0x24)%nat) as [Hi|Hi].
    { subst f2. unfold len in Hlen. rewrite !pwrite_lookup_before by lia. reflexivity. }
    destruct (decide (0x28 <= i)%nat) as [Hj|Hj].
    { subst f2. rewrite !pwrite_lookup_after by (rewrite le_bytes_length; lia).
      reflexivity. }
    rewrite pwrite_lookup_in by (rewrite le_bytes_length; lia).
    rewrite le_bytes_4_small by lia.
    destruct (decide (i < 0x26)%nat) as [Hk|Hk].
    - subst f2. rewrite pwrite_lookup_in by (rewrite le_bytes_length; lia).
      apply lookup_app_l. rewrite le_bytes_length. lia.
    - rewrite Hsame by lia.
      rewrite lookup_app_r by (rewrite le_bytes_length; lia).
      rewrite le_bytes_length.
      assert (Hi2 : i = 0x26%nat \/ i = 0x27%nat) by lia.
      destruct Hi2 as [-> | ->]; [rewrite H26 | rewrite H27]; reflexivity. }
  exists f2. unfold fix_file_crc. rewrite H2. change (1 =? 1) with true. cbv iota.
  rewrite Hc. cbn [bind].
  destruct (Z.eqb_spec (checksum_value s) c) as [E|_]; [contradiction|].
  rewrite pack_le_ok by (change (256 ^ Z.of_nat 4) with 4294967296; lia).
  cbn [bind]. unfold seek_write. change (0x24 <? 0) with false. cbv iota.
  rewrite Hf'. split; [reflexivity|]. split; [exact Hl|]. split.
  - intros i H1 H3. apply Hsame; lia.
  - split.
    + unfold rd_le. change (0x24 <? 0) with false. cbv iota.
      rewrite <- Hf'. change (Z.of_nat 4) with (len (le_bytes 4 c)).
      rewrite pread_pwrite_same by lia.
      apply unpack_le_le_bytes. change (256 ^ Z.of_nat 4) with 4294967296. lia.
    + unfold MemCheck_CalcCheckSum16Bit in *. rewrite <- Hc.
      apply (MemCheck_hole_ext f f2 0 (total_file_size s) 0x24
               ltac:(lia) ltac:(lia) eq_refl Hl).
      intros i H1 H3. apply Hsame; lia.
Qed.

Lemma hdr2_repair_verifies_witness :
  exists f',
    fix_file_crc s4_state s4_file = Ok f' /\
    length f' = length s4_file /\
    (forall i : nat, i <> 0x24%nat -> i <> 0x25%nat -> f' !! i = s4_file !! i) /\
    rd_le f' 0x24 4 = Ok 0xE32A /\
    MemCheck_CalcCheckSum16Bit f' 0 (total_file_size s4_state) 0x24 = Ok 0xE32A.
Proof.
  apply (hdr2_repair_verifies s4_state s4_file 0xE32A).
  - reflexivity.
  - vm_compute. discriminate.
  - reflexivity.
  - reflexivity.
  - vm_compute. reflexivity.
  - lia.
  - vm_compute. discriminate.
Defined.

Tactic Notation "bind_inv" hyp(H) "as" ident(a) ident(E) :=
  apply bind_Ok_inv in H; destruct H as (a & E & H).

Ltac kill_branch H :=
  repeat first
    [ discriminate H
    | match type of H with
      | (if ?c then _ else _) = _ => destruct c
      | bind ?r _ = _ => destruct r as [?| ?|]; cbn [bind] in H
      | (let '(_, _) := ?p in _) = _ => destruct p
      | match ?x with _ => _ end = _ => destruct x
      end ].

(** What a report of a BCL1 partition says about the file. *)
Lemma GetPartitionInfo_bcl1_inv fuel FB names f start size id addinfo stored calc names' :
  GetPartitionInfo fuel FB names f start size id addinfo
    = Ok (Kbcl1, stored, calc, names') ->
  exists fuel' packed crc,
    fuel = S fuel' /\
    rd_be f start 4 = Ok 0x42434C31 /\
    has_name names id name_atf = Ok false /\
    has_name names id name_uboot = Ok false /\
    rd_le f (start + 4) 2 = Ok stored /\
    (exists algo, rd_be f (start + 6) 2 = Ok algo) /\
    (exists usize, rd_be f (start + 8) 4 = Ok usize) /\
    rd_be f (start + 12) 4 = Ok packed /\
    MemCheck_CalcCheckSum16Bit f start (packed + 0x10) 0x4 = Ok crc /\
    calc = (if FB =? 1 then 0 else crc) /\ names' = names.
Proof.
  intros H. destruct fuel as [|fuel']; [discriminate|].
  cbn [GetPartitionInfo] in H.
  bind_inv H as first4 E4.
  destruct (Z.eqb_spec first4 0xD00DFEED) as [Ed|Ed]; [exfalso; kill_branch H|].
  bind_inv H as atf Eatf. destruct atf; [discriminate|].
  bind_inv H as uboot Euboot.
  destruct uboot; [exfalso; kill_branch H|].
  destruct (Z.eqb_spec first4 0x27051956) as [Eu|Eu]; [exfalso; kill_branch H|].
  destruct (Z.eqb_spec first4 0x3AFF26ED) as [Es|Es]; [discriminate|].
  destruct (Z.eqb_spec first4 0x42434C31) as [Eb|Eb].
  - bind_inv H as chk Echk. bind_inv H as algo Ealgo.
    bind_inv H as usize Eusize. bind_inv H as packed Epacked.
    bind_inv H as crc Ecrc. injection H as <- <- <-.
    subst first4. exists fuel', packed, crc.
    repeat split; try assumption; eauto.
  - exfalso. destruct (first4 =? 0x55424923); [kill_branch H|].
    bind_inv H as cksm Ecksm.
    destruct cksm as [[|]|]; kill_branch H.
Qed.

Lemma GetPartitionInfo_bcl1_intro fuel FB names f start size id addinfo
    stored algo usize packed crc :
  rd_be f start 4 = Ok 0x42434C31 ->
  has_name names id name_atf = Ok false ->
  has_name names id name_uboot = Ok false ->
  rd_le f (start + 4) 2 = Ok stored ->
  rd_be f (start + 6) 2 = Ok algo ->
  rd_be f (start + 8) 4 = Ok usize ->
  rd_be f (start + 12) 4 = Ok packed ->
  MemCheck_CalcCheckSum16Bit f start (packed + 0x10) 0x4 = Ok crc ->
  GetPartitionInfo (S fuel) FB names f start size id addinfo
    = Ok (Kbcl1, stored, if FB =? 1 then 0 else crc, names).
Proof.
  intros E4 Eatf Euboot Echk Ealgo Eusize Epacked Ecrc.
  cbn [GetPartitionInfo]. rewrite E4. cbn [bind].
  change (0x42434C31 =? 0xD00DFEED) with false. cbv iota.
  rewrite Eatf. cbn [bind]. rewrite Euboot. cbn [bind].
  change (0x42434C31 =? 0x27051956) with false.
  change (0x42434C31 =? 0x3AFF26ED) with false.
  change (0x42434C31 =? 0x42434C31) with true. cbv iota.
  rewrite Echk, Ealgo, Eusize, Epacked. cbn [bind].
  rewrite Ecrc. reflexivity.
Qed.

(** X10: repair of the checksum of a BCL1 partition.  When the
    classifier reports a BCL1 partition at [start] with the computed
    checksum [calc], outside a bootloader file, then for a 16-bit
    [calc] the repair writes it at [start + 4], changes no other byte,
    and the classifier then reports the stored checksum equal to the
    computed one; for [calc = 0x10000] the repair fails in
    [struct.pack]. *)
Theorem bcl1_repair_verifies fuel names f start size id stored calc names' :
  GetPartitionInfo fuel 0 names f start size id true
    = Ok (Kbcl1, stored, calc, names') ->
  (calc = 65536 -> fix_partition 0 f start Kbcl1 calc = Raise) /\
  (calc < 65536 ->
   exists f',
     fix_partition 0 f start Kbcl1 calc = Ok f' /\
     length f' = length f /\
     (forall i : nat, Z.of_nat i <> start + 4 -> Z.of_nat i <> start + 5 ->
        f' !! i = f !! i) /\
     GetPartitionInfo fuel 0 names f' start size id true
       = Ok (Kbcl1, calc, calc, names')).
Proof.
  intros H.
  apply GetPartitionInfo_bcl1_inv in H
    as (fuel' & packed & crc & -> & E4 & Eatf & Euboot & Echk & [algo Ealgo]
        & [usize Eusize] & Epacked & Ecrc & Hcalc & ->).
  change (0 =? 1) with false in Hcalc. cbv iota in Hcalc. subst crc.
  split.
  { intros ->. reflexivity. }
  intros Hsmall.
  assert (Hc0 : 0 <= calc).
  { unfold MemCheck_CalcCheckSum16Bit in Ecrc.
    assert (Hs : 0 <= start).
    { unfold rd_be in E4. destruct (Z.ltb_spec start 0); [discriminate | assumption]. }
    rewrite MemCheck_closed_form in Ecrc by exact Hs. injection Ecrc as <-.
    pose proof (Z.mod_pos_bound (spec_sum (pread f start (packed + 16)) 4) 65536
                  ltac:(lia)). lia. }
  destruct (rd_le_inside f (start + 4) 2 stored ltac:(lia) Echk) as [Hpos Hin].
  change (Z.of_nat 2) with 2 in Hin.
  destruct (pwrite_two f (start + 4) calc ltac:(lia) ltac:(lia)) as (Hl & Hsame & Hrd).
  set (f' := pwrite f (start + 4) (le_bytes 2 calc)) in *.
  assert (Hsame' : forall i : nat, Z.of_nat i <> start + 4 -> Z.of_nat i <> start + 5 ->
            f' !! i = f !! i).
  { intros i H1 H2. apply Hsame; lia. }
  exists f'. unfold fix_partition. change (0 =? 0) with true. cbv iota.
  rewrite pack_le_ok by (change (256 ^ Z.of_nat 2) with 65536; lia).
  cbn [bind]. unfold seek_write.
  destruct (Z.ltb_spec (start + 4) 0); [lia|].
  split; [reflexivity|]. split; [exact Hl|]. split; [exact Hsame'|].
  assert (Hs : 0 <= start).
  { unfold rd_be in E4. destruct (Z.ltb_spec start 0); [discriminate | assumption]. }
  apply (GetPartitionInfo_bcl1_intro fuel' 0 names f' start size id true
           calc algo usize packed calc).
  - rewrite <- E4. apply rd_be_ext. intros i Hi. apply Hsame'; lia.
  - exact Eatf.
  - exact Euboot.
  - unfold rd_le. destruct (Z.ltb_spec (start + 4) 0); [lia|].
    change (Z.of_nat 2) with 2. rewrite Hrd.
    apply unpack_le_le_bytes. change (256 ^ Z.of_nat 2) with 65536. lia.
  - rewrite <- Ealgo. apply rd_be_ext. intros i Hi. apply Hsame'; lia.
  - rewrite <- Eusize. apply rd_be_ext. intros i Hi. apply Hsame'; lia.
  - rewrite <- Epacked. apply rd_be_ext. intros i Hi. apply Hsame'; lia.
  - unfold MemCheck_CalcCheckSum16Bit in *. rewrite <- Ecrc.
    apply (MemCheck_hole_ext f f' start (packed + 16) 4
             Hs ltac:(lia) eq_refl Hl).
    intros i H1 H2. apply Hsame'; lia.
Qed.

Lemma bcl1_repair_verifies_witness :
  (27966 = 65536 -> fix_partition 0 BCL1.sample_block 0 Kbcl1 27966 = Raise) /\
  (27966 < 65536 ->
   exists f',
     fix_partition 0 BCL1.sample_block 0 Kbcl1 27966 = Ok f' /\
     length f' = length BCL1.sample_block /\
     (forall i : nat, Z.of_nat i <> 0 + 4 -> Z.of_nat i <> 0 + 5 ->
        f' !! i = BCL1.sample_block !! i) /\
     GetPartitionInfo 1 0 [] f' 0 20 0 true = Ok (Kbcl1, 27966, 27966, [])).
Proof.
  apply (bcl1_repair_verifies 1 [] BCL1.sample_block 0 20 0 0 27966 []).
  vm_compute. reflexivity.
Defined.

End RepairVerifies.

(** ** The marker byte *)

Section MarkerProperties.
Import BCL1.

Lemma histogram_fold_count : forall (l : list Z) (h : list Z) (i : nat),
  Forall (fun b => 0 <= b /\ (Z.to_nat b < length h)%nat) l ->
  (i < length h)%nat ->
  fold_left (fun h b => <[Z.to_nat b := h !!! Z.to_nat b + 1]> h) l h !!! i
  = h !!! i + Z.of_nat (count_occ Z.eq_dec l (Z.of_nat i)).
Proof.
  induction l as [|b l IH]; intros h i Hl Hi; cbn [fold_left count_occ].
  { lia. }
  inversion Hl as [|? ? [Hb0 Hb] Hl']; subst.
  rewrite IH.
  - destruct (Z.eq_dec b (Z.of_nat i)) as [E|E].
    + subst b. rewrite Nat2Z.id.
      rewrite list_lookup_total_insert_eq by exact Hi. lia.
    + rewrite list_lookup_total_insert_ne by lia. lia.
  - rewrite length_insert. exact Hl'.
  - rewrite length_insert. exact Hi.
Qed.

Lemma histogram_count d b :
  bytes_ok d -> 0 <= b < 256 ->
  histogram d !!! Z.to_nat b = Z.of_nat (count_occ Z.eq_dec d b).
Proof.
  intros Hd Hb. unfold histogram.
  rewrite histogram_fold_count.
  - rewrite lookup_total_replicate_2 by lia. rewrite Z2Nat.id by lia. reflexivity.
  - rewrite length_replicate. eapply Forall_impl; [exact Hd|].
    intros x Hx. unfold byte_ok in Hx. cbv beta. lia.
  - rewrite length_replicate. lia.
Qed.

Lemma fold_min_le : forall r x y, In y (x :: r) -> fold_left Z.min r x <= y.
Proof.
  induction r as [|z r IH]; intros x y Hin; cbn [fold_left].
  { destruct Hin as [->|[]]. lia. }
  destruct Hin as [->|[->|Hin]].
  - specialize (IH (Z.min y z) (Z.min y z) (or_introl eq_refl)). lia.
  - specialize (IH (Z.min x y) (Z.min x y) (or_introl eq_refl)). lia.
  - apply IH. right. exact Hin.
Qed.

Lemma index_of_first x : forall l,
  In x l ->
  l !!! Z.to_nat (index_of x l) = x /\
  forall j, 0 <= j < index_of x l -> l !!! Z.to_nat j <> x.
Proof.
  induction l as [|y l IH]; intros Hin; [destruct Hin|].
  cbn [index_of]. destruct (Z.eqb_spec y x) as [E|E].
  - split; [exact E | intros j Hj; lia].
  - destruct Hin as [Hy|Hin]; [contradiction|].
    destruct (IH Hin) as [IH1 IH2].
    pose proof (index_of_bound x l Hin) as Hb.
    split.
    + replace (Z.to_nat (1 + index_of x l)) with (S (Z.to_nat (index_of x l))) by lia.
      exact IH1.
    + intros j Hj. destruct (Z.eq_dec j 0) as [->|Hne]; [exact E|].
      replace (Z.to_nat j) with (S (Z.to_nat (j - 1))) by lia.
      apply IH2. lia.
Qed.

Lemma find_marker_least d :
  bytes_ok d ->
  0 <= find_marker d < 256 /\
  (forall b, 0 <= b < 256 ->
     (count_occ Z.eq_dec d (find_marker d) <= count_occ Z.eq_dec d b)%nat) /\
  (forall b, 0 <= b < find_marker d ->
     (count_occ Z.eq_dec d (find_marker d) < count_occ Z.eq_dec d b)%nat).
Proof.
  intros Hd. pose proof (find_marker_range d) as Hr.
  split; [exact Hr|].
  pose proof (histogram_count d (find_marker d) Hd Hr) as Hm.
  unfold find_marker in *.
  pose proof (histogram_length d) as Hl.
  set (h := histogram d) in *.
  destruct h as [|x r] eqn:Eh; [discriminate|]. rewrite <- Eh in *.
  assert (Hmin_in : In (list_min h) h).
  { rewrite Eh. apply fold_min_in. }
  assert (Hmin_le : forall i : nat, (i < 256)%nat -> list_min h <= h !!! i).
  { intros i Hi. rewrite Eh at 1. apply fold_min_le. rewrite <- Eh.
    apply list_elem_of_In, list_elem_of_lookup_total_2. lia. }
  destruct (index_of_first (list_min h) h Hmin_in) as [Hfirst Hbefore].
  rewrite Hfirst in Hm.
  split.
  - intros b Hb. pose proof (Hmin_le (Z.to_nat b) ltac:(lia)) as Hle.
    subst h. rewrite histogram_count in Hle by assumption. lia.
  - intros b Hb. pose proof (Hmin_le (Z.to_nat b) ltac:(lia)) as Hle.
    pose proof (Hbefore b Hb) as Hne.
    subst h. rewrite histogram_count in Hle, Hne by (assumption || lia). lia.
Qed.

(** X11: the marker is the least frequent byte value.  The marker is a
    byte value that occurs in the data no more often than any other,
    and every smaller byte value occurs more often: of the least
    frequent values, the encoder takes the lowest. *)
Theorem marker_is_least_frequent d :
  bytes_ok d ->
  0 <= find_marker d < 256 /\
  (forall b, 0 <= b < 256 ->
     (count_occ Z.eq_dec d (find_marker d) <= count_occ Z.eq_dec d b)%nat) /\
  (forall b, 0 <= b < find_marker d ->
     (count_occ Z.eq_dec d (find_marker d) < count_occ Z.eq_dec d b)%nat).
Proof. apply find_marker_least. Qed.

Lemma marker_is_least_frequent_witness :
  let d := [0; 1; 1; 0; 2] in
  0 <= find_marker d < 256 /\
  (forall b, 0 <= b < 256 ->
     (count_occ Z.eq_dec d (find_marker d) <= count_occ Z.eq_dec d b)%nat) /\
  (forall b, 0 <= b < find_marker d ->
     (count_occ Z.eq_dec d (find_marker d) < count_occ Z.eq_dec d b)%nat).
Proof.
  apply (marker_is_least_frequent [0; 1; 1; 0; 2]).
  unfold bytes_ok. repeat (constructor; [unfold byte_ok; lia|]). constructor.
Defined.

End MarkerProperties.

(** ** Size of the LZ77 payload *)

Section PayloadSize.
Import BCL1.

(** The field takes the least number of 7-bit groups. *)
Lemma varint_num_bytes_least x :
  0 <= x < 2 ^ 35 ->
  varint_num_bytes x = 1 \/ 128 ^ (varint_num_bytes x - 1) <= x.
Proof.
  intros Hx. unfold varint_num_bytes.
  rewrite Z.shiftr_div_pow2 by lia. change (2 ^ 3) with 8.
  set (y := x / 8).
  assert (Hy : 0 <= y < 2 ^ 32).
  { subst y. split; [apply Z.div_pos; lia|].
    apply Z.div_lt_upper_bound; [lia|]. change (8 * 2 ^ 32) with (2 ^ 35). lia. }
  assert (Hxy : 8 * y <= x < 8 * y + 8).
  { subst y. pose proof (Z.div_mod x 8 ltac:(lia)).
    pose proof (Z.mod_pos_bound x 8 ltac:(lia)). lia. }
  change (2 ^ 32) with 4294967296 in *. change (2 ^ 35) with 34359738368 in *.
  cbn [num_bytes_loop]. change (5 >=? 2) with true. cbv iota.
  rewrite high_bits_test by (change (2 ^ 32) with 4294967296; lia).
  change (2 ^ 25) with 33554432.
  destruct (Z.ltb_spec y 33554432); cbn [negb];
    [|right; change (128 ^ (5 - 1)) with 268435456; lia].
  change (5 - 1 >=? 2) with true. cbv iota.
  rewrite Z.shiftl_mul_pow2 by lia. change (2 ^ 7) with 128.
  rewrite high_bits_test by (change (2 ^ 32) with 4294967296; lia).
  change (2 ^ 25) with 33554432.
  destruct (Z.ltb_spec (y * 128) 33554432); cbn [negb];
    [|right; change (128 ^ (5 - 1 - 1)) with 2097152; lia].
  change (5 - 1 - 1 >=? 2) with true. cbv iota.
  rewrite Z.shiftl_mul_pow2 by lia. change (2 ^ 7) with 128.
  rewrite high_bits_test by (change (2 ^ 32) with 4294967296; lia).
  change (2 ^ 25) with 33554432.
  destruct (Z.ltb_spec (y * 128 * 128) 33554432); cbn [negb];
    [|right; change (128 ^ (5 - 1 - 1 - 1)) with 16384; lia].
  change (5 - 1 - 1 - 1 >=? 2) with true. cbv iota.
  rewrite Z.shiftl_mul_pow2 by lia. change (2 ^ 7) with 128.
  rewrite high_bits_test by (change (2 ^ 32) with 4294967296; lia).
  change (2 ^ 25) with 33554432.
  destruct (Z.ltb_spec (y * 128 * 128 * 128) 33554432); cbn [negb];
    [|right; change (128 ^ (5 - 1 - 1 - 1 - 1)) with 128; lia].
  left. reflexivity.
Qed.

Lemma varint_length x : 0 <= x < 2 ^ 35 -> len (varint x) = varint_num_bytes x.
Proof.
  intros Hx. destruct (varint_num_bytes_spec x Hx) as [Hn _].
  rewrite varint_as_bytes by lia.
  unfold len. rewrite varint_bytes_length. lia.
Qed.

Lemma varint_length_le x (k : Z) :
  0 <= x < 128 ^ k -> 1 <= k <= 5 -> len (varint x) <= k.
Proof.
  intros Hx Hk.
  assert (Hx35 : 0 <= x < 2 ^ 35).
  { split; [lia|]. apply Z.lt_le_trans with (128 ^ k); [lia|].
    change (2 ^ 35) with (128 ^ 5). apply Z.pow_le_mono_r; lia. }
  rewrite varint_length by exact Hx35.
  destruct (varint_num_bytes_spec x Hx35) as [Hn _].
  destruct (varint_num_bytes_least x Hx35) as [E|Hle]; [lia|].
  destruct (Z.le_gt_cases (varint_num_bytes x) k) as [|Hgt]; [assumption|].
  exfalso.
  assert (128 ^ k <= 128 ^ (varint_num_bytes x - 1)) by (apply Z.pow_le_mono_r; lia).
  lia.
Qed.

(** A back-reference that is written is shorter than what it stands
    for. *)
Lemma ref_cost marker l o :
  worth_emitting l o = true -> 3 < l -> l <= o -> o < LZ_MAX_OFFSET ->
  len (token_bytes marker (Ref l o)) < l.
Proof.
  unfold worth_emitting, LZ_MAX_OFFSET. intros Hw Hl Hlo Ho.
  cbn [token_bytes]. unfold len. cbn [length]. rewrite length_app.
  assert (H3 : forall x, 0 <= x < 100000 -> len (varint x) <= 3).
  { intros x Hx. apply varint_length_le; [change (128 ^ 3) with 2097152|]; lia. }
  pose proof (H3 l ltac:(lia)) as Hl3. pose proof (H3 o ltac:(lia)) as Ho3.
  unfold len in *.
  destruct (Z.gtb_spec l 7) as [H7|H7]; [lia|]. cbn [orb] in Hw.
  assert (Hl1 : Z.of_nat (length (varint l)) <= 1).
  { apply (varint_length_le l 1); [change (128 ^ 1) with 128|]; lia. }
  destruct (Z.eqb_spec l 4) as [E4|E4]; cbn [andb orb] in Hw.
  { destruct (Z.leb_spec o 127) as [Hb|Hb]; cbn [orb] in Hw.
    - pose proof (varint_length_le o 1 ltac:(change (128 ^ 1) with 128; lia) ltac:(lia)).
      unfold len in *. lia.
    - destruct (Z.eqb_spec l 5); [lia|]. destruct (Z.eqb_spec l 6); [lia|].
      destruct (Z.eqb_spec l 7); [lia|]. discriminate. }
  destruct (Z.eqb_spec l 5) as [E5|E5]; cbn [andb orb] in Hw.
  { destruct (Z.leb_spec o 16383) as [Hb|Hb]; cbn [orb] in Hw.
    - pose proof (varint_length_le o 2 ltac:(change (128 ^ 2) with 16384; lia) ltac:(lia)).
      unfold len in *. lia.
    - destruct (Z.eqb_spec l 6); [lia|].
      destruct (Z.eqb_spec l 7); [lia|]. discriminate. }
  lia.
Qed.

Variable d : list Z.
Hypothesis d_ok : bytes_ok d.
Variable marker : Z.

(** Occurrences of the marker from position [a] on. *)
Let tail_count (a : Z) : Z :=
  Z.of_nat (count_occ Z.eq_dec (drop (Z.to_nat a) d) marker).

Lemma tail_count_step a :
  0 <= a < len d ->
  tail_count a = (if byte_at d a =? marker then 1 else 0) + tail_count (a + 1).
Proof.
  intros Ha. unfold tail_count.
  assert (Hd : drop (Z.to_nat a) d = byte_at d a :: drop (Z.to_nat (a + 1)) d).
  { replace (Z.to_nat (a + 1)) with (S (Z.to_nat a)) by lia.
    apply drop_S. unfold byte_at. apply list_lookup_lookup_total_lt.
    unfold len in Ha. lia. }
  rewrite Hd. cbn [count_occ].
  destruct (Z.eq_dec (byte_at d a) marker) as [E|E].
  - rewrite E, Z.eqb_refl. lia.
  - apply Z.eqb_neq in E. rewrite E. lia.
Qed.

Lemma tail_count_mono a b : 0 <= a <= b -> tail_count b <= tail_count a.
Proof.
  intros Hab. unfold tail_count.
  replace (Z.to_nat b) with (Z.to_nat a + Z.to_nat (b - a))%nat by lia.
  rewrite <- drop_drop.
  rewrite <- (take_drop (Z.to_nat (b - a)) (drop (Z.to_nat a) d)) at 2.
  rewrite count_occ_app. lia.
Qed.

Lemma tail_count_end : tail_count (len d) = 0.
Proof.
  unfold tail_count, len. rewrite Nat2Z.id, drop_all. reflexivity.
Qed.

Variables wd wc : gmap Z Z.
Hypothesis tables : build_jump_table d = (wd, wc).

Lemma lz_loop_cost : forall fuel inpos bytesleft,
  bytesleft = len d - inpos -> 0 <= inpos <= len d ->
  len (trace_bytes marker (lz_loop fuel d wd wc (len d) inpos bytesleft).1)
    + tail_count (lz_loop fuel d wd wc (len d) inpos bytesleft).2
  <= (lz_loop fuel d wd wc (len d) inpos bytesleft).2 - inpos + tail_count inpos /\
  inpos <= (lz_loop fuel d wd wc (len d) inpos bytesleft).2 <= len d.
Proof.
  induction fuel as [|fuel IH]; intros inpos bytesleft Hb Hi; cbn [lz_loop].
  { cbn [fst snd]. unfold trace_bytes, len in *. cbn [flat_map length]. lia. }
  destruct (Z.gtb_spec bytesleft 3) as [Hgt|Hle];
    [|cbn [fst snd]; unfold trace_bytes, len in *; cbn [flat_map length]; lia].
  pose proof (find_match_best_match d d_ok wd wc tables (len d) inpos bytesleft) as Hbest.
  pose proof (find_match_best_ok d wd wc (len d) inpos bytesleft) as Hok.
  destruct (find_match d wd wc (len d) inpos bytesleft) as [bl bo].
  destruct (worth_emitting bl bo) eqn:Hw.
  - pose proof (worth_emitting_length _ _ Hw) as H4.
    destruct Hbest as [E|Hbest]; [injection E; lia|]. cbn [fst snd] in Hbest.
    destruct Hok as [E|Hok]; [injection E; lia|]. cbn [fst snd] in Hok.
    destruct Hbest as (H1 & H2 & H3 & H5 & _).
    specialize (IH (inpos + bl) (bytesleft - bl) ltac:(lia) ltac:(lia)).
    destruct (lz_loop fuel d wd wc (len d) (inpos + bl) (bytesleft - bl)) as [ts p].
    cbn [fst snd] in *. destruct IH as [IH1 IH2].
    pose proof (ref_cost marker bl bo Hw ltac:(lia) ltac:(lia) H5) as Hc.
    pose proof (tail_count_mono inpos (inpos + bl) ltac:(lia)) as Hm.
    split; [|lia].
    change (trace_bytes marker ((inpos, Ref bl bo) :: ts))
      with (token_bytes marker (Ref bl bo) ++ trace_bytes marker ts).
    unfold len in *. rewrite length_app. lia.
  - specialize (IH (inpos + 1) (bytesleft - 1) ltac:(lia) ltac:(lia)).
    destruct (lz_loop fuel d wd wc (len d) (inpos + 1) (bytesleft - 1)) as [ts p].
    cbn [fst snd] in *. destruct IH as [IH1 IH2].
    pose proof (tail_count_step inpos ltac:(lia)) as Hs.
    split; [|lia].
    change (trace_bytes marker ((inpos, Lit (byte_at d inpos)) :: ts))
      with (token_bytes marker (Lit (byte_at d inpos)) ++ trace_bytes marker ts).
    unfold len in *. rewrite length_app. cbn [token_bytes].
    destruct (byte_at d inpos =? marker); cbn [length]; lia.
Qed.

Lemma dump_remaining_cost : forall (fuel : nat) inpos,
  0 <= inpos <= len d ->
  len (trace_bytes marker (dump_remaining fuel d (len d) inpos))
  <= len d - inpos + tail_count inpos.
Proof.
  induction fuel as [|fuel IH]; intros inpos Hi; cbn [dump_remaining].
  { unfold trace_bytes, len. cbn [flat_map length].
    pose proof (tail_count_mono inpos (len d) ltac:(lia)).
    rewrite tail_count_end in *. unfold len in *. lia. }
  destruct (Z.ltb_spec inpos (len d)) as [Hlt|Hge].
  - specialize (IH (inpos + 1) ltac:(lia)).
    pose proof (tail_count_step inpos ltac:(lia)) as Hs.
    change (trace_bytes marker ((inpos, Lit (byte_at d inpos))
              :: dump_remaining fuel d (len d) (inpos + 1)))
      with (token_bytes marker (Lit (byte_at d inpos))
              ++ trace_bytes marker (dump_remaining fuel d (len d) (inpos + 1))).
    unfold len in *. rewrite length_app. cbn [token_bytes].
    destruct (byte_at d inpos =? marker); cbn [length]; lia.
  - unfold trace_bytes, len. cbn [flat_map length].
    pose proof (tail_count_mono inpos (len d) ltac:(lia)).
    rewrite tail_count_end in *. unfold len in *. lia.
Qed.

Lemma trace_cost :
  len (trace_bytes marker (lz77_trace d))
  <= len d + Z.of_nat (count_occ Z.eq_dec d marker).
Proof.
  unfold lz77_trace. rewrite tables.
  pose proof (lz_loop_cost (Z.to_nat (len d)) 0 (len d) ltac:(lia)
                ltac:(unfold len; lia)) as [H1 H2].
  destruct (lz_loop _ _ _ _ _ _ _) as [ts p]. cbn [fst snd] in *.
  pose proof (dump_remaining_cost (Z.to_nat (len d)) p ltac:(lia)) as H3.
  unfold trace_bytes in *. rewrite flat_map_app.
  unfold len in *. rewrite length_app.
  assert (H0 : tail_count 0 = Z.of_nat (count_occ Z.eq_dec d marker)) by reflexivity.
  lia.
Qed.

End PayloadSize.

Section PayloadBound.
Import BCL1.

Lemma sum_list_with_add {A} (f g : A -> nat) l :
  sum_list_with (fun i => (f i + g i)%nat) l
  = (sum_list_with f l + sum_list_with g l)%nat.
Proof. induction l as [|a l IH]; cbn; lia. Qed.

Lemma sum_list_with_eq {A} (f g : A -> nat) l :
  (forall i, f i = g i) -> sum_list_with f l = sum_list_with g l.
Proof. intros H. induction l as [|a l IH]; cbn; [reflexivity | rewrite H, IH; reflexivity]. Qed.

Lemma sum_list_with_lower {A} (f : A -> nat) (c : nat) l :
  (forall i, In i l -> (c <= f i)%nat) ->
  (c * length l <= sum_list_with f l)%nat.
Proof.
  induction l as [|a l IH]; intros H; cbn; [lia|].
  pose proof (H a (or_introl eq_refl)).
  specialize (IH (fun i Hi => H i (or_intror Hi))). lia.
Qed.

Lemma sum_indicator b : forall n : nat,
  0 <= b ->
  sum_list_with (fun i : nat => if Z.eq_dec b (Z.of_nat i) then 1%nat else 0%nat) (seq 0 n)
  = if decide (b < Z.of_nat n) then 1%nat else 0%nat.
Proof.
  induction n as [|n IH]; intros Hb.
  { cbn. destruct (decide _); [lia | reflexivity]. }
  rewrite seq_S, sum_list_with_app, IH by exact Hb. cbn.
  destruct (Z.eq_dec b (Z.of_nat n)), (decide (b < Z.of_nat n)),
    (decide (b < Z.of_nat (S n))); lia.
Qed.

Lemma count_sum d :
  bytes_ok d ->
  sum_list_with (fun i : nat => count_occ Z.eq_dec d (Z.of_nat i)) (seq 0 256) = length d.
Proof.
  induction 1 as [|b d Hb Hd IH].
  { cbn [count_occ]. induction (seq 0 256) as [|a l IHl]; cbn; [reflexivity | exact IHl]. }
  assert (E : forall i : nat,
            count_occ Z.eq_dec (b :: d) (Z.of_nat i)
            = ((if Z.eq_dec b (Z.of_nat i) then 1 else 0)
               + count_occ Z.eq_dec d (Z.of_nat i))%nat).
  { intros i. cbn [count_occ]. destruct (Z.eq_dec b (Z.of_nat i)); reflexivity. }
  rewrite (sum_list_with_eq _ _ _ E).
  rewrite sum_list_with_add, IH, sum_indicator by (unfold byte_ok in Hb; lia).
  unfold byte_ok in Hb. destruct (decide (b < Z.of_nat 256)); [reflexivity | lia].
Qed.

Lemma marker_count_bound d :
  bytes_ok d ->
  Z.of_nat (count_occ Z.eq_dec d (find_marker d)) <= len d / 256.
Proof.
  intros Hd.
  destruct (find_marker_least d Hd) as (_ & Hmin & _).
  pose proof (sum_list_with_lower
                (fun i : nat => count_occ Z.eq_dec d (Z.of_nat i))
                (count_occ Z.eq_dec d (find_marker d)) (seq 0 256)) as Hlow.
  rewrite count_sum, length_seq in Hlow by exact Hd.
  assert (Hle : (count_occ Z.eq_dec d (find_marker d) * 256 <= length d)%nat).
  { apply Hlow. intros i Hi%in_seq. apply Hmin. lia. }
  apply Z.div_le_lower_bound; [lia|]. unfold len. lia.
Qed.

(** X12: size of the LZ77 payload.  A back-reference is written only
    when it takes fewer bytes than the bytes it stands for, and only a
    literal equal to the marker takes two bytes: the payload has at
    most one byte (the marker) more than the data plus one byte for
    each occurrence of the marker in the data, hence at most
    [1 + n + n / 256] bytes for [n] bytes of data. *)
Theorem lz77_payload_size d :
  bytes_ok d ->
  len (lz77_payload d)
    <= 1 + len d + Z.of_nat (count_occ Z.eq_dec d (find_marker d)) /\
  len (lz77_payload d) <= 1 + len d + len d / 256.
Proof.
  intros Hd.
  assert (H : len (lz77_payload d)
              <= 1 + len d + Z.of_nat (count_occ Z.eq_dec d (find_marker d))).
  { unfold lz77_payload.
    destruct (build_jump_table d) as [wd wc] eqn:Ht.
    pose proof (trace_cost d Hd (find_marker d) wd wc Ht) as Hc.
    unfold trace_bytes in Hc. unfold len in *. cbn [length]. lia. }
  split; [exact H|].
  pose proof (marker_count_bound d Hd). lia.
Qed.

Lemma lz77_payload_size_witness :
  let d := [0; 1; 1; 0; 2; 2; 2; 2; 2; 2; 2; 2; 2; 2] in
  len (lz77_payload d)
    <= 1 + len d + Z.of_nat (count_occ Z.eq_dec d (find_marker d)) /\
  len (lz77_payload d) <= 1 + len d + len d / 256.
Proof.
  apply (lz77_payload_size [0; 1; 1; 0; 2; 2; 2; 2; 2; 2; 2; 2; 2; 2]).
  unfold bytes_ok. repeat (constructor; [unfold byte_ok; lia|]). constructor.
Defined.

End PayloadBound.

(** ** The decoder at the size of its buffer *)

Section DecoderLimit.
Import BCL1.

Variable d : list Z.
Hypothesis d_le : len d <= BUFFER_LIMIT.

Lemma len_take pos : 0 <= pos <= len d -> len (take (Z.to_nat pos) d) = pos.
Proof. intros Hp. unfold len in *. rewrite length_take. lia. Qed.

Lemma valid_trace_at_end ts : valid_trace d (len d) ts (len d) -> ts = [].
Proof.
  destruct ts as [|[p [s|l o]] ts]; cbn [valid_trace]; [reflexivity| |]; intros H; lia.
Qed.

(** One iteration of the decoder on the bytes of one token, with the
    write of the buffer once it has [BUFFER_LIMIT] bytes. *)
Lemma dec_step_token_limit marker p t ts pos rest inpos :
  0 <= marker < 256 -> 0 <= pos ->
  valid_trace d pos ((p, t) :: ts) (len d) ->
  exists pos',
    valid_trace d pos' ts (len d) /\ pos < pos' <= len d /\
    dec_step marker
      (DecState (token_bytes marker t ++ rest) inpos (take (Z.to_nat pos) d) pos [])
    = Ok (DecState rest (inpos + len (token_bytes marker t))
            (take (Z.to_nat pos') d) pos'
            (if pos' >=? BUFFER_LIMIT then take (Z.to_nat pos') d else [])).
Proof.
  intros Hm Hpos Hv.
  assert (Hflush : forall pos' stream inpos',
            0 <= pos' <= len d ->
            (if len (take (Z.to_nat pos') d) >=? BUFFER_LIMIT
             then
               let fout := [] ++ take (Z.to_nat pos') d in
               if len (take (Z.to_nat pos') d) >? BUFFER_LIMIT + 100000
               then
                 let written := len (take (Z.to_nat pos') d) - 100000 in
                 let outputbuf := drop (Z.to_nat written) (take (Z.to_nat pos') d) in
                 Ok (DecState stream inpos' outputbuf (len outputbuf) fout)
               else Ok (DecState stream inpos' (take (Z.to_nat pos') d) pos' fout)
             else Ok (DecState stream inpos' (take (Z.to_nat pos') d) pos' []))
            = Ok (DecState stream inpos' (take (Z.to_nat pos') d) pos'
                    (if pos' >=? BUFFER_LIMIT then take (Z.to_nat pos') d else []))).
  { intros pos' stream inpos' Hp. rewrite len_take by exact Hp.
    destruct (pos' >=? BUFFER_LIMIT); [|reflexivity].
    cbv zeta. destruct (Z.gtb_spec pos' (BUFFER_LIMIT + 100000)); [lia | reflexivity]. }
  destruct t as [symbol | length offset]; cbn [valid_trace] in Hv.
  - destruct Hv as (_ & Hp & -> & Hv).
    exists (pos + 1). split; [exact Hv|]. split; [lia|].
    unfold dec_step. cbn [token_bytes d_stream d_inpos d_outputbuf d_outpos d_fout].
    destruct (byte_at d pos =? marker) eqn:Et.
    + apply Z.eqb_eq in Et as E.
      cbn [app read1 bind]. rewrite Et. cbn [read1 bind].
      change (0 =? 0) with true. cbv iota. cbn [bind].
      replace [marker] with [byte_at d pos] by (rewrite E; reflexivity).
      rewrite take_byte_at by lia.
      rewrite Hflush by lia. unfold len. cbn [length].
      do 2 f_equal. lia.
    + cbn [app read1 bind]. rewrite Et.
      cbn [bind]. rewrite take_byte_at by lia.
      rewrite Hflush by lia. reflexivity.
  - destruct Hv as (_ & Hl & Ho & Hmax & Hend & Hmatch & Hv).
    exists (pos + length). split; [exact Hv|]. split; [lia|].
    assert (Hsmall : len d < 2 ^ 35).
    { unfold BUFFER_LIMIT, Checksum.CHUNK_SIZE in d_le.
      change (2 ^ 35) with 34359738368. lia. }
    assert (HL : 0 <= length < 2 ^ 35) by lia.
    assert (HO : 0 <= offset < 2 ^ 35).
    { unfold LZ_MAX_OFFSET in Hmax. change (2 ^ 35) with 34359738368. lia. }
    destruct (read_varint_varint length (varint offset ++ rest) HL)
      as (b1 & bs1 & E1 & Hb1 & Hnz1 & R1).
    destruct (read_varint_varint offset rest HO)
      as (b2 & bs2 & E2 & Hb2 & Hnz2 & R2).
    unfold dec_step. cbn [token_bytes d_stream d_inpos d_outputbuf d_outpos d_fout].
    cbn [app read1 bind]. rewrite Z.eqb_refl.
    rewrite <- app_assoc. rewrite E1 at 1. cbn [app read1 bind].
    destruct (Z.eqb_spec b1 0) as [Hz|Hz]; [exfalso; apply Hnz1; [lia | assumption]|].
    rewrite R1. cbn [bind].
    rewrite E2 at 1. cbn [app read1 bind]. rewrite R2. cbn [bind].
    rewrite <- (Z2Nat.id length) at 2 3 by lia.
    rewrite copy_history_match.
    + cbn [bind]. rewrite Z2Nat.id by lia. rewrite Hflush by lia.
      unfold len. cbn [Datatypes.length]. rewrite !length_app.
      do 2 f_equal. lia.
    + assumption.
    + lia.
    + intros k Hk. apply Hmatch. lia.
Qed.

Lemma dec_loop_trace_limit marker insize rest : forall ts (fuel : nat) pos inpos,
  0 <= marker < 256 -> 0 <= pos < len d ->
  valid_trace d pos ts (len d) ->
  (length ts <= fuel)%nat ->
  inpos + len (trace_bytes marker ts) <= insize ->
  dec_loop fuel marker insize (len d)
    (DecState (trace_bytes marker ts ++ rest) inpos (take (Z.to_nat pos) d) pos [])
  = Ok (DecState rest (inpos + len (trace_bytes marker ts)) d (len d)
          (if len d >=? BUFFER_LIMIT then d else [])).
Proof.
  induction ts as [|[p t] ts IH]; intros fuel pos inpos Hm Hpos Hv Hf Hin.
  { cbn [valid_trace] in Hv. lia. }
  destruct fuel as [|fuel]; [cbn [length] in Hf; lia|].
  destruct (dec_step_token_limit marker p t ts pos
              (trace_bytes marker ts ++ rest) inpos Hm ltac:(lia) Hv)
    as (pos' & Hv' & Hpos' & Hstep).
  assert (Hbytes : trace_bytes marker ((p, t) :: ts)
                   = token_bytes marker t ++ trace_bytes marker ts) by reflexivity.
  assert (Hpos1 : 1 <= len (token_bytes marker t)).
  { unfold len. destruct t as [s|l o]; cbn [token_bytes];
      [destruct (s =? marker)|]; cbn [length]; lia. }
  rewrite Hbytes in *. unfold len in Hin. rewrite length_app in Hin.
  cbn [dec_loop d_inpos d_outpos].
  destruct (Z.ltb_spec inpos insize); [|unfold len in *; lia].
  destruct (Z.ltb_spec pos (len d)); [|lia].
  cbn [andb]. rewrite <- app_assoc, Hstep. cbn [bind].
  destruct (Z.eq_dec pos' (len d)) as [Hend|Hmid].
  - subst pos'. apply valid_trace_at_end in Hv'. subst ts.
    unfold trace_bytes at 1. cbn [flat_map app].
    replace (take (Z.to_nat (len d)) d) with d
      by (unfold len; rewrite Nat2Z.id, take_ge by lia; reflexivity).
    assert (Hdone : forall st, d_outpos st = len d ->
              dec_loop fuel marker insize (len d) st = Ok st).
    { intros st Hst. destruct fuel; cbn [dec_loop]; [reflexivity|].
      rewrite Hst, Z.ltb_irrefl, andb_false_r. reflexivity. }
    rewrite Hdone by reflexivity.
    unfold trace_bytes. cbn [flat_map]. rewrite app_nil_r. reflexivity.
  - destruct (Z.geb_spec pos' BUFFER_LIMIT) as [Hge|Hlt]; [lia|].
    rewrite IH.
    + unfold len. rewrite length_app. do 2 f_equal. lia.
    + assumption.
    + lia.
    + assumption.
    + cbn [length] in Hf. lia.
    + unfold len in *. lia.
Qed.

End DecoderLimit.

Section DecoderLimitTheorem.
Import BCL1.

(** X13: the decoder at 2^20 bytes.  [BUFFER_LIMIT] is 2^20.  For data
    of exactly that many bytes, the buffer reaches the limit at the
    last iteration: the loop writes it and keeps it, and the final
    write puts it out again.  Decoding what the encoder wrote for such
    data yields the data twice. *)
Theorem lz77_decoder_repeats_at_buffer_limit d rest insize :
  bytes_ok d -> len d = BUFFER_LIMIT -> len (lz77_payload d) <= insize ->
  lz77_uncompress (lz77_payload d ++ rest) insize (len d) = Ok (d ++ d).
Proof.
  intros Hok Hlen Hin. unfold lz77_uncompress, lz77_payload in *.
  cbn [app read1 bind].
  fold (trace_bytes (find_marker d) (lz77_trace d)) in *.
  set (marker := find_marker d) in *. set (ts := lz77_trace d) in *.
  assert (Hl : len (marker :: trace_bytes marker ts) = 1 + len (trace_bytes marker ts)).
  { unfold len. cbn [length]. lia. }
  rewrite Hl in Hin.
  pose proof (trace_bytes_length marker ts) as Hts.
  assert (Hpos : 0 <= 0 < len d)
    by (rewrite Hlen; unfold BUFFER_LIMIT, Checksum.CHUNK_SIZE; lia).
  pose proof (dec_loop_trace_limit d ltac:(lia) marker insize rest ts (Z.to_nat insize) 0 1
                (find_marker_range d) Hpos (lz77_trace_valid d Hok)
                ltac:(unfold len in *; lia) ltac:(lia)) as Hdec.
  change (take (Z.to_nat 0) d) with (@nil Z) in Hdec.
  rewrite Hdec. cbn [bind d_fout d_outputbuf].
  destruct (Z.geb_spec (len d) BUFFER_LIMIT); [reflexivity | lia].
Qed.

Lemma lz77_decoder_repeats_at_buffer_limit_witness :
  let d := replicate (Z.to_nat 1048576) 0 in
  lz77_uncompress (lz77_payload d ++ []) (len (lz77_payload d)) (len d) = Ok (d ++ d).
Proof.
  apply (lz77_decoder_repeats_at_buffer_limit (replicate (Z.to_nat 1048576) 0) []
           (len (lz77_payload (replicate (Z.to_nat 1048576) 0)))).
  - apply Forall_replicate. unfold byte_ok. lia.
  - unfold len. rewrite length_replicate. rewrite Z2Nat.id by lia. reflexivity.
  - lia.
Defined.

End DecoderLimitTheorem.

(** ** Two runs of equal bytes *)

Section TwoRunsInput.
Import BCL1.
Variables a b : Z.
Hypothesis Ha : byte_ok a.
Hypothesis Hb : byte_ok b.
Hypothesis Hab : a <> b.

Lemma two_runs_length : len (two_runs a b) = 131072.
Proof.
  unfold len, two_runs. rewrite length_app, !length_replicate. lia.
Qed.

Lemma two_runs_ok : bytes_ok (two_runs a b).
Proof.
  unfold bytes_ok, two_runs. apply Forall_app.
  split; apply Forall_replicate; assumption.
Qed.

Lemma two_runs_first i : 0 <= i < 65536 -> byte_at (two_runs a b) i = a.
Proof.
  intros Hi. unfold byte_at, two_runs.
  rewrite lookup_total_app_l by (rewrite length_replicate; lia).
  apply lookup_total_replicate_2. lia.
Qed.

Lemma two_runs_second i : 65536 <= i < 131072 -> byte_at (two_runs a b) i = b.
Proof.
  intros Hi. unfold byte_at, two_runs.
  rewrite lookup_total_app_r by (rewrite length_replicate; lia).
  apply lookup_total_replicate_2. rewrite length_replicate. lia.
Qed.

Lemma two_runs_trace :
  lz77_trace (two_runs a b) = run_tokens 0 a ++ run_tokens 65536 b.
Proof.
  apply lz77_trace_two_runs; try assumption;
    [exact two_runs_length | exact two_runs_first | exact two_runs_second].
Qed.

Lemma count_occ_replicate_ne (n : nat) (x y : Z) :
  x <> y -> count_occ Z.eq_dec (replicate n x) y = 0%nat.
Proof.
  intros Hne. induction n as [|n IH]; cbn [replicate count_occ]; [reflexivity|].
  destruct (Z.eq_dec x y); [contradiction | exact IH].
Qed.

Lemma two_runs_marker :
  find_marker (two_runs a b) <> a /\ find_marker (two_runs a b) <> b.
Proof.
  destruct (find_marker_least (two_runs a b) two_runs_ok) as (_ & Hmin & _).
  assert (Hfree : exists x, 0 <= x < 256 /\ x <> a /\ x <> b).
  { destruct (Z.eq_dec a 0), (Z.eq_dec b 0), (Z.eq_dec a 1), (Z.eq_dec b 1);
      first [exists 0; lia | exists 1; lia | exists 2; lia]. }
  destruct Hfree as (x & Hx & Hxa & Hxb).
  specialize (Hmin x Hx).
  assert (H0 : count_occ Z.eq_dec (two_runs a b) x = 0%nat).
  { unfold two_runs. rewrite count_occ_app, !count_occ_replicate_ne by congruence.
    reflexivity. }
  rewrite H0 in Hmin.
  assert (Hin : forall y, In y (two_runs a b) -> find_marker (two_runs a b) <> y).
  { intros y Hy E. rewrite E in Hmin.
    apply (count_occ_In Z.eq_dec) in Hy. lia. }
  split; apply Hin; unfold two_runs; apply in_or_app; [left | right];
    (replace (Z.to_nat 65536) with (S (Z.to_nat 65535)) by lia; left; reflexivity).
Qed.

Lemma two_runs_payload_length : len (lz77_payload (two_runs a b)) = 137.
Proof.
  unfold lz77_payload. rewrite two_runs_trace.
  destruct two_runs_marker as [Hma Hmb].
  set (m := find_marker (two_runs a b)) in *.
  unfold run_tokens. cbn [app flat_map snd token_bytes].
  destruct (Z.eqb_spec a m) as [E|_]; [congruence|].
  destruct (Z.eqb_spec b m) as [E|_]; [congruence|].
  vm_compute. reflexivity.
Qed.

End TwoRunsInput.

Section TwoRunsTheorem.
Import BCL1.

(** X14: two runs.  For 64 KiB of a byte [a] followed by 64 KiB of a
    different byte [b], the main loop writes, for each run, four
    literals and then back-references of 4, 8, 16, ..., 32768 bytes,
    each at a distance equal to its length; the marker is neither [a]
    nor [b]; the payload has 137 bytes; and the decoder returns the
    input from it. *)
Theorem two_runs_encoding a b rest insize :
  byte_ok a -> byte_ok b -> a <> b -> 137 <= insize ->
  lz77_trace (two_runs a b) = run_tokens 0 a ++ run_tokens 65536 b /\
  find_marker (two_runs a b) <> a /\ find_marker (two_runs a b) <> b /\
  len (lz77_payload (two_runs a b)) = 137 /\
  lz77_uncompress (lz77_payload (two_runs a b) ++ rest) insize (len (two_runs a b))
    = Ok (two_runs a b).
Proof.
  intros Ha Hb Hab Hin.
  split; [apply two_runs_trace; assumption|].
  destruct (two_runs_marker a b Ha Hb Hab) as [Hma Hmb].
  split; [exact Hma|]. split; [exact Hmb|].
  pose proof (two_runs_payload_length a b Ha Hb Hab) as Hl.
  split; [exact Hl|].
  apply lz77_payload_roundtrip.
  - apply two_runs_ok; assumption.
  - rewrite two_runs_length. unfold BUFFER_LIMIT, Checksum.CHUNK_SIZE. lia.
  - lia.
Qed.

Lemma two_runs_encoding_witness :
  lz77_trace s3_input = run_tokens 0 0x41 ++ run_tokens 65536 0x42 /\
  find_marker s3_input <> 0x41 /\ find_marker s3_input <> 0x42 /\
  len (lz77_payload s3_input) = 137 /\
  lz77_uncompress (lz77_payload s3_input ++ [0; 0; 0]) 140 (len s3_input)
    = Ok s3_input.
Proof.
  apply (two_runs_encoding 0x41 0x42 [0; 0; 0] 140); unfold byte_ok; lia.
Defined.

End TwoRunsTheorem.

(** ** Round trip of a block *)

Section RecompressFacts.
Import BCL1.

Variable lzma_compress : Z -> Z -> Z -> Z -> list Z -> list Z.
Variable zlib_compress : list Z -> list Z.



End RecompressFacts.

Section RoundTripClaim.
Import BCL1.

Variable lzma_compress : Z -> Z -> Z -> Z -> list Z -> list Z.
Variable zlib_compress : list Z -> list Z.
Variable decompress_lzma : list Z -> result (list Z).
Variable zlib_decompress : list Z -> result (list Z).






End RoundTripClaim.



(** ** Partition lookup and extraction *)

Section Extraction.
Import Layout.

Lemma item_Ok {A} (l : list A) i x :
  item l i = Ok x <-> 0 <= i /\ l !! Z.to_nat i = Some x.
Proof.
  unfold item. destruct (Z.ltb_spec i 0).
  - split; [discriminate | lia].
  - destruct (l !! Z.to_nat i) as [y|]; split.
    + intros [= ->]. auto.
    + intros [_ [= ->]]. reflexivity.
    + discriminate.
    + intros [_ [=]].
Qed.

Lemma find_part_spec ids wanted : forall (n : nat) a,
  0 <= a -> a + Z.of_nat n <= len ids ->
  exists r,
    find_part n ids wanted a = Ok r /\
    ((r = -1 /\ forall i, a <= i < a + Z.of_nat n -> item ids i <> Ok wanted) \/
     (a <= r < a + Z.of_nat n /\ item ids r = Ok wanted /\
      forall i, a <= i < r -> item ids i <> Ok wanted)).
Proof.
  induction n as [|n IH]; intros a Ha Hlen; cbn [find_part].
  { exists (-1). split; [reflexivity|]. left. split; [reflexivity | intros i Hi; lia]. }
  unfold len in Hlen.
  destruct (lookup_lt_is_Some_2 ids (Z.to_nat a) ltac:(lia)) as [id Hid].
  assert (Hit : item ids a = Ok id) by (apply item_Ok; auto).
  rewrite Hit. cbn [bind].
  destruct (Z.eqb_spec id wanted) as [E|E].
  - subst id. exists a. split; [reflexivity|]. right.
    split; [lia|]. split; [exact Hit | intros i Hi; lia].
  - destruct (IH (a + 1) ltac:(lia) ltac:(unfold len; lia)) as (r & Hr & Hcase).
    exists r. split; [exact Hr|].
    assert (Hne : item ids a <> Ok wanted) by (rewrite Hit; congruence).
    destruct Hcase as [[-> Hnone]|(Hrange & Hat & Hbefore)].
    + left. split; [reflexivity|]. intros i Hi.
      destruct (Z.eq_dec i a) as [->|]; [exact Hne | apply Hnone; lia].
    + right. split; [lia|]. split; [exact Hat|]. intros i Hi.
      destruct (Z.eq_dec i a) as [->|]; [exact Hne | apply Hbefore; lia].
Qed.

(** X15: the partition an id selects.  When the table has at least
    [partitions_count] ids, the search succeeds; it returns -1 exactly
    when no entry has the id, and otherwise the first entry that has
    it: of two partitions with the same id, the extract, replace,
    uncompress and compress operations see the first. *)
Theorem find_part_nr_first_match s wanted :
  0 <= partitions_count s <= len (part_id s) ->
  exists r,
    find_part_nr s wanted = Ok r /\
    ((r = -1 /\
      forall i, 0 <= i < partitions_count s -> item (part_id s) i <> Ok wanted) \/
     (0 <= r < partitions_count s /\ item (part_id s) r = Ok wanted /\
      forall i, 0 <= i < r -> item (part_id s) i <> Ok wanted)).
Proof.
  intros H. unfold find_part_nr.
  destruct (find_part_spec (part_id s) wanted (Z.to_nat (partitions_count s)) 0
              ltac:(lia) ltac:(lia)) as (r & Hr & Hcase).
  exists r. split; [exact Hr|].
  rewrite Z2Nat.id in Hcase by lia. exact Hcase.
Qed.

Lemma find_part_nr_first_match_witness :
  exists r,
    find_part_nr Parser.s4_state 1 = Ok r /\
    ((r = -1 /\
      forall i, 0 <= i < partitions_count Parser.s4_state ->
        item (part_id Parser.s4_state) i <> Ok 1) \/
     (0 <= r < partitions_count Parser.s4_state /\
      item (part_id Parser.s4_state) r = Ok 1 /\
      forall i, 0 <= i < r -> item (part_id Parser.s4_state) i <> Ok 1)).
Proof.
  apply (find_part_nr_first_match Parser.s4_state 1).
  vm_compute. split; discriminate.
Defined.

Lemma take_min_length {A} (l : list A) k :
  take (k `min` length l) l = take k l.
Proof.
  destruct (decide (k <= length l)%nat).
  - rewrite Nat.min_l by lia. reflexivity.
  - rewrite Nat.min_r by lia. rewrite !take_ge by lia. reflexivity.
Qed.

(** The chunked copy is one read. *)
Lemma copy_chunks_take : forall (fuel : nat) stream n out,
  (length stream < fuel)%nat ->
  copy_chunks fuel stream n out = out ++ take (Z.to_nat n) stream.
Proof.
  induction fuel as [|fuel IH]; intros stream n out Hf; [lia|].
  cbn [copy_chunks].
  destruct (Z.gtb_spec n 0) as [Hn|Hn].
  2:{ replace (Z.to_nat n) with 0%nat by lia. rewrite take_0, app_nil_r. reflexivity. }
  pose proof CHUNK_SIZE_pos as Hc.
  set (k := Z.to_nat (Z.min Checksum.CHUNK_SIZE n)).
  assert (Hk : (0 < k <= Z.to_nat n)%nat) by lia.
  destruct (take k stream) as [|c0 c] eqn:Hchunk.
  - assert (stream = []) as ->.
    { destruct stream; [reflexivity|].
      replace k with (S (k - 1)) in Hchunk by lia. discriminate. }
    rewrite take_nil, app_nil_r. reflexivity.
  - rewrite <- Hchunk. set (chunk := take k stream) in *.
    assert (Hl : length chunk = (k `min` length stream)%nat)
      by (subst chunk; apply length_take).
    assert (Hpos : (0 < length chunk)%nat) by (rewrite Hchunk; cbn; lia).
    rewrite IH by (rewrite length_drop; lia).
    rewrite <- app_assoc. f_equal.
    assert (Hchunk' : chunk = take (length chunk) stream).
    { rewrite Hl, take_min_length. reflexivity. }
    rewrite Hchunk' at 1.
    unfold len.
    replace (Z.to_nat (n - Z.of_nat (length chunk)))
      with (Z.to_nat n - length chunk)%nat by lia.
    rewrite take_take_drop. f_equal. lia.
Qed.

Lemma partition_extract_slice s is_extract is_extract_offset part_nr start size :
  find_part_nr s is_extract = Ok part_nr ->
  item (part_startoffset s) part_nr = Ok start ->
  item (part_size s) part_nr = Ok size ->
  let offset := if is_extract_offset =? -1 then 0 else is_extract_offset in
  0 <= start + offset ->
  partition_extract s is_extract is_extract_offset =
  if part_nr =? -1 then Ok None
  else Ok (Some (pread (in_file s) (start + offset) (size - offset))).
Proof.
  intros Hfind Hstart Hsize offset Hpos.
  unfold partition_extract. rewrite Hfind. cbn [bind].
  destruct (part_nr =? -1); cbn [negb]; [reflexivity|].
  rewrite Hstart. cbn [bind].
  assert (E : (if negb (is_extract_offset =? -1) then is_extract_offset else 0) = offset).
  { subst offset. destruct (is_extract_offset =? -1); reflexivity. }
  rewrite E. destruct (Z.ltb_spec (start + offset) 0); [lia|].
  rewrite Hsize. cbn [bind].
  rewrite copy_chunks_take by lia. reflexivity.
Qed.

Lemma partition_extract_absent s is_extract is_extract_offset :
  find_part_nr s is_extract = Ok (-1) ->
  partition_extract s is_extract is_extract_offset = Ok None.
Proof.
  intros Hfind. unfold partition_extract. rewrite Hfind. reflexivity.
Qed.

(** X16: what is extracted.  When the search for the id ends with -1
    (no entry has the id), nothing is written.  For a partition found
    at table entry [part_nr], with the read position [start + offset]
    not negative, the file written holds the bytes of the input from
    [start + offset] up to [size - offset] of them, fewer when the
    input ends before: the chunked copy is one read.  An offset of -1
    counts as 0. *)
Theorem partition_extract_is_slice s is_extract is_extract_offset part_nr :
  find_part_nr s is_extract = Ok part_nr ->
  let offset := if is_extract_offset =? -1 then 0 else is_extract_offset in
  (part_nr = -1 ->
   partition_extract s is_extract is_extract_offset = Ok None) /\
  (part_nr <> -1 ->
   forall start size,
     item (part_startoffset s) part_nr = Ok start ->
     item (part_size s) part_nr = Ok size ->
     0 <= start + offset ->
     partition_extract s is_extract is_extract_offset =
     Ok (Some (pread (in_file s) (start + offset) (size - offset)))).
Proof.
  intros Hfind offset. split.
  - intros ->. apply partition_extract_absent. exact Hfind.
  - intros Hnr start size Hstart Hsize Hpos.
    rewrite (partition_extract_slice s is_extract is_extract_offset part_nr start size)
      by assumption.
    destruct (Z.eqb_spec part_nr (-1)); [contradiction | reflexivity].
Qed.

Lemma partition_extract_is_slice_witness :
  partition_extract Parser.s4_state 7 (-1) = Ok None /\
  partition_extract Parser.s4_state 1 (-1) =
  Ok (Some (pread Parser.s4_file 1064 2000)).
Proof.
  split.
  - apply (proj1 (partition_extract_is_slice Parser.s4_state 7 (-1) (-1) eq_refl)).
    reflexivity.
  - apply (proj2 (partition_extract_is_slice Parser.s4_state 1 (-1) 1 eq_refl)
             ltac:(discriminate) 1064 2000);
      [reflexivity | reflexivity | vm_compute; discriminate].
Defined.

(** X17: extraction after a replacement in place.  When the
    replacement fills the partition from [offset] to its end and the
    partition lies inside the file, the replace operation succeeds and
    extracting the same partition at the same offset afterwards gives
    the replacement back. *)
Theorem extract_after_replace_in_place s id offset replacedata part_nr start size :
  find_part_nr s id = Ok part_nr -> part_nr <> -1 ->
  item (part_startoffset s) part_nr = Ok start ->
  item (part_size s) part_nr = Ok size ->
  len replacedata + offset = size ->
  0 <= offset -> 0 <= start + offset ->
  start + size <= len (in_file s) ->
  exists s',
    partition_replace s id offset (Some replacedata) = Ok s' /\
    partition_extract s' id offset = Ok (Some replacedata).
Proof.
  intros Hfind Hnr Hstart Hsize Heq Hoff Hpos Hin.
  unfold partition_replace. rewrite Hfind. cbn [bind].
  destruct (Z.eqb_spec part_nr (-1)) as [|_]; [contradiction|].
  rewrite Hsize, Hstart. cbn [bind].
  destruct (Z.eqb_spec (len replacedata + offset) size); [|contradiction].
  destruct (Z.ltb_spec (start + offset) 0); [lia|].
  eexists. split; [reflexivity|].
  rewrite (partition_extract_slice _ id offset part_nr start size);
    [| exact Hfind | exact Hstart | exact Hsize
     | destruct (Z.eqb_spec offset (-1)); lia].
  destruct (Z.eqb_spec part_nr (-1)) as [|_]; [contradiction|].
  destruct (Z.eqb_spec offset (-1)) as [|_]; [lia|].
  do 2 f_equal. cbn [in_file set_in_file].
  unfold len in *.
  rewrite write_chunks_inside by lia.
  unfold pread.
  rewrite drop_app_length' by (rewrite length_take; lia).
  replace (Z.to_nat (size - offset)) with (length replacedata) by lia.
  apply take_app_length.
Qed.

Lemma extract_after_replace_in_place_witness :
  exists s',
    partition_replace Parser.s4_state 1 0 (Some (replicate (Z.to_nat 2000) 7)) = Ok s' /\
    partition_extract s' 1 0 = Ok (Some (replicate (Z.to_nat 2000) 7)).
Proof.
  apply (extract_after_replace_in_place Parser.s4_state 1 0
           (replicate (Z.to_nat 2000) 7) 1 1064 2000);
    try reflexivity; vm_compute; discriminate.
Defined.

(** X18: putting back what was extracted.  For a partition that lies
    inside the file, replacing it, at an offset inside it, by what the
    extract operation wrote for that offset leaves the file and every
    table as they were. *)
Theorem replace_by_extracted_is_identity s id offset data part_nr start size :
  find_part_nr s id = Ok part_nr -> part_nr <> -1 ->
  item (part_startoffset s) part_nr = Ok start ->
  item (part_size s) part_nr = Ok size ->
  0 <= offset <= size -> 0 <= start + offset ->
  start + size <= len (in_file s) ->
  partition_extract s id offset = Ok (Some data) ->
  partition_replace s id offset (Some data) = Ok s.
Proof.
  intros Hfind Hnr Hstart Hsize Hoff Hpos Hin Hex.
  rewrite (partition_extract_slice s id offset part_nr start size) in Hex;
    [| exact Hfind | exact Hstart | exact Hsize
     | destruct (Z.eqb_spec offset (-1)); lia].
  destruct (Z.eqb_spec part_nr (-1)) as [|_]; [contradiction|].
  destruct (Z.eqb_spec offset (-1)) as [|_]; [lia|].
  injection Hex as <-.
  assert (Hl : len (pread (in_file s) (start + offset) (size - offset)) = size - offset).
  { unfold pread, len in *. rewrite length_take, length_drop. lia. }
  unfold partition_replace. rewrite Hfind. cbn [bind].
  destruct (Z.eqb_spec part_nr (-1)) as [|_]; [contradiction|].
  rewrite Hsize, Hstart. cbn [bind]. rewrite Hl.
  destruct (Z.eqb_spec (size - offset + offset) size); [|lia].
  destruct (Z.ltb_spec (start + offset) 0); [lia|].
  f_equal.
  assert (Hf : write_chunks
                 (S (length (pread (in_file s) (start + offset) (size - offset))))
                 (pread (in_file s) (start + offset) (size - offset))
                 (in_file s) (start + offset) = in_file s).
  { unfold len in *. rewrite write_chunks_inside by lia.
    unfold pread at 1.
    replace (Z.to_nat (start + offset)
             + length (pread (in_file s) (start + offset) (size - offset)))%nat
      with (Z.to_nat (start + offset) + Z.to_nat (size - offset))%nat by lia.
    rewrite <- drop_drop, take_drop. apply take_drop. }
  rewrite Hf. destruct s. reflexivity.
Qed.

Lemma replace_by_extracted_is_identity_witness :
  partition_replace Parser.s4_state 1 0 (Some (pread Parser.s4_file 1064 2000))
  = Ok Parser.s4_state.
Proof.
  apply (replace_by_extracted_is_identity Parser.s4_state 1 0
           (pread Parser.s4_file 1064 2000) 1 1064 2000);
    try reflexivity; vm_compute; try discriminate; split; discriminate.
Defined.

End Extraction.

(** ** The repair of a file whose checksums are right *)

Section RepairOfValidFile.
Import Layout Parser Checksum.

Lemma le_bytes_le_value : forall bs,
  bytes_ok bs -> le_bytes (length bs) (le_value bs) = bs.
Proof.
  induction 1 as [|b bs Hb Hbs IH]; [reflexivity|].
  cbn [length le_bytes]. unfold le_value. cbn [foldr]. fold (le_value bs).
  unfold byte_ok in Hb.
  replace ((b + 256 * le_value bs) mod 256) with b
    by (Z.div_mod_to_equations; lia).
  replace ((b + 256 * le_value bs) / 256) with (le_value bs)
    by (Z.div_mod_to_equations; lia).
  rewrite IH. reflexivity.
Qed.

Lemma le_value_bound : forall bs,
  bytes_ok bs -> 0 <= le_value bs < 256 ^ len bs.
Proof.
  induction 1 as [|b bs Hb Hbs IH].
  - unfold le_value, len. cbn. lia.
  - unfold le_value, len in *. cbn [foldr length].
    rewrite Nat2Z.inj_succ, Z.pow_succ_r by lia.
    unfold byte_ok in Hb. nia.
Qed.

Lemma pwrite_pread_id f off n :
  0 <= off -> 0 <= n -> off + n <= len f ->
  pwrite f off (pread f off n) = f.
Proof.
  intros Hoff Hn Hin. unfold len in Hin.
  assert (Hl : length (pread f off n) = Z.to_nat n).
  { unfold pread. rewrite length_take, length_drop. lia. }
  rewrite pwrite_inside by lia. rewrite Hl.
  unfold pread. rewrite <- drop_drop, take_drop. apply take_drop.
Qed.

Lemma fix_partitions_noop s f : forall (n : nat) a,
  0 <= a -> a + Z.of_nat n <= len (part_crc s) ->
  part_crcCalc s = part_crc s ->
  fix_partitions n s a f = Ok f.
Proof.
  induction n as [|n IH]; intros a Ha Hlen Heq; cbn [fix_partitions]; [reflexivity|].
  rewrite Heq. unfold len in Hlen.
  destruct (lookup_lt_is_Some_2 (part_crc s) (Z.to_nat a) ltac:(lia)) as [crc Hcrc].
  assert (Hit : item (part_crc s) a = Ok crc).
  { unfold item. destruct (Z.ltb_spec a 0); [lia|]. rewrite Hcrc. reflexivity. }
  rewrite Hit. cbn [bind]. rewrite Z.eqb_refl. cbn [negb bind].
  apply IH; [lia | unfold len; lia | exact Heq].
Qed.

(** X19: the repair leaves a valid HDR2 file alone.  When every stored
    partition checksum equals the computed one and the field at 0x24
    holds the checksum computed over [total_file_size] bytes, the
    [-fixCRC] run writes back at most the bytes that are there: the
    file is unchanged. *)
Theorem fixCRC_keeps_valid_hdr2_file f s c :
  bytes_ok f ->
  main_parse f = Ok s -> FW_HDR2 s = 1 ->
  0 <= partitions_count s <= len (part_crc s) ->
  part_crcCalc s = part_crc s ->
  rd_le f 0x24 4 = Ok c ->
  MemCheck_CalcCheckSum16Bit f 0 (total_file_size s) 0x24 = Ok c ->
  run_fixCRC f = Ok f.
Proof.
  intros Hok Hparse H2 Hcount Hcrc Hstored Hcalc.
  unfold run_fixCRC. rewrite Hparse. cbn [bind].
  rewrite fix_partitions_noop by (try lia; assumption). cbn [bind].
  unfold fix_file_crc. rewrite H2. change (1 =? 1) with true. cbv iota.
  rewrite Hcalc. cbn [bind].
  destruct (checksum_value s =? c); [reflexivity|].
  destruct (rd_le_inside f 0x24 4 c ltac:(lia) Hstored) as [_ Hin].
  unfold rd_le in Hstored. change (0x24 <? 0) with false in Hstored. cbv iota in Hstored.
  apply unpack_le_inv in Hstored as [Hl ->].
  assert (Hb : bytes_ok (pread f 0x24 (Z.of_nat 4))).
  { unfold pread. apply Forall_take, Forall_drop. exact Hok. }
  pose proof (le_value_bound _ Hb) as Hrange. unfold len in Hrange. rewrite Hl in Hrange.
  rewrite pack_le_ok by exact Hrange. cbn [bind].
  unfold seek_write. change (0x24 <? 0) with false. cbv iota.
  rewrite <- Hl at 1. rewrite le_bytes_le_value by exact Hb.
  rewrite pwrite_pread_id by lia. reflexivity.
Qed.

Lemma fixCRC_keeps_valid_hdr2_file_witness : run_fixCRC s4_file = Ok s4_file.
Proof.
  apply (fixCRC_keeps_valid_hdr2_file s4_file s4_state 0xE32A).
  - unfold s4_file. apply Forall_app. split.
    + repeat (constructor; [unfold byte_ok; lia|]). constructor.
    + apply Forall_replicate. unfold byte_ok. lia.
  - exact s4_state_parsed.
  - reflexivity.
  - vm_compute. split; discriminate.
  - reflexivity.
  - vm_compute. reflexivity.
  - vm_compute. reflexivity.
Defined.

End RepairOfValidFile.

(** ** The partition table *)

Section PartitionTable.
Import Layout Parser.

Lemma slice_pread f pos (i j : nat) :
  0 <= pos -> (i <= j <= 12)%nat ->
  slice (pread f pos 12) i j = pread f (pos + Z.of_nat i) (Z.of_nat (j - i)).
Proof.
  intros Hpos Hij. unfold slice. apply list_eq. intros k.
  rewrite pread_lookup.
  destruct (decide (k < Z.to_nat (Z.of_nat (j - i)))%nat) as [Hk|Hk].
  - rewrite lookup_take_lt, lookup_drop, pread_lookup by lia.
    rewrite decide_True by lia. f_equal. lia.
  - apply lookup_take_ge. lia.
Qed.

Lemma unpack_le_pread f p (n : nat) :
  0 <= p -> p + Z.of_nat n <= len f ->
  unpack_le n (pread f p (Z.of_nat n)) = Ok (le_value (pread f p (Z.of_nat n))).
Proof.
  intros Hp Hin. unfold unpack_le. rewrite decide_True; [reflexivity|].
  unfold pread, len in *. rewrite length_take, length_drop. lia.
Qed.

Lemma field_range f p (n : nat) :
  bytes_ok f -> 0 <= p -> p + Z.of_nat n <= len f ->
  0 <= le_value (pread f p (Z.of_nat n)) < 256 ^ Z.of_nat n.
Proof.
  intros Hok Hp Hin.
  assert (Hb : bytes_ok (pread f p (Z.of_nat n))).
  { unfold pread. apply Forall_take, Forall_drop. exact Hok. }
  pose proof (le_value_bound _ Hb) as Hr.
  replace (len (pread f p (Z.of_nat n))) with (Z.of_nat n) in Hr; [exact Hr|].
  unfold pread, len in *. rewrite length_take, length_drop. lia.
Qed.

(** The three fields of entry [k] of a table at [pos]. *)
Let entry_start (f : list Z) (pos : Z) (k : nat) : Z :=
  le_value (pread f (pos + 12 * Z.of_nat k) 4).
Let entry_size (f : list Z) (pos : Z) (k : nat) : Z :=
  le_value (pread f (pos + 12 * Z.of_nat k + 4) 4).
Let entry_id (f : list Z) (pos : Z) (k : nat) : Z :=
  le_value (pread f (pos + 12 * Z.of_nat k + 8) 4).

Lemma read_table_step f n pos starts sizes ids :
  bytes_ok f -> 0 <= pos -> pos + 12 <= len f ->
  read_table (S n) f pos starts sizes ids =
  if entry_start f pos 0 + entry_size f pos 0 <? 2 ^ 32
  then read_table n f (pos + 12) (starts ++ [entry_start f pos 0])
         (sizes ++ [entry_size f pos 0]) (ids ++ [entry_id f pos 0])
  else Raise.
Proof.
  intros Hok Hpos Hin. cbn [read_table].
  unfold entry_start, entry_size, entry_id.
  rewrite !slice_pread by lia.
  change (Z.of_nat (4 - 0)) with (Z.of_nat 4).
  change (Z.of_nat (8 - 4)) with (Z.of_nat 4).
  change (Z.of_nat (12 - 8)) with (Z.of_nat 4).
  change (Z.of_nat 0) with 0. change (Z.of_nat 8) with 8.
  change (12 * 0) with 0. rewrite !Z.add_0_r.
  pose proof (field_range f pos 4 Hok ltac:(lia) ltac:(lia)) as H1.
  pose proof (field_range f (pos + 4) 4 Hok ltac:(lia) ltac:(lia)) as H2.
  pose proof (field_range f (pos + 8) 4 Hok ltac:(lia) ltac:(lia)) as H3.
  change (256 ^ Z.of_nat 4) with (2 ^ 32) in *.
  change (Z.of_nat 4) with 4 in *.
  rewrite !(unpack_le_pread f _ 4) by lia. change (Z.of_nat 4) with 4.
  unfold append_u32. cbn [bind].
  set (st := le_value (pread f pos 4)) in *.
  set (sz := le_value (pread f (pos + 4) 4)) in *.
  set (id := le_value (pread f (pos + 8) 4)) in *.
  destruct (Z.ltb_spec st 0); [lia|]. destruct (Z.leb_spec (2 ^ 32) st); [lia|].
  cbn [orb bind].
  destruct (Z.ltb_spec sz 0); [lia|]. destruct (Z.leb_spec (2 ^ 32) sz); [lia|].
  cbn [orb bind].
  destruct (Z.ltb_spec id 0); [lia|]. destruct (Z.leb_spec (2 ^ 32) id); [lia|].
  cbn [orb bind].
  destruct (Z.ltb_spec (st + sz) 0); [lia|]. cbn [orb].
  destruct (Z.leb_spec (2 ^ 32) (st + sz)), (Z.ltb_spec (st + sz) (2 ^ 32));
    try lia; reflexivity.
Qed.

Lemma read_table_all f : forall (n : nat) pos starts sizes ids,
  bytes_ok f -> 0 <= pos -> pos + 12 * Z.of_nat n <= len f ->
  (forall k : nat, (k < n)%nat ->
     entry_start f pos k + entry_size f pos k < 2 ^ 32) ->
  read_table n f pos starts sizes ids =
  Ok (starts ++ map (entry_start f pos) (seq 0 n),
      sizes ++ map (entry_size f pos) (seq 0 n),
      ids ++ map (entry_id f pos) (seq 0 n)).
Proof.
  induction n as [|n IH]; intros pos starts sizes ids Hok Hpos Hin Hsum.
  { cbn [read_table seq map]. rewrite !app_nil_r. reflexivity. }
  rewrite read_table_step by (try assumption; lia).
  pose proof (Hsum 0%nat ltac:(lia)) as H0.
  destruct (Z.ltb_spec (entry_start f pos 0 + entry_size f pos 0) (2 ^ 32)); [|lia].
  rewrite IH; try assumption; try lia.
  - cbn [seq map]. rewrite <- !app_assoc. cbn [app].
    rewrite <- !seq_shift, !map_map.
    assert (Eshift : forall k : nat,
              pos + 12 + 12 * Z.of_nat k = pos + 12 * Z.of_nat (S k)) by (intros; lia).
    rewrite (map_ext (entry_start f (pos + 12)) (fun x => entry_start f pos (S x)))
      by (intros k; unfold entry_start; rewrite Eshift; reflexivity).
    rewrite (map_ext (entry_size f (pos + 12)) (fun x => entry_size f pos (S x)))
      by (intros k; unfold entry_size; rewrite Eshift; reflexivity).
    rewrite (map_ext (entry_id f (pos + 12)) (fun x => entry_id f pos (S x)))
      by (intros k; unfold entry_id; rewrite Eshift; reflexivity).
    reflexivity.
  - intros k Hk. specialize (Hsum (S k) ltac:(lia)).
    unfold entry_start, entry_size in *.
    replace (pos + 12 + 12 * Z.of_nat k) with (pos + 12 * Z.of_nat (S k)) by lia.
    exact Hsum.
Qed.

(** An entry whose end offset does not fit stops the loop. *)
Lemma read_table_overflow f : forall (n : nat) pos starts sizes ids (j : nat),
  bytes_ok f -> 0 <= pos -> pos + 12 * Z.of_nat n <= len f ->
  (j < n)%nat ->
  2 ^ 32 <= entry_start f pos j + entry_size f pos j ->
  read_table n f pos starts sizes ids = Raise.
Proof.
  induction n as [|n IH]; intros pos starts sizes ids j Hok Hpos Hin Hj Hover; [lia|].
  rewrite read_table_step by (try assumption; lia).
  destruct (Z.ltb_spec (entry_start f pos 0 + entry_size f pos 0) (2 ^ 32)) as [Hfit|Hfit];
    [|reflexivity].
  destruct j as [|j]; [lia|].
  apply (IH (pos + 12) _ _ _ j); try assumption; try lia.
  unfold entry_start, entry_size in *.
  replace (pos + 12 + 12 * Z.of_nat j) with (pos + 12 * Z.of_nat (S j)) by lia.
  exact Hover.
Qed.

(** X20: reading the partition table.  For a table of [n] entries of
    twelve bytes at [pos] that lies inside the file, the three arrays
    get, entry by entry, the little-endian 32-bit fields at offsets 0, 4
    and 8 of the entry, provided every entry has [start + size < 2^32];
    when some entry [j] of the table has a [start + size] that does not
    fit 32 bits, the run stops with an [OverflowError], at the first
    such entry, when its end offset is appended. *)
Theorem read_table_entries f n pos starts sizes ids :
  bytes_ok f -> 0 <= pos -> pos + 12 * Z.of_nat n <= len f ->
  let entry_start k := le_value (pread f (pos + 12 * Z.of_nat k) 4) in
  let entry_size k := le_value (pread f (pos + 12 * Z.of_nat k + 4) 4) in
  let entry_id k := le_value (pread f (pos + 12 * Z.of_nat k + 8) 4) in
  ((forall k : nat, (k < n)%nat -> entry_start k + entry_size k < 2 ^ 32) ->
   read_table n f pos starts sizes ids =
   Ok (starts ++ map entry_start (seq 0 n),
       sizes ++ map entry_size (seq 0 n),
       ids ++ map entry_id (seq 0 n))) /\
  (forall j : nat, (j < n)%nat -> 2 ^ 32 <= entry_start j + entry_size j ->
   read_table n f pos starts sizes ids = Raise).
Proof.
  intros Hok Hpos Hin. cbv zeta. split.
  - intros Hsum. apply read_table_all; assumption.
  - intros j Hj Hover. apply (read_table_overflow f n pos starts sizes ids j); assumption.
Qed.

Lemma read_table_entries_witness :
  read_table 3 s4_file 40 [] [] []
  = Ok ([64; 1064; 3064], [1000; 2000; 3000], [0; 1; 2]) /\
  read_table 2 overflow_table 0 [] [] [] = Raise.
Proof.
  assert (Hok : bytes_ok s4_file).
  { unfold s4_file. apply Forall_app. split.
    - repeat (constructor; [unfold byte_ok; lia|]). constructor.
    - apply Forall_replicate. unfold byte_ok. lia. }
  assert (Hok2 : bytes_ok overflow_table).
  { unfold overflow_table. repeat (constructor; [unfold byte_ok; lia|]). constructor. }
  split.
  - rewrite (proj1 (read_table_entries s4_file 3 40 [] [] [] Hok ltac:(lia)
                      ltac:(vm_compute; discriminate))).
    + vm_compute. reflexivity.
    + intros k Hk.
      assert (Hc : k = 0%nat \/ k = 1%nat \/ k = 2%nat) by lia.
      destruct Hc as [-> | [-> | ->]]; vm_compute; reflexivity.
  - apply (proj2 (read_table_entries overflow_table 2 0 [] [] [] Hok2 ltac:(lia)
                    ltac:(vm_compute; discriminate)) 1%nat).
    + lia.
    + vm_compute. discriminate.
Defined.

End PartitionTable.

(** ** The checksum of a compressed block *)

Section BlockChecksum.
Import BCL1 Layout Parser Checksum.

Variable lzma_compress : Z -> Z -> Z -> Z -> list Z -> list Z.
Variable zlib_compress : list Z -> list Z.

Tactic Notation "bind_inv" hyp(H) "as" ident(a) ident(E) :=
  apply bind_Ok_inv in H; destruct H as (a & E & H).

(** The block before and after the write of its checksum. *)
Lemma BCL1_compress_crc FW_HDR2 FW_HDR FW_BOOTLOADER part_id in_file start in2_file out :
  BCL1_compress lzma_compress zlib_compress FW_HDR2 FW_HDR FW_BOOTLOADER part_id
    in_file start in2_file = Ok out ->
  exists algo usize psize body,
    length algo = 2%nat /\ length usize = 4%nat /\ length psize = 4%nat /\
    be_value psize = len body /\
    if FW_BOOTLOADER =? 0 then
      exists c,
        MemCheck_CalcCheckSum16Bit
          (BCL1_magic ++ [0; 0] ++ algo ++ usize ++ psize ++ body) 0
          (len (BCL1_magic ++ [0; 0] ++ algo ++ usize ++ psize ++ body)) 0x4 = Ok c /\
        0 <= c < 65536 /\
        out = BCL1_magic ++ le_bytes 2 c ++ algo ++ usize ++ psize ++ body
    else out = BCL1_magic ++ [0; 0] ++ algo ++ usize ++ psize ++ body.
Proof.
  unfold BCL1_compress. intros H.
  destruct (start <? 0); [discriminate|].
  destruct (negb _); [discriminate|].
  bind_inv H as Algorithm EA.
  destruct (negb _); [discriminate|].
  bind_inv H as orig Eorig. apply unpack_be_inv in Eorig as [_ ->].
  bind_inv H as pd Epd. destruct pd as [props dict].
  bind_inv H as dataread Edata.
  bind_inv H as hdr Ehdr.
  apply block_header_inv in Ehdr as (algo & usize & Hhdr & Hla & _ & Hlu & _).
  bind_inv H as out0 Eout0.
  assert (Hout0 : exists psize body,
    out0 = (BCL1_magic ++ [0; 0]) ++ (algo ++ usize ++ psize ++ body) /\
    length psize = 4%nat /\ be_value psize = len body).
  { destruct (Algorithm =? 9) eqn:HA.
    - bind_inv Eout0 as placeholder Epl. bind_inv Eout0 as psize Eps.
      injection Eout0 as <-.
      apply pack_be_inv in Epl as (Hpl & _).
      apply pack_be_inv in Eps as (Hlp & Hvp & _ & _).
      exists psize,
        (lz77_payload dataread
           ++ replicate (Z.to_nat (padding FW_HDR2 FW_HDR FW_BOOTLOADER part_id
                                     (len (lz77_payload dataread)))) 0).
      split; [|split; [exact Hlp|]].
      + rewrite (pwrite_middle hdr placeholder _ psize).
        * rewrite Hhdr, <- !app_assoc. reflexivity.
        * rewrite Hhdr. unfold len. rewrite !length_app. simpl. lia.
        * lia.
      + rewrite Hvp.
        pose proof (padding_nonneg FW_HDR2 FW_HDR FW_BOOTLOADER part_id
                      (len (lz77_payload dataread))).
        unfold len in *. rewrite length_app, length_replicate. lia.
    - bind_inv Eout0 as psize Eps. injection Eout0 as <-.
      apply pack_be_inv in Eps as (Hlp & Hvp & _ & _).
      exists psize. eexists. split; [|split; [exact Hlp|]].
      + rewrite Hhdr, <- !app_assoc. reflexivity.
      + rewrite Hvp. unfold len. rewrite length_app, length_replicate.
        match goal with
        | |- context [padding ?a ?b ?c ?d ?n] =>
          pose proof (padding_nonneg a b c d n)
        end. lia. }
  destruct Hout0 as (psize & body & -> & Hlp & Hvp).
  exists algo, usize, psize, body.
  split; [exact Hla|]. split; [exact Hlu|]. split; [exact Hlp|]. split; [exact Hvp|].
  destruct (FW_BOOTLOADER =? 0).
  - bind_inv H as newCRC ECRC. bind_inv H as crc Ecrc. injection H as <-.
    apply pack_le_inv in Ecrc as Hcrc.
    destruct Hcrc as (Hlc & Hvc & Hokc & Hrc).
    change (256 ^ Z.of_nat 2) with 65536 in Hrc.
    assert (Ecrc' : crc = le_bytes 2 newCRC).
    { rewrite <- Hvc, <- Hlc. symmetry. apply le_bytes_le_value. exact Hokc. }
    exists newCRC. split; [|split; [exact Hrc|]].
    + rewrite <- ECRC. rewrite <- !app_assoc. f_equal. lia.
    + rewrite Ecrc'.
      apply (pwrite_middle BCL1_magic [0; 0] (algo ++ usize ++ psize ++ body)
               (le_bytes 2 newCRC)); [reflexivity | reflexivity].
  - injection H as <-. reflexivity.
Qed.

Lemma block_fields crc algo usize psize body :
  length crc = 2%nat -> length algo = 2%nat ->
  length usize = 4%nat -> length psize = 4%nat ->
  let out := BCL1_magic ++ crc ++ algo ++ usize ++ psize ++ body in
  pread out 0 4 = BCL1_magic /\ pread out 4 2 = crc /\ pread out 6 2 = algo /\
  pread out 8 4 = usize /\ pread out 12 4 = psize /\
  len out = 16 + len body.
Proof.
  intros Hc Ha Hu Hp out. subst out.
  split; [apply (pread_middle [] BCL1_magic); reflexivity|].
  split; [apply (pread_middle BCL1_magic crc); [reflexivity | unfold len; lia]|].
  split.
  { rewrite (app_assoc BCL1_magic).
    apply pread_middle; unfold len; rewrite ?length_app, ?Hc, ?Ha; reflexivity. }
  split.
  { rewrite (app_assoc crc), (app_assoc BCL1_magic).
    apply pread_middle; unfold len; rewrite ?length_app, ?Hc, ?Ha, ?Hu; reflexivity. }
  split.
  { rewrite (app_assoc algo), (app_assoc crc), (app_assoc BCL1_magic).
    apply pread_middle; unfold len; rewrite ?length_app, ?Hc, ?Ha, ?Hu, ?Hp; reflexivity. }
  unfold len. rewrite !length_app, Hc, Ha, Hu, Hp. cbn [length BCL1_magic]. lia.
Qed.

(** X21: the checksum of the block written.  Outside bootloader files,
    the block [BCL1_compress] leaves carries at offset 4 the checksum
    computed over the whole block with the hole at 4, a 16-bit value,
    and the classifier run on the block reports a BCL1 partition whose
    stored and computed checksums agree.  For a bootloader the field
    stays zero. *)
Theorem compressed_block_checksum_verifies
    FW_HDR2 FW_HDR FW_BOOTLOADER part_id in_file start in2_file out size id :
  BCL1_compress lzma_compress zlib_compress FW_HDR2 FW_HDR FW_BOOTLOADER part_id
    in_file start in2_file = Ok out ->
  (FW_BOOTLOADER = 0 ->
   exists c,
     c < 65536 /\
     rd_le out 4 2 = Ok c /\
     MemCheck_CalcCheckSum16Bit out 0 (len out) 0x4 = Ok c /\
     GetPartitionInfo 1 0 [] out 0 size id true = Ok (Kbcl1, c, c, [])) /\
  (FW_BOOTLOADER <> 0 -> pread out 4 2 = [0; 0]).
Proof.
  intros H.
  apply BCL1_compress_crc in H as (algo & usize & psize & body & Hla & Hlu & Hlp & Hvp & H).
  split.
  - intros ->. change (0 =? 0) with true in H. cbv iota in H.
    destruct H as (c & Hc & Hrange & ->).
    destruct (block_fields [0; 0] algo usize psize body eq_refl Hla Hlu Hlp)
      as (_ & _ & _ & _ & _ & Hlen0).
    destruct (block_fields (le_bytes 2 c) algo usize psize body
                (le_bytes_length 2 c) Hla Hlu Hlp)
      as (F0 & F4 & F6 & F8 & F12 & Hlen).
    cbv zeta in *.
    set (out0 := BCL1_magic ++ [0; 0] ++ algo ++ usize ++ psize ++ body) in *.
    set (out := BCL1_magic ++ le_bytes 2 c ++ algo ++ usize ++ psize ++ body) in *.
    assert (Hsame : MemCheck_CalcCheckSum16Bit out 0 (len out) 4 = Ok c).
    { rewrite Hlen, <- Hlen0, <- Hc. unfold MemCheck_CalcCheckSum16Bit.
      apply MemCheck_hole_ext; try lia; try reflexivity.
      intros i H1 H2. subst out out0.
      destruct (decide (i < 4)%nat) as [Hi|Hi].
      - rewrite !lookup_app_l by (cbn; lia). reflexivity.
      - rewrite !(lookup_app_r BCL1_magic) by (cbn; lia).
        rewrite (lookup_app_r (le_bytes 2 c)) by (rewrite le_bytes_length; cbn; lia).
        rewrite (lookup_app_r [0; 0]) by (cbn; lia).
        rewrite le_bytes_length. reflexivity. }
    assert (Hrd : rd_le out 4 2 = Ok c).
    { unfold rd_le. change (4 <? 0) with false. cbv iota.
      change (Z.of_nat 2) with 2. rewrite F4.
      apply unpack_le_le_bytes. change (256 ^ Z.of_nat 2) with 65536. lia. }
    exists c. split; [lia|]. split; [exact Hrd|]. split; [exact Hsame|].
    apply (GetPartitionInfo_bcl1_intro 0 0 [] out 0 size id true c
             (be_value algo) (be_value usize) (be_value psize) c).
    + unfold rd_be. change (0 <? 0) with false. cbv iota.
      change (Z.of_nat 4) with 4. rewrite F0. reflexivity.
    + reflexivity.
    + reflexivity.
    + exact Hrd.
    + unfold rd_be. change (0 + 6 <? 0) with false. cbv iota.
      change (Z.of_nat 2) with 2. change (0 + 6) with 6. rewrite F6.
      unfold unpack_be. rewrite decide_True by exact Hla. reflexivity.
    + unfold rd_be. change (0 + 8 <? 0) with false. cbv iota.
      change (Z.of_nat 4) with 4. change (0 + 8) with 8. rewrite F8.
      unfold unpack_be. rewrite decide_True by exact Hlu. reflexivity.
    + unfold rd_be. change (0 + 12 <? 0) with false. cbv iota.
      change (Z.of_nat 4) with 4. change (0 + 12) with 12. rewrite F12.
      unfold unpack_be. rewrite decide_True by exact Hlp. reflexivity.
    + rewrite Hvp. replace (len body + 16) with (len out) by lia. exact Hsame.
  - intros Hne. apply Z.eqb_neq in Hne. rewrite Hne in H. subst out.
    apply (pread_middle BCL1_magic [0; 0]); reflexivity.
Qed.

End BlockChecksum.

Lemma compressed_block_checksum_verifies_witness :
  let out := [66; 67; 76; 49; 42; 108; 0; 9; 0; 0; 0; 5; 0; 0; 0; 8; 0; 1; 2; 3; 4; 5; 0; 0] in
  (0 = 0 ->
   exists c,
     c < 65536 /\
     Parser.rd_le out 4 2 = Ok c /\
     Checksum.MemCheck_CalcCheckSum16Bit out 0 (len out) 0x4 = Ok c /\
     Parser.GetPartitionInfo 1 0 [] out 0 24 0 true = Ok (Layout.Kbcl1, c, c, [])) /\
  (0 <> 0 -> pread out 4 2 = [0; 0]).
Proof.
  apply (compressed_block_checksum_verifies BCL1.no_lzma BCL1.no_zlib 1 0 0 0
           BCL1.sample_block 0 [1; 2; 3; 4; 5]).
  vm_compute. reflexivity.
Defined.
